(** * node-liveosc: the mirror of a Live set, its listeners and its commands

    A shallow embedding of [lib/song.js], [lib/track.js], [lib/return.js],
    [lib/clip.js] and [lib/device.js].  The objects of the program live in a
    store and are named by references, the OSC receiver is a table of
    listeners, the OSC emitter is the log of what was sent, and the event
    emitters of the entities are the log of what was announced. *)

From Stdlib Require Import Ascii String DecimalString QArith Qround.
From stdpp Require Import base list strings gmap.

Local Open Scope string_scope.

(** ** JavaScript values

    The values the program stores and receives: [undefined], booleans (a
    clip's name starts as [false]), numbers and strings.  A number is a
    rational: the program stores, compares and counts up to numbers and never
    computes with them.  NaN and the infinities are not values of the model. *)

Inductive value :=
| VUndef
| VBool (b : bool)
| VNum (q : Q)
| VStr (s : string).

Definition num (n : nat) : value := VNum (inject_Z (Z.of_nat n)).

(** What the language runtime does and the repository does not define:
    [ToNumber] on a string ([None] is NaN) and [ToString] on a number.  The
    development is parametric in both. *)

Class Runtime := {
  string_to_number : string -> option Q;
  number_to_string : Q -> string
}.

(** A JavaScript array as the program uses [sends] and [params]: indexed
    elements with holes, and the properties set under keys that are not
    array indices.  The keys to which [Array.prototype] gives a meaning
    ([length], [push], ...) are not modelled. *)

Record jsarray (A : Type) := JsArray {
  elems : list (option A);
  props : gmap string A
}.
Arguments JsArray {A} _ _.
Arguments elems {A} _.
Arguments props {A} _.

Inductive pkey :=
| KIdx (n : nat)
| KName (s : string).

Definition arr_empty {A} : jsarray A := JsArray [] ∅.

(** [a[n] = x] on the indexed part: in range it overwrites, past the end the
    array grows and the skipped positions are holes. *)
Definition set_at {A} (n : nat) (x : A) (l : list (option A)) : list (option A) :=
  if decide (n < length l)%nat then <[n := Some x]> l
  else l ++ replicate (n - length l) None ++ [Some x].

Definition arr_get {A} (k : pkey) (a : jsarray A) : option A :=
  match k with
  | KIdx n => mjoin (elems a !! n)
  | KName s => props a !! s
  end.

Definition arr_set {A} (k : pkey) (x : A) (a : jsarray A) : jsarray A :=
  match k with
  | KIdx n => JsArray (set_at n x (elems a)) (props a)
  | KName s => JsArray (elems a) (<[s := x]> (props a))
  end.

Definition digit_of (c : ascii) : option nat :=
  let n := nat_of_ascii c in
  if decide (48 <= n <= 57)%nat then Some (n - 48)%nat else None.

Fixpoint digits_value (acc : N) (s : string) : option N :=
  match s with
  | EmptyString => Some acc
  | String c s' =>
      match digit_of c with
      | Some d => digits_value (acc * 10 + N.of_nat d) s'
      | None => None
      end
  end.

Definition max_index : N := 4294967295.

(** A string is an array index when it is the canonical decimal spelling of
    an integer below 2^32 - 1. *)
Definition index_of_string (s : string) : option nat :=
  match s with
  | EmptyString => None
  | String c s' =>
      if decide (c = "0"%char /\ s' <> EmptyString) then None
      else match digits_value 0 s with
           | Some n => if decide (n < max_index)%N then Some (N.to_nat n) else None
           | None => None
           end
  end.

Definition index_of_number (q : Q) : option nat :=
  let r := Qred q in
  if decide (Qden r = 1%positive /\ (0 <= Qnum r < Z.of_N max_index)%Z)
  then Some (Z.to_nat (Qnum r)) else None.

Section Values.
Context `{Runtime}.

Definition to_number (v : value) : option Q :=
  match v with
  | VUndef => None
  | VBool b => Some (if b then 1%Q else 0%Q)
  | VNum q => Some q
  | VStr s => string_to_number s
  end.

Definition to_string (v : value) : string :=
  match v with
  | VUndef => "undefined"
  | VBool b => if b then "true" else "false"
  | VNum q => number_to_string q
  | VStr s => s
  end.

(** [x == y] *)
Definition loose_eq (x y : value) : bool :=
  match x, y with
  | VUndef, VUndef => true
  | VUndef, _ | _, VUndef => false
  | VStr a, VStr b => String.eqb a b
  | _, _ =>
      match to_number x, to_number y with
      | Some a, Some b => Qeq_bool a b
      | _, _ => false
      end
  end.

(** [x != y] *)
Definition loose_neq (x y : value) : bool := negb (loose_eq x y).

(** [x === y] *)
Definition strict_eq (x y : value) : bool :=
  match x, y with
  | VUndef, VUndef => true
  | VBool a, VBool b => Bool.eqb a b
  | VNum a, VNum b => Qeq_bool a b
  | VStr a, VStr b => String.eqb a b
  | _, _ => false
  end.

(** The truth value of [v] in a condition, as in [if (v)] and [v || 0]. *)
Definition truthy (v : value) : bool :=
  match v with
  | VUndef => false
  | VBool b => b
  | VNum q => negb (Qeq_bool q 0)
  | VStr s => negb (String.eqb s "")
  end.

(** [v > 0] *)
Definition gt_zero (v : value) : bool :=
  match to_number v with
  | Some q => negb (Qle_bool q 0)
  | None => false
  end.

(** The trips of [for (var i = 0; i < v; i++)]: the naturals below [v]. *)
Definition loop_bound (v : value) : nat :=
  match to_number v with
  | Some q => Z.to_nat (Qceiling q)
  | None => 0%nat
  end.

(** The property key of [a[v]]. *)
Definition key_of (v : value) : pkey :=
  match v with
  | VNum q =>
      match index_of_number q with
      | Some n => KIdx n
      | None => KName (number_to_string q)
      end
  | VStr s =>
      match index_of_string s with
      | Some n => KIdx n
      | None => KName s
      end
  | _ => KName (to_string v)
  end.

End Values.

(** ** The objects of the program *)

(** An object is named by a reference into the store of its kind. *)
Abbreviation ref := nat (only parsing).

(** The [type] argument of a [Device]: the three strings its callers pass. *)
Inductive devtype := track_type | return_type | master_type.

Definition type_name (ty : devtype) : string :=
  match ty with
  | track_type => "track"
  | return_type => "return"
  | master_type => "master"
  end.

(** The [track] argument of a [Device]: the track, the return or (for the
    master channel) the song that constructed it. *)
Inductive owner := track_owner (r : ref) | return_owner (r : ref) | song_owner.

(** An entry of [Device.params]; a field that was never assigned reads
    [undefined]. *)
Record Param := mkParam {
  p_id : value; p_value : value; p_name : value; p_min : value; p_max : value
}.

Definition empty_param : Param := mkParam VUndef VUndef VUndef VUndef VUndef.

Record Device := mkDevice {
  d_name : value; d_id : value; d_track : owner; d_type : devtype;
  d_params : jsarray Param
}.

Record Clip := mkClip {
  c_track : ref; c_id : value; c_name : value; c_state : value;
  c_coarse : value; c_fine : value; c_loopstart : value; c_loopend : value;
  c_loopstate : value; c_warping : value; c_length : value
}.

Record Track := mkTrack {
  t_id : value; t_name : value; t_clips : list ref; t_sends : jsarray value;
  t_devices : list ref; t_audio : value; t_solo : value; t_mute : value;
  t_arm : value; t_volume : value; t_pan : value; t_numScenes : value
}.

Record Return := mkReturn {
  r_name : value; r_id : value; r_solo : value; r_mute : value;
  r_volume : value; r_pan : value; r_devices : list ref; r_sends : jsarray value
}.

Record Song := mkSong {
  s_tempo : value; s_tracks : list ref; s_returns : list ref;
  s_devices : list ref; s_volume : value; s_pan : value; s_scene : value;
  s_beat : value; s_playing : value
}.

(** *** Assignments to a field *)

Definition set_d_params x d := mkDevice (d_name d) (d_id d) (d_track d) (d_type d) x.

Definition set_c_name x c := mkClip (c_track c) (c_id c) x (c_state c) (c_coarse c) (c_fine c) (c_loopstart c) (c_loopend c) (c_loopstate c) (c_warping c) (c_length c).
Definition set_c_state x c := mkClip (c_track c) (c_id c) (c_name c) x (c_coarse c) (c_fine c) (c_loopstart c) (c_loopend c) (c_loopstate c) (c_warping c) (c_length c).
Definition set_c_coarse x c := mkClip (c_track c) (c_id c) (c_name c) (c_state c) x (c_fine c) (c_loopstart c) (c_loopend c) (c_loopstate c) (c_warping c) (c_length c).
Definition set_c_fine x c := mkClip (c_track c) (c_id c) (c_name c) (c_state c) (c_coarse c) x (c_loopstart c) (c_loopend c) (c_loopstate c) (c_warping c) (c_length c).
Definition set_c_loopstart x c := mkClip (c_track c) (c_id c) (c_name c) (c_state c) (c_coarse c) (c_fine c) x (c_loopend c) (c_loopstate c) (c_warping c) (c_length c).
Definition set_c_loopend x c := mkClip (c_track c) (c_id c) (c_name c) (c_state c) (c_coarse c) (c_fine c) (c_loopstart c) x (c_loopstate c) (c_warping c) (c_length c).
Definition set_c_loopstate x c := mkClip (c_track c) (c_id c) (c_name c) (c_state c) (c_coarse c) (c_fine c) (c_loopstart c) (c_loopend c) x (c_warping c) (c_length c).
Definition set_c_warping x c := mkClip (c_track c) (c_id c) (c_name c) (c_state c) (c_coarse c) (c_fine c) (c_loopstart c) (c_loopend c) (c_loopstate c) x (c_length c).
Definition set_c_length x c := mkClip (c_track c) (c_id c) (c_name c) (c_state c) (c_coarse c) (c_fine c) (c_loopstart c) (c_loopend c) (c_loopstate c) (c_warping c) x.

Definition set_t_name x t := mkTrack (t_id t) x (t_clips t) (t_sends t) (t_devices t) (t_audio t) (t_solo t) (t_mute t) (t_arm t) (t_volume t) (t_pan t) (t_numScenes t).
Definition set_t_clips x t := mkTrack (t_id t) (t_name t) x (t_sends t) (t_devices t) (t_audio t) (t_solo t) (t_mute t) (t_arm t) (t_volume t) (t_pan t) (t_numScenes t).
Definition set_t_sends x t := mkTrack (t_id t) (t_name t) (t_clips t) x (t_devices t) (t_audio t) (t_solo t) (t_mute t) (t_arm t) (t_volume t) (t_pan t) (t_numScenes t).
Definition set_t_devices x t := mkTrack (t_id t) (t_name t) (t_clips t) (t_sends t) x (t_audio t) (t_solo t) (t_mute t) (t_arm t) (t_volume t) (t_pan t) (t_numScenes t).
Definition set_t_audio x t := mkTrack (t_id t) (t_name t) (t_clips t) (t_sends t) (t_devices t) x (t_solo t) (t_mute t) (t_arm t) (t_volume t) (t_pan t) (t_numScenes t).
Definition set_t_solo x t := mkTrack (t_id t) (t_name t) (t_clips t) (t_sends t) (t_devices t) (t_audio t) x (t_mute t) (t_arm t) (t_volume t) (t_pan t) (t_numScenes t).
Definition set_t_mute x t := mkTrack (t_id t) (t_name t) (t_clips t) (t_sends t) (t_devices t) (t_audio t) (t_solo t) x (t_arm t) (t_volume t) (t_pan t) (t_numScenes t).
Definition set_t_arm x t := mkTrack (t_id t) (t_name t) (t_clips t) (t_sends t) (t_devices t) (t_audio t) (t_solo t) (t_mute t) x (t_volume t) (t_pan t) (t_numScenes t).
Definition set_t_volume x t := mkTrack (t_id t) (t_name t) (t_clips t) (t_sends t) (t_devices t) (t_audio t) (t_solo t) (t_mute t) (t_arm t) x (t_pan t) (t_numScenes t).
Definition set_t_pan x t := mkTrack (t_id t) (t_name t) (t_clips t) (t_sends t) (t_devices t) (t_audio t) (t_solo t) (t_mute t) (t_arm t) (t_volume t) x (t_numScenes t).
Definition set_t_numScenes x t := mkTrack (t_id t) (t_name t) (t_clips t) (t_sends t) (t_devices t) (t_audio t) (t_solo t) (t_mute t) (t_arm t) (t_volume t) (t_pan t) x.

Definition set_r_name x r := mkReturn x (r_id r) (r_solo r) (r_mute r) (r_volume r) (r_pan r) (r_devices r) (r_sends r).
Definition set_r_solo x r := mkReturn (r_name r) (r_id r) x (r_mute r) (r_volume r) (r_pan r) (r_devices r) (r_sends r).
Definition set_r_mute x r := mkReturn (r_name r) (r_id r) (r_solo r) x (r_volume r) (r_pan r) (r_devices r) (r_sends r).
Definition set_r_volume x r := mkReturn (r_name r) (r_id r) (r_solo r) (r_mute r) x (r_pan r) (r_devices r) (r_sends r).
Definition set_r_pan x r := mkReturn (r_name r) (r_id r) (r_solo r) (r_mute r) (r_volume r) x (r_devices r) (r_sends r).
Definition set_r_devices x r := mkReturn (r_name r) (r_id r) (r_solo r) (r_mute r) (r_volume r) (r_pan r) x (r_sends r).
Definition set_r_sends x r := mkReturn (r_name r) (r_id r) (r_solo r) (r_mute r) (r_volume r) (r_pan r) (r_devices r) x.

Definition set_s_tempo x s := mkSong x (s_tracks s) (s_returns s) (s_devices s) (s_volume s) (s_pan s) (s_scene s) (s_beat s) (s_playing s).
Definition set_s_tracks x s := mkSong (s_tempo s) x (s_returns s) (s_devices s) (s_volume s) (s_pan s) (s_scene s) (s_beat s) (s_playing s).
Definition set_s_returns x s := mkSong (s_tempo s) (s_tracks s) x (s_devices s) (s_volume s) (s_pan s) (s_scene s) (s_beat s) (s_playing s).
Definition set_s_devices x s := mkSong (s_tempo s) (s_tracks s) (s_returns s) x (s_volume s) (s_pan s) (s_scene s) (s_beat s) (s_playing s).
Definition set_s_volume x s := mkSong (s_tempo s) (s_tracks s) (s_returns s) (s_devices s) x (s_pan s) (s_scene s) (s_beat s) (s_playing s).
Definition set_s_pan x s := mkSong (s_tempo s) (s_tracks s) (s_returns s) (s_devices s) (s_volume s) x (s_scene s) (s_beat s) (s_playing s).
Definition set_s_scene x s := mkSong (s_tempo s) (s_tracks s) (s_returns s) (s_devices s) (s_volume s) (s_pan s) x (s_beat s) (s_playing s).
Definition set_s_beat x s := mkSong (s_tempo s) (s_tracks s) (s_returns s) (s_devices s) (s_volume s) (s_pan s) (s_scene s) x (s_playing s).
Definition set_s_playing x s := mkSong (s_tempo s) (s_tracks s) (s_returns s) (s_devices s) (s_volume s) (s_pan s) (s_scene s) (s_beat s) x.

(** ** The transport and the event sinks *)

(** The listener functions each constructor defines.  A listener is one of
    them closed over the object that defined it. *)
Inductive track_fn :=
| T_sendListener | T_soloListener | T_armListener | T_muteListener
| T_volumeListener | T_panListener | T_trackinfoListener
| T_devicelistListener | T_nameListener.

Inductive return_fn :=
| R_sendListener | R_soloListener | R_muteListener | R_volumeListener
| R_panListener | R_infoListener | R_devicelistListener | R_nameListener.

Inductive clip_fn :=
| C_loopstartListener | C_loopendListener | C_loopstateListener
| C_warpingListener | C_pitchListener | C_clipinfoListener
| C_clipnameListener.

Inductive device_fn := D_rangeListener | D_allParamListener | D_paramListener.

Inductive song_fn :=
| S_playListener | S_beatListener | S_tempoListener | S_sceneListener
| S_volumeListener | S_panListener | S_tracksListener | S_returnsListener
| S_scenesListener | S_devicelistListener | S_refreshListener
| S_timeListener.

Inductive listener :=
| track_listener (f : track_fn) (self : ref)
| return_listener (f : return_fn) (self : ref)
| clip_listener (f : clip_fn) (self : ref)
| device_listener (f : device_fn) (self : ref)
| song_listener (f : song_fn).

#[global] Instance track_fn_eq_dec : EqDecision track_fn.
Proof. solve_decision. Defined.
#[global] Instance return_fn_eq_dec : EqDecision return_fn.
Proof. solve_decision. Defined.
#[global] Instance clip_fn_eq_dec : EqDecision clip_fn.
Proof. solve_decision. Defined.
#[global] Instance device_fn_eq_dec : EqDecision device_fn.
Proof. solve_decision. Defined.
#[global] Instance song_fn_eq_dec : EqDecision song_fn.
Proof. solve_decision. Defined.
#[global] Instance listener_eq_dec : EqDecision listener.
Proof. solve_decision. Defined.

(** [liveosc.receiver]: the listeners in the order they were added, each
    under its address, and the properties the listeners of a track and of a
    return assign to [this].  An event emitter calls a listener with [this]
    bound to itself, so inside a listener added to the receiver [this] is
    the receiver, and [self] is the object that added it. *)
Record Receiver := mkReceiver {
  listeners : list (string * listener);
  rx_volume : value;
  rx_pan : value;
  rx_devices : option (list ref)
}.

Definition set_listeners x r := mkReceiver x (rx_volume r) (rx_pan r) (rx_devices r).
Definition set_rx_volume x r := mkReceiver (listeners r) x (rx_pan r) (rx_devices r).
Definition set_rx_pan x r := mkReceiver (listeners r) (rx_volume r) x (rx_devices r).
Definition set_rx_devices x r := mkReceiver (listeners r) (rx_volume r) (rx_pan r) x.

(** An argument handed to [liveosc.emitter.emit]: [{type: ..., value: ...}]. *)
Inductive osctype := integer | float | string_type.

Record oscarg := mkArg { arg_type : osctype; arg_value : value }.

Record message := mkMessage { address : string; arguments : list oscarg }.

(** The parameter object of an event, a list of its properties in the order
    they were set. *)
Definition object := list (string * value).

(** The event emitters: the one of the song, which is also the song-wide
    sink, and the one of each entity. *)
Inductive emitter := song_emitter | track_emitter (r : ref) | return_emitter (r : ref)
| clip_emitter (r : ref) | device_emitter (r : ref).

(** One call of [eventEmitter.emit(name, params)].  What the callbacks a
    consumer added do is not part of the program; the model records the
    call. *)
Record event := mkEvent {
  ev_emitter : emitter;
  ev_name : string;
  ev_params : option object
}.

(** The whole of a [LiveOSC] instance. *)
Record State := mkState {
  song : Song;
  tracks : list Track;
  returns : list Return;
  clips : list Clip;
  devices : list Device;
  receiver : Receiver;
  sent : list message;
  events : list event;
  timers : list message
}.

Definition set_song x st := mkState x (tracks st) (returns st) (clips st) (devices st) (receiver st) (sent st) (events st) (timers st).
Definition set_tracks x st := mkState (song st) x (returns st) (clips st) (devices st) (receiver st) (sent st) (events st) (timers st).
Definition set_returns x st := mkState (song st) (tracks st) x (clips st) (devices st) (receiver st) (sent st) (events st) (timers st).
Definition set_clips x st := mkState (song st) (tracks st) (returns st) x (devices st) (receiver st) (sent st) (events st) (timers st).
Definition set_devices x st := mkState (song st) (tracks st) (returns st) (clips st) x (receiver st) (sent st) (events st) (timers st).
Definition set_receiver x st := mkState (song st) (tracks st) (returns st) (clips st) (devices st) x (sent st) (events st) (timers st).
Definition set_sent x st := mkState (song st) (tracks st) (returns st) (clips st) (devices st) (receiver st) x (events st) (timers st).
Definition set_events x st := mkState (song st) (tracks st) (returns st) (clips st) (devices st) (receiver st) (sent st) x (timers st).
Definition set_timers x st := mkState (song st) (tracks st) (returns st) (clips st) (devices st) (receiver st) (sent st) (events st) x.

Definition upd_song (f : Song -> Song) (st : State) : State := set_song (f (song st)) st.
Definition upd_track (r : ref) (f : Track -> Track) (st : State) : State :=
  set_tracks (alter f r (tracks st)) st.
Definition upd_return (r : ref) (f : Return -> Return) (st : State) : State :=
  set_returns (alter f r (returns st)) st.
Definition upd_clip (r : ref) (f : Clip -> Clip) (st : State) : State :=
  set_clips (alter f r (clips st)) st.
Definition upd_device (r : ref) (f : Device -> Device) (st : State) : State :=
  set_devices (alter f r (devices st)) st.
Definition upd_receiver (f : Receiver -> Receiver) (st : State) : State :=
  set_receiver (f (receiver st)) st.

(** [liveosc.emitter.emit(address, args...)] *)
Definition send (addr : string) (args : list oscarg) (st : State) : State :=
  set_sent (sent st ++ [mkMessage addr args]) st.

(** [e.emit(name, params)] on an event emitter *)
Definition emit (e : emitter) (name : string) (params : option object) (st : State) : State :=
  set_events (events st ++ [mkEvent e name params]) st.

(** [liveosc.receiver.on(addr, l)] *)
Definition on (addr : string) (l : listener) (st : State) : State :=
  upd_receiver (fun r => set_listeners (listeners r ++ [(addr, l)]) r) st.

(** Without the last occurrence of [x]. *)
Fixpoint remove_last {A} `{EqDecision A} (x : A) (l : list A) : list A :=
  match l with
  | [] => []
  | y :: l' =>
      if decide (y = x) then
        if decide (x ∈ l') then y :: remove_last x l' else l'
      else y :: remove_last x l'
  end.

(** [liveosc.receiver.removeListener(addr, l)]: of the listeners under
    [addr], the one added last that is [l] goes. *)
Definition removeListener (addr : string) (l : listener) (st : State) : State :=
  upd_receiver (fun r => set_listeners (remove_last (addr, l) (listeners r)) r) st.

(** The listeners the receiver calls for a message to [addr], in order. *)
Definition listeners_of (addr : string) (st : State) : list listener :=
  (filter (fun p => p.1 = addr) (listeners (receiver st))).*2.

(** [arguments[i]] *)
Definition arg (i : nat) (args : list value) : value := default VUndef (args !! i).

(** [a[i] = x] on an array without holes that is filled from index 0 up:
    the index is a position of the array or the next one. *)
Definition write_at {A} (i : nat) (x : A) (l : list A) : list A :=
  if decide (i < length l)%nat then <[i := x]> l else l ++ [x].

(** [_.extend(o, params)] and [o[k] = v]: an assignment to a property the
    object has replaces its value in place, to a new one it adds the
    property. *)
Fixpoint obj_set (k : string) (v : value) (o : object) : object :=
  match o with
  | [] => [(k, v)]
  | (k', v') :: o' => if decide (k' = k) then (k, v) :: o' else (k', v') :: obj_set k v o'
  end.

Definition extend (o : object) (params : option object) : object :=
  foldl (fun o kv => obj_set kv.1 kv.2 o) o (default [] params).

Definition int (v : value) : oscarg := mkArg integer v.
Definition flt (v : value) : oscarg := mkArg float v.
Definition str (v : value) : oscarg := mkArg string_type v.

(** What a call of a method or of a listener leaves: it returns, or it
    throws an [Error]. *)
Inductive outcome :=
| Returned (st : State)
| Thrown (error : string) (st : State).

(** The state a call leaves, returning or throwing. *)
Definition outcome_state (o : outcome) : State :=
  match o with
  | Returned st | Thrown _ st => st
  end.

(** The statements after a call run when it returned. *)
Definition and_then (o : outcome) (k : State -> outcome) : outcome :=
  match o with
  | Returned st => k st
  | Thrown e st => Thrown e st
  end.

(** The [Error] of an emitter for an event named [error] that has no
    callback.  Its text is the one of the version of Node; nothing below
    depends on it. *)
Definition unhandled_error : string := "Unhandled error event".

Section Program.
Context `{Runtime}.

(** ** lib/device.js *)

(** [this.track.id] of a device. *)
Definition owner_id (o : owner) (st : State) : value :=
  match o with
  | track_owner r => from_option t_id VUndef (tracks st !! r)
  | return_owner r => from_option r_id VUndef (returns st !! r)
  | song_owner => VUndef
  end.

Definition infoAddr (type : devtype) : string :=
  match type with
  | track_type => "/live/device"
  | _ => "/live/" ++ type_name type ++ "/device"
  end.

Definition rangeAddr (type : devtype) : string :=
  match type with
  | track_type => "/live/device/range"
  | _ => "/live/" ++ type_name type ++ "/device/range"
  end.

Definition paramAddr (type : devtype) : string :=
  match type with
  | track_type => "/live/device/param"
  | _ => "/live/" ++ type_name type ++ "/device/param"
  end.

Definition allParamAddr (type : devtype) : string :=
  match type with
  | track_type => "/live/device/allparam"
  | return_type => "/live/" ++ type_name type ++ "/device/allparam"
  | master_type => "/live/master/device"
  end.

(** [Device.prototype.emitEvent].  The event name of two of its calls is
    the name Live gave a parameter.  [this.eventEmitter.emit(ev, params)]
    throws when [ev] is the string [error] and the emitter has no callback
    for it; the program adds no callback to the emitter of a device, so the
    call throws, before anything is announced. *)
Definition Device_emitEvent (self : ref) (ev : value) (params : option object)
    (st : State) : outcome :=
  match devices st !! self with
  | None => Returned st
  | Some d =>
      if strict_eq ev (VStr "error") then Thrown unhandled_error st else
      let st := emit (device_emitter self) (to_string ev) params st in
      let globalParams :=
        extend [("id", d_id d); ("type", VStr (type_name (d_type d)))] params in
      let globalParams :=
        match d_type d with
        | master_type => globalParams
        | _ => obj_set "trackId" (owner_id (d_track d) st) globalParams
        end in
      Returned (emit song_emitter ("device:" ++ to_string ev) (Some globalParams) st)
  end.

(** The head of the three listeners: the identity arguments are shifted off
    [args], and the listener returns when one of them is not the device's.
    [None] is that return, [Some args] the arguments left. *)
Definition Device_shift (d : Device) (args : list value) (st : State)
    : option (list value) :=
  let after_track :=
    match d_type d with
    | master_type => Some args
    | _ => if loose_neq (arg 0 args) (owner_id (d_track d) st) then None
           else Some (tail args)
    end in
  match after_track with
  | None => None
  | Some args => if loose_neq (arg 0 args) (d_id d) then None else Some (tail args)
  end.

(** [self.params[k]], after [if (!self.params[k]) self.params[k] = {}]. *)
Definition param_at (k : value) (d : Device) : Param :=
  default empty_param (arr_get (key_of k) (d_params d)).

Definition put_param (k : value) (p : Param) (d : Device) : Device :=
  set_d_params (arr_set (key_of k) p (d_params d)) d.

Definition range_step (self : ref) (k min max : value) (st : State) : State :=
  upd_device self (fun d =>
    let param := param_at k d in
    put_param k (mkParam (p_id param) (p_value param) (p_name param) min max) d) st.

Fixpoint range_loop (self : ref) (args : list value) (st : State) : State :=
  match args with
  | [] => st
  | [k] => range_step self k VUndef VUndef st
  | [k; min] => range_step self k min VUndef st
  | k :: min :: max :: args' => range_loop self args' (range_step self k min max st)
  end.

Definition Device_rangeListener (self : ref) (args : list value) (st : State) : State :=
  match devices st !! self with
  | None => st
  | Some d =>
      match Device_shift d args st with
      | None => st
      | Some args => range_loop self args st
      end
  end.

(** [if (!self.params[k]) self.params[k] = {}]: an entry that is missing is
    there, without fields, before the events of the triple are announced. *)
Definition ensure_param (k : value) (d : Device) : Device :=
  match arr_get (key_of k) (d_params d) with
  | Some _ => d
  | None => put_param k empty_param d
  end.

(** One trip of the loop of [allParamListener].  When an [emitEvent]
    throws, the three assignments after it are not reached. *)
Definition allParam_step (self : ref) (k value name : value) (st : State) : outcome :=
  match devices st !! self with
  | None => Returned st
  | Some d =>
      let param := param_at k d in
      let st := upd_device self (ensure_param k) st in
      and_then
        (if loose_neq (p_value param) value then
           and_then
             (Device_emitEvent self (VStr "param")
                (Some [("name", name); ("value", value); ("prev", p_value param)]) st)
             (Device_emitEvent self name
                (Some [("value", value); ("prev", p_value param)]))
         else Returned st)
        (fun st =>
           Returned (upd_device self (fun d =>
             put_param k (mkParam k value name (p_min param) (p_max param)) d) st))
  end.

(** The loop of [allParamListener]: a trip that throws ends it. *)
Fixpoint allParam_loop (self : ref) (args : list value) (st : State) : outcome :=
  match args with
  | [] => Returned st
  | [k] => allParam_step self k VUndef VUndef st
  | [k; value] => allParam_step self k value VUndef st
  | k :: value :: name :: args' =>
      and_then (allParam_step self k value name st) (allParam_loop self args')
  end.

Definition Device_allParamListener (self : ref) (args : list value) (st : State)
    : outcome :=
  match devices st !! self with
  | None => Returned st
  | Some d =>
      match Device_shift d args st with
      | None => Returned st
      | Some args => allParam_loop self args st
      end
  end.

Definition Device_paramListener (self : ref) (args : list value) (st : State)
    : outcome :=
  match devices st !! self with
  | None => Returned st
  | Some d =>
      match Device_shift d args st with
      | None => Returned st
      | Some args =>
          let param := param_at (arg 0 args) d in
          let st := upd_device self (ensure_param (arg 0 args)) st in
          and_then
            (Device_emitEvent self (VStr "param")
               (Some [("name", arg 2 args); ("value", arg 1 args); ("prev", p_value param)])
               st)
            (fun st =>
          and_then
            (Device_emitEvent self (arg 2 args)
               (Some [("value", arg 1 args); ("prev", p_value param)]) st)
            (fun st =>
          Returned (upd_device self (fun d =>
            put_param (arg 0 args)
              (mkParam (arg 0 args) (arg 1 args) (arg 2 args) (p_min param) (p_max param)) d)
            st)))
      end
  end.

(** The arguments that address a device: the id of its track unless the
    device is on the master channel, then its own id. *)
Definition device_path (track : owner) (type : devtype) (id : value) (st : State)
    : list oscarg :=
  match type with
  | master_type => [int id]
  | _ => [int (owner_id track st); int id]
  end.

(** [new Device(liveosc, id, track, type, name)] *)
Definition new_Device (id : value) (track : owner) (type : devtype) (name : value)
    (st : State) : ref * State :=
  let self := length (devices st) in
  let st := set_devices (devices st ++ [mkDevice name id track type arr_empty]) st in
  let st := on (rangeAddr type) (device_listener D_rangeListener self) st in
  let st := on (allParamAddr type) (device_listener D_allParamListener self) st in
  let st := on (paramAddr type) (device_listener D_paramListener self) st in
  let st := send (infoAddr type) (device_path track type id st) st in
  let st := send (rangeAddr type) (device_path track type id st) st in
  (self, st).

(** [device.destroy()]; its event is named [destroy], and the call of
    [emitEvent] returns. *)
Definition Device_destroy (self : ref) (st : State) : State :=
  match devices st !! self with
  | None => st
  | Some d =>
      let st := outcome_state (Device_emitEvent self (VStr "destroy") None st) in
      let st := removeListener (rangeAddr (d_type d)) (device_listener D_rangeListener self) st in
      let st := removeListener (paramAddr (d_type d)) (device_listener D_paramListener self) st in
      removeListener (allParamAddr (d_type d)) (device_listener D_allParamListener self) st
  end.

(** [_.findWhere(this.params, {name: param})]: the first element of the
    array, in index order, whose [name] is [param]. *)
Fixpoint findWhere_name (l : list (option Param)) (param : value) : option Param :=
  match l with
  | [] => None
  | None :: l' => findWhere_name l' param
  | Some prm :: l' =>
      if strict_eq (p_name prm) param then Some prm else findWhere_name l' param
  end.

(** [Device.prototype.set] *)
Definition Device_set (self : ref) (param value : value) (st : State) : outcome :=
  match devices st !! self with
  | None => Returned st
  | Some d =>
      let addr := infoAddr (d_type d) in
      let args := device_path (d_track d) (d_type d) (d_id d) st in
      match param with
      | VStr name =>
          match findWhere_name (elems (d_params d)) param with
          | Some prm => Returned (send addr (args ++ [int (p_id prm); int value]) st)
          | None => Thrown ("No parameter with name " ++ name) st
          end
      | _ => Returned (send addr (args ++ [int param; int value]) st)
      end
  end.

(** [Device.prototype.view] *)
Definition Device_view (self : ref) (st : State) : State :=
  match devices st !! self with
  | None => st
  | Some d =>
      let args :=
        (match d_type d with
         | master_type => []
         | _ => [int (d_id d)]
         end ++ [int (d_id d)])%list in
      send ("/live/" ++ type_name (d_type d) ++ "/device/view") args st
  end.

(** ** lib/clip.js *)

(** [this.track.id] and [this.track.audio] of a clip. *)
Definition track_id (track : ref) (st : State) : value :=
  from_option t_id VUndef (tracks st !! track).

Definition track_audio (track : ref) (st : State) : value :=
  from_option t_audio VUndef (tracks st !! track).

(** [Clip.prototype.emitEvent] *)
Definition Clip_emitEvent (self : ref) (ev : string) (params : option object)
    (st : State) : State :=
  match clips st !! self with
  | None => st
  | Some c =>
      let st := emit (clip_emitter self) ev params st in
      emit song_emitter ("clip:" ++ ev)
        (Some (extend [("id", c_id c); ("trackId", track_id (c_track c) st)] params)) st
  end.

(** [Clip.prototype.refresh] *)
Definition Clip_refresh (self : ref) (st : State) : State :=
  match clips st !! self with
  | None => st
  | Some c =>
      let trackArg := int (track_id (c_track c) st) in
      let clipArg := int (c_id c) in
      let st := send "/live/clip/loopstart" [trackArg; clipArg] st in
      let st := send "/live/clip/loopend" [trackArg; clipArg] st in
      let st := send "/live/clip/loopstate" [trackArg; clipArg] st in
      let st :=
        if truthy (track_audio (c_track c) st) then
          let st := send "/live/clip/warping" [trackArg; clipArg] st in
          send "/live/pitch" [trackArg; clipArg] st
        else st in
      if strict_eq (c_name c) (VBool false) then
        send "/live/name/clip" [trackArg; clipArg] st
      else st
  end.

(** The two tests that open every listener of a clip; [true] is a return. *)
Definition Clip_not_mine (c : Clip) (trackId clipId : value) (st : State) : bool :=
  loose_neq (track_id (c_track c) st) trackId || loose_neq (c_id c) clipId.

Definition Clip_loopstartListener (self : ref) (args : list value) (st : State) : State :=
  let trackId := arg 0 args in let clipId := arg 1 args in let loopstart := arg 2 args in
  match clips st !! self with
  | None => st
  | Some c =>
      if Clip_not_mine c trackId clipId st then st else
      let st := Clip_emitEvent self "loopstart"
        (Some [("value", loopstart); ("prev", c_loopstart c)]) st in
      upd_clip self (set_c_loopstart loopstart) st
  end.

Definition Clip_loopendListener (self : ref) (args : list value) (st : State) : State :=
  let trackId := arg 0 args in let clipId := arg 1 args in let loopend := arg 2 args in
  match clips st !! self with
  | None => st
  | Some c =>
      if Clip_not_mine c trackId clipId st then st else
      let st := Clip_emitEvent self "loopend"
        (Some [("value", loopend); ("prev", c_loopend c)]) st in
      upd_clip self (set_c_loopend loopend) st
  end.

Definition Clip_loopstateListener (self : ref) (args : list value) (st : State) : State :=
  let trackId := arg 0 args in let clipId := arg 1 args in let loopstate := arg 2 args in
  match clips st !! self with
  | None => st
  | Some c =>
      if Clip_not_mine c trackId clipId st then st else
      let st := Clip_emitEvent self "loopstate"
        (Some [("value", loopstate); ("prev", c_loopstate c)]) st in
      upd_clip self (set_c_loopstate loopstate) st
  end.

Definition Clip_warpingListener (self : ref) (args : list value) (st : State) : State :=
  let trackId := arg 0 args in let clipId := arg 1 args in let warping := arg 2 args in
  match clips st !! self with
  | None => st
  | Some c =>
      if Clip_not_mine c trackId clipId st then st else
      let st := Clip_emitEvent self "warping"
        (Some [("value", warping); ("prev", c_warping c)]) st in
      upd_clip self (set_c_warping warping) st
  end.

Definition Clip_pitchListener (self : ref) (args : list value) (st : State) : State :=
  let trackId := arg 0 args in let clipId := arg 1 args in
  let coarse := arg 2 args in let fine := arg 3 args in
  match clips st !! self with
  | None => st
  | Some c =>
      if Clip_not_mine c trackId clipId st then st else
      let st := Clip_emitEvent self "coarse"
        (Some [("value", coarse); ("prev", c_coarse c)]) st in
      let st := Clip_emitEvent self "fine"
        (Some [("value", fine); ("prev", c_fine c)]) st in
      let st := upd_clip self (set_c_coarse (if truthy coarse then coarse else num 0)) st in
      upd_clip self (set_c_fine (if truthy fine then fine else num 0)) st
  end.

Definition Clip_clipinfoListener (self : ref) (args : list value) (st : State) : State :=
  let trackId := arg 0 args in let clipId := arg 1 args in
  let state := arg 2 args in let length := arg 3 args in
  match clips st !! self with
  | None => st
  | Some c =>
      if Clip_not_mine c trackId clipId st then st else
      let st := Clip_emitEvent self "state"
        (Some [("value", state); ("prev", c_state c)]) st in
      let st := upd_clip self (set_c_state state) st in
      let st := upd_clip self (set_c_length length) st in
      if gt_zero state then Clip_refresh self st
      else upd_clip self (set_c_name (VStr "")) st
  end.

Definition Clip_clipnameListener (self : ref) (args : list value) (st : State) : State :=
  let trackId := arg 0 args in let clipId := arg 1 args in let name := arg 2 args in
  match clips st !! self with
  | None => st
  | Some c =>
      if Clip_not_mine c trackId clipId st then st else
      let st := Clip_emitEvent self "name"
        (Some [("value", name); ("prev", c_name c)]) st in
      let st := upd_clip self (set_c_name name) st in
      let trackArg := int (track_id (c_track c) st) in
      let clipArg := int (c_id c) in
      send "/live/clip/info" [trackArg; clipArg] st
  end.

(** [new Clip(liveosc, track, id)] *)
Definition new_Clip (track : ref) (id : value) (st : State) : ref * State :=
  let self := length (clips st) in
  let st := set_clips (clips st ++
    [mkClip track id (VBool false) (num 0) (num 0) (num 0) (num 0) (num 0)
       (num 0) (num 0) (num 0)]) st in
  let st := on "/live/clip/loopstart" (clip_listener C_loopstartListener self) st in
  let st := on "/live/clip/loopend" (clip_listener C_loopendListener self) st in
  let st := on "/live/clip/loopstate" (clip_listener C_loopstateListener self) st in
  let st := on "/live/clip/warping" (clip_listener C_warpingListener self) st in
  let st := on "/live/pitch" (clip_listener C_pitchListener self) st in
  let st := on "/live/clip/info" (clip_listener C_clipinfoListener self) st in
  let st := on "/live/name/clip" (clip_listener C_clipnameListener self) st in
  (self, st).

(** [clip.destroy()] *)
Definition Clip_destroy (self : ref) (st : State) : State :=
  let st := emit (clip_emitter self) "destroy" None st in
  let st := removeListener "/live/clip/loopstart" (clip_listener C_loopstartListener self) st in
  let st := removeListener "/live/clip/loopend" (clip_listener C_loopendListener self) st in
  let st := removeListener "/live/clip/loopstate" (clip_listener C_loopstateListener self) st in
  let st := removeListener "/live/clip/warping" (clip_listener C_warpingListener self) st in
  let st := removeListener "/live/pitch" (clip_listener C_pitchListener self) st in
  let st := removeListener "/live/clip/info" (clip_listener C_clipinfoListener self) st in
  removeListener "/live/name/clip" (clip_listener C_clipnameListener self) st.

Definition clip_path (c : Clip) (st : State) : list oscarg :=
  [int (track_id (c_track c) st); int (c_id c)].

(** [Clip.prototype.play], [stop], [setName], ... *)
Definition Clip_play (self : ref) (st : State) : State :=
  match clips st !! self with
  | None => st
  | Some c => send "/live/play/clipslot" (clip_path c st) st
  end.

Definition Clip_stop (self : ref) (st : State) : State :=
  match clips st !! self with
  | None => st
  | Some c => send "/live/stop/clip" (clip_path c st) st
  end.

Definition Clip_setName (self : ref) (name : value) (st : State) : State :=
  match clips st !! self with
  | None => st
  | Some c => send "/live/name/clip" (clip_path c st ++ [str name]) st
  end.

Definition Clip_setPitch (self : ref) (coarse fine : value) (st : State) : State :=
  match clips st !! self with
  | None => st
  | Some c =>
      if negb (truthy (track_audio (c_track c) st)) then st else
      send "/live/pitch"
        (clip_path c st ++ [int coarse; int (if truthy fine then fine else num 0)]) st
  end.

Definition Clip_setLoopstart (self : ref) (loopstart : value) (st : State) : State :=
  match clips st !! self with
  | None => st
  | Some c => send "/live/clip/loopstart" (clip_path c st ++ [int loopstart]) st
  end.

Definition Clip_setLoopend (self : ref) (loopend : value) (st : State) : State :=
  match clips st !! self with
  | None => st
  | Some c => send "/live/clip/loopend" (clip_path c st ++ [int loopend]) st
  end.

Definition Clip_setLoopstate (self : ref) (loopstate : value) (st : State) : State :=
  match clips st !! self with
  | None => st
  | Some c => send "/live/clip/loopstate" (clip_path c st ++ [int loopstate]) st
  end.

Definition Clip_setWarping (self : ref) (warping : value) (st : State) : State :=
  match clips st !! self with
  | None => st
  | Some c => send "/live/clip/warping" (clip_path c st ++ [int warping]) st
  end.

Definition Clip_view (self : ref) (st : State) : State :=
  match clips st !! self with
  | None => st
  | Some c => send "/live/clip/view" [int (c_id c)] st
  end.

(** ** lib/track.js *)

(** [Track.prototype.emitEvent] *)
Definition Track_emitEvent (self : ref) (ev : string) (params : option object)
    (st : State) : State :=
  match tracks st !! self with
  | None => st
  | Some t =>
      let st := emit (track_emitter self) ev params st in
      emit song_emitter ("track:" ++ ev) (Some (extend [("id", t_id t)] params)) st
  end.

(** [Track.prototype.setNumScenes] *)
Definition Track_setNumScenes (self : ref) (numScenes : value) (st : State) : State :=
  upd_track self (set_t_numScenes numScenes) st.

(** [Track.prototype.refreshClips] *)
Definition Track_refreshClips (self : ref) (st : State) : State :=
  match tracks st !! self with
  | None => st
  | Some t =>
      let st := foldl (fun st clip => Clip_destroy clip st) st (t_clips t) in
      let st := upd_track self (set_t_clips []) st in
      foldl (fun st i =>
          let '(clip, st) := new_Clip self (num i) st in
          let st := upd_track self (fun t => set_t_clips (write_at i clip (t_clips t)) t) st in
          send "/live/clip/info" [int (t_id t); int (num i)] st)
        st (seq 0 (loop_bound (t_numScenes t)))
  end.

(** [self.sends[sendNum]] *)
Definition send_at (sendNum : value) (sends : jsarray value) : value :=
  default VUndef (arr_get (key_of sendNum) sends).

Definition Track_send_step (self : ref) (sendNum sendVal : value) (st : State) : State :=
  match tracks st !! self with
  | None => st
  | Some t =>
      let st := Track_emitEvent self "send"
        (Some [("num", sendNum); ("value", sendVal); ("prev", send_at sendNum (t_sends t))]) st in
      upd_track self (fun t => set_t_sends (arr_set (key_of sendNum) sendVal (t_sends t)) t) st
  end.

Fixpoint Track_send_loop (self : ref) (args : list value) (st : State) : State :=
  match args with
  | [] => st
  | [sendNum] => Track_send_step self sendNum VUndef st
  | sendNum :: sendVal :: args' =>
      Track_send_loop self args' (Track_send_step self sendNum sendVal st)
  end.

(** The listener tests its first argument against the [id] the constructor
    was given, which is what [self.id] holds. *)
Definition Track_sendListener (self : ref) (args : list value) (st : State) : State :=
  let trackId := arg 0 args in
  match tracks st !! self with
  | None => st
  | Some t =>
      if loose_neq trackId (t_id t) then st else
      Track_send_loop self (tail args) st
  end.

Definition Track_soloListener (self : ref) (args : list value) (st : State) : State :=
  let trackId := arg 0 args in let solo := arg 1 args in
  match tracks st !! self with
  | None => st
  | Some t =>
      if loose_neq trackId (t_id t) then st else
      let st := Track_emitEvent self "solo" (Some [("value", solo); ("prev", t_solo t)]) st in
      upd_track self (set_t_solo solo) st
  end.

Definition Track_armListener (self : ref) (args : list value) (st : State) : State :=
  let trackId := arg 0 args in let arm := arg 1 args in
  match tracks st !! self with
  | None => st
  | Some t =>
      if loose_neq trackId (t_id t) then st else
      let st := Track_emitEvent self "arm" (Some [("value", arm); ("prev", t_arm t)]) st in
      upd_track self (set_t_arm arm) st
  end.

Definition Track_muteListener (self : ref) (args : list value) (st : State) : State :=
  let trackId := arg 0 args in let mute := arg 1 args in
  match tracks st !! self with
  | None => st
  | Some t =>
      if loose_neq trackId (t_id t) then st else
      let st := Track_emitEvent self "mute" (Some [("value", mute); ("prev", t_mute t)]) st in
      upd_track self (set_t_mute mute) st
  end.

Definition Track_volumeListener (self : ref) (args : list value) (st : State) : State :=
  let trackId := arg 0 args in let volume := arg 1 args in
  match tracks st !! self with
  | None => st
  | Some t =>
      if loose_neq trackId (t_id t) then st else
      let st := Track_emitEvent self "volume" (Some [("value", volume); ("prev", t_volume t)]) st in
      upd_track self (set_t_volume volume) st
  end.

Definition Track_panListener (self : ref) (args : list value) (st : State) : State :=
  let trackId := arg 0 args in let pan := arg 1 args in
  match tracks st !! self with
  | None => st
  | Some t =>
      if loose_neq trackId (t_id t) then st else
      let st := Track_emitEvent self "pan" (Some [("value", pan); ("prev", t_pan t)]) st in
      upd_track self (set_t_pan pan) st
  end.

(** [prev: self.arm] of an event here is read from [self] where the
    listener has it, after the assignments. *)
Definition Track_prev (self : ref) (field : Track -> value) (st : State) : value :=
  from_option field VUndef (tracks st !! self).

Definition Track_trackinfoListener (self : ref) (args : list value) (st : State) : State :=
  let trackId := arg 0 args in let arm := arg 1 args in let solo := arg 2 args in
  let mute := arg 3 args in let audio := arg 4 args in let volume := arg 5 args in
  let pan := arg 6 args in
  match tracks st !! self with
  | None => st
  | Some t =>
      if loose_neq trackId (t_id t) then st else
      let st := upd_track self (set_t_arm arm) st in
      let st := upd_track self (set_t_solo solo) st in
      let st := upd_track self (set_t_mute mute) st in
      let st := upd_track self (set_t_audio audio) st in
      let st := upd_receiver (set_rx_volume volume) st in
      let st := upd_receiver (set_rx_pan pan) st in
      let st := Track_emitEvent self "arm"
        (Some [("value", arm); ("prev", Track_prev self t_arm st)]) st in
      let st := Track_emitEvent self "solo"
        (Some [("value", solo); ("prev", Track_prev self t_solo st)]) st in
      let st := Track_emitEvent self "mute"
        (Some [("value", mute); ("prev", Track_prev self t_mute st)]) st in
      let st := Track_emitEvent self "volume"
        (Some [("value", volume); ("prev", Track_prev self t_volume st)]) st in
      let st := Track_emitEvent self "pan"
        (Some [("value", pan); ("prev", Track_prev self t_pan st)]) st in
      Track_refreshClips self st
  end.

Definition Track_devicelist_step (self : ref) (deviceId deviceName : value) (st : State)
    : State :=
  let '(device, st) := new_Device deviceId (track_owner self) track_type deviceName st in
  upd_track self (fun t => set_t_devices (t_devices t ++ [device]) t) st.

Fixpoint Track_devicelist_loop (self : ref) (args : list value) (st : State) : State :=
  match args with
  | [] => st
  | [deviceId] => Track_devicelist_step self deviceId VUndef st
  | deviceId :: deviceName :: args' =>
      Track_devicelist_loop self args' (Track_devicelist_step self deviceId deviceName st)
  end.

(** The devices destroyed and the array emptied are those of [this]. *)
Definition Track_devicelistListener (self : ref) (args : list value) (st : State) : State :=
  let trackId := arg 0 args in
  let args := tail args in
  match tracks st !! self with
  | None => st
  | Some t =>
      if loose_neq trackId (t_id t) then st else
      let st := foldl (fun st device => Device_destroy device st) st
        (default [] (rx_devices (receiver st))) in
      let st := upd_receiver (set_rx_devices (Some [])) st in
      Track_devicelist_loop self args st
  end.

Definition Track_nameListener (self : ref) (args : list value) (st : State) : State :=
  let trackId := arg 0 args in let name := arg 1 args in
  match tracks st !! self with
  | None => st
  | Some t =>
      if loose_neq trackId (t_id t) then st else
      let st := Track_emitEvent self "name" (Some [("value", name); ("prev", t_name t)]) st in
      let st := upd_track self (set_t_name name) st in
      let st := send "/live/scenes" [] st in
      let st := foldl (fun st device => Device_destroy device st) st (t_devices t) in
      let st := upd_track self (set_t_devices []) st in
      let st := send "/live/track/info" [int (t_id t)] st in
      send "/live/devicelist" [int (t_id t)] st
  end.

(** [new Track(liveosc, id)] *)
Definition new_Track (id : value) (st : State) : ref * State :=
  let self := length (tracks st) in
  let st := set_tracks (tracks st ++
    [mkTrack id (VStr "") [] arr_empty [] (num 0) (num 0) (num 0) (num 0) (num 0)
       (num 0) (num 0)]) st in
  let st := on "/live/send" (track_listener T_sendListener self) st in
  let st := on "/live/solo" (track_listener T_soloListener self) st in
  let st := on "/live/arm" (track_listener T_armListener self) st in
  let st := on "/live/mute" (track_listener T_muteListener self) st in
  let st := on "/live/pan" (track_listener T_panListener self) st in
  let st := on "/live/volume" (track_listener T_volumeListener self) st in
  let st := on "/live/track/info" (track_listener T_trackinfoListener self) st in
  let st := on "/live/devicelist" (track_listener T_devicelistListener self) st in
  let st := on "/live/name/track" (track_listener T_nameListener self) st in
  let st := send "/live/name/track" [int id] st in
  let st := send "/live/send" [int id] st in
  (self, st).

(** [track.destroy()] *)
Definition Track_destroy (self : ref) (st : State) : State :=
  let st := emit (track_emitter self) "destroy" None st in
  let st := removeListener "/live/send" (track_listener T_sendListener self) st in
  let st := removeListener "/live/solo" (track_listener T_soloListener self) st in
  let st := removeListener "/live/arm" (track_listener T_armListener self) st in
  let st := removeListener "/live/mute" (track_listener T_muteListener self) st in
  let st := removeListener "/live/pan" (track_listener T_panListener self) st in
  let st := removeListener "/live/volume" (track_listener T_volumeListener self) st in
  let st := removeListener "/live/track/info" (track_listener T_trackinfoListener self) st in
  let st := removeListener "/live/devicelist" (track_listener T_devicelistListener self) st in
  let st := removeListener "/live/name/track" (track_listener T_nameListener self) st in
  let st := foldl (fun st clip => Clip_destroy clip st) st
    (from_option t_clips [] (tracks st !! self)) in
  let st := upd_track self (set_t_clips []) st in
  let st := foldl (fun st device => Device_destroy device st) st
    (from_option t_devices [] (tracks st !! self)) in
  upd_track self (set_t_devices []) st.

(** [Track.prototype.setName], [setArm], ... *)
Definition Track_setName (self : ref) (name : value) (st : State) : State :=
  send "/live/name/track" [int (track_id self st); str name] st.

Definition Track_setArm (self : ref) (arm : value) (st : State) : State :=
  send "/live/arm" [int (track_id self st); int arm] st.

Definition Track_setSolo (self : ref) (solo : value) (st : State) : State :=
  send "/live/solo" [int (track_id self st); int solo] st.

Definition Track_setMute (self : ref) (mute : value) (st : State) : State :=
  send "/live/mute" [int (track_id self st); int mute] st.

Definition Track_setVolume (self : ref) (volume : value) (st : State) : State :=
  send "/live/volume" [int (track_id self st); flt volume] st.

Definition Track_setPan (self : ref) (pan : value) (st : State) : State :=
  send "/live/pan" [int (track_id self st); flt pan] st.

Definition Track_setSend (self : ref) (send_ val : value) (st : State) : State :=
  send "/live/send" [int (track_id self st); int send_; flt val] st.

Definition Track_view (self : ref) (st : State) : State :=
  send "/live/track/view" [int (track_id self st)] st.

(** ** lib/return.js *)

(** [Return.prototype.emitEvent] *)
Definition Return_emitEvent (self : ref) (ev : string) (params : option object)
    (st : State) : State :=
  match returns st !! self with
  | None => st
  | Some r =>
      let st := emit (return_emitter self) ev params st in
      emit song_emitter ("return:" ++ ev) (Some (extend [("id", r_id r)] params)) st
  end.

Definition return_id (self : ref) (st : State) : value :=
  from_option r_id VUndef (returns st !! self).

Definition Return_send_step (self : ref) (sendNum sendVal : value) (st : State) : State :=
  match returns st !! self with
  | None => st
  | Some r =>
      let st := Return_emitEvent self "send"
        (Some [("num", sendNum); ("value", sendVal); ("prev", send_at sendNum (r_sends r))]) st in
      upd_return self (fun r => set_r_sends (arr_set (key_of sendNum) sendVal (r_sends r)) r) st
  end.

Fixpoint Return_send_loop (self : ref) (args : list value) (st : State) : State :=
  match args with
  | [] => st
  | [sendNum] => Return_send_step self sendNum VUndef st
  | sendNum :: sendVal :: args' =>
      Return_send_loop self args' (Return_send_step self sendNum sendVal st)
  end.

Definition Return_sendListener (self : ref) (args : list value) (st : State) : State :=
  let trackId := arg 0 args in
  match returns st !! self with
  | None => st
  | Some r =>
      if loose_neq trackId (r_id r) then st else
      Return_send_loop self (tail args) st
  end.

Definition Return_soloListener (self : ref) (args : list value) (st : State) : State :=
  let trackId := arg 0 args in let solo := arg 1 args in
  match returns st !! self with
  | None => st
  | Some r =>
      if loose_neq trackId (r_id r) then st else
      let st := Return_emitEvent self "solo" (Some [("value", solo); ("prev", r_solo r)]) st in
      upd_return self (set_r_solo solo) st
  end.

Definition Return_muteListener (self : ref) (args : list value) (st : State) : State :=
  let trackId := arg 0 args in let mute := arg 1 args in
  match returns st !! self with
  | None => st
  | Some r =>
      if loose_neq trackId (r_id r) then st else
      let st := Return_emitEvent self "mute" (Some [("value", mute); ("prev", r_mute r)]) st in
      upd_return self (set_r_mute mute) st
  end.

(** [prev: self.volume], read from [self] where the listener has it. *)
Definition Return_prev (self : ref) (field : Return -> value) (st : State) : value :=
  from_option field VUndef (returns st !! self).

Definition Return_volumeListener (self : ref) (args : list value) (st : State) : State :=
  let trackId := arg 0 args in let volume := arg 1 args in
  match returns st !! self with
  | None => st
  | Some r =>
      if loose_neq trackId (r_id r) then st else
      let st := upd_return self (set_r_volume volume) st in
      Return_emitEvent self "volume"
        (Some [("value", volume); ("prev", Return_prev self r_volume st)]) st
  end.

Definition Return_panListener (self : ref) (args : list value) (st : State) : State :=
  let trackId := arg 0 args in let pan := arg 1 args in
  match returns st !! self with
  | None => st
  | Some r =>
      if loose_neq trackId (r_id r) then st else
      let st := upd_return self (set_r_pan pan) st in
      Return_emitEvent self "pan"
        (Some [("value", pan); ("prev", Return_prev self r_pan st)]) st
  end.

Definition Return_infoListener (self : ref) (args : list value) (st : State) : State :=
  let trackId := arg 0 args in let solo := arg 1 args in let mute := arg 2 args in
  let volume := arg 3 args in let pan := arg 4 args in
  match returns st !! self with
  | None => st
  | Some r =>
      if loose_neq trackId (r_id r) then st else
      let st := upd_return self (set_r_solo solo) st in
      let st := upd_return self (set_r_mute mute) st in
      let st := upd_receiver (set_rx_volume volume) st in
      let st := upd_receiver (set_rx_pan pan) st in
      let st := Return_emitEvent self "solo"
        (Some [("value", solo); ("prev", Return_prev self r_solo st)]) st in
      let st := Return_emitEvent self "mute"
        (Some [("value", mute); ("prev", Return_prev self r_mute st)]) st in
      let st := Return_emitEvent self "volume"
        (Some [("value", volume); ("prev", Return_prev self r_volume st)]) st in
      Return_emitEvent self "pan"
        (Some [("value", pan); ("prev", Return_prev self r_pan st)]) st
  end.

Definition Return_devicelist_step (self : ref) (deviceId deviceName : value) (st : State)
    : State :=
  let '(device, st) := new_Device deviceId (return_owner self) return_type deviceName st in
  upd_return self (fun r => set_r_devices (r_devices r ++ [device]) r) st.

Fixpoint Return_devicelist_loop (self : ref) (args : list value) (st : State) : State :=
  match args with
  | [] => st
  | [deviceId] => Return_devicelist_step self deviceId VUndef st
  | deviceId :: deviceName :: args' =>
      Return_devicelist_loop self args' (Return_devicelist_step self deviceId deviceName st)
  end.

Definition Return_devicelistListener (self : ref) (args : list value) (st : State) : State :=
  let trackId := arg 0 args in
  let args := tail args in
  match returns st !! self with
  | None => st
  | Some r =>
      if loose_neq trackId (r_id r) then st else
      Return_devicelist_loop self args st
  end.

Definition Return_nameListener (self : ref) (args : list value) (st : State) : State :=
  let trackId := arg 0 args in let name := arg 1 args in
  match returns st !! self with
  | None => st
  | Some r =>
      if loose_neq trackId (r_id r) then st else
      let st := Return_emitEvent self "name" (Some [("value", name); ("prev", r_name r)]) st in
      let st := upd_return self (set_r_name name) st in
      let st := send "/live/scenes" [] st in
      let st := foldl (fun st device => Device_destroy device st) st (r_devices r) in
      let st := upd_return self (set_r_devices []) st in
      let st := send "/live/return/info" [int (r_id r)] st in
      send "/live/return/devicelist" [int (r_id r)] st
  end.

(** [new Return(liveosc, id)] *)
Definition new_Return (id : value) (st : State) : ref * State :=
  let self := length (returns st) in
  let st := set_returns (returns st ++
    [mkReturn (VStr "") id (num 0) (num 0) (num 0) (num 0) [] arr_empty]) st in
  let st := on "/live/return/send" (return_listener R_sendListener self) st in
  let st := on "/live/return/solo" (return_listener R_soloListener self) st in
  let st := on "/live/return/mute" (return_listener R_muteListener self) st in
  let st := on "/live/return/volume" (return_listener R_volumeListener self) st in
  let st := on "/live/return/pan" (return_listener R_panListener self) st in
  let st := on "/live/return/info" (return_listener R_infoListener self) st in
  let st := on "/live/return/devicelist" (return_listener R_devicelistListener self) st in
  let st := on "/live/name/return" (return_listener R_nameListener self) st in
  let st := send "/live/return/send" [int id] st in
  let st := send "/live/name/return" [int id] st in
  (self, st).

(** [ret.destroy()] *)
Definition Return_destroy (self : ref) (st : State) : State :=
  let st := emit (return_emitter self) "destroy" None st in
  let st := removeListener "/live/return/send" (return_listener R_sendListener self) st in
  let st := removeListener "/live/return/solo" (return_listener R_soloListener self) st in
  let st := removeListener "/live/return/mute" (return_listener R_muteListener self) st in
  let st := removeListener "/live/return/volume" (return_listener R_volumeListener self) st in
  let st := removeListener "/live/return/pan" (return_listener R_panListener self) st in
  let st := removeListener "/live/return/info" (return_listener R_infoListener self) st in
  let st := removeListener "/live/return/devlicelist" (return_listener R_devicelistListener self) st in
  let st := removeListener "/live/name/return" (return_listener R_nameListener self) st in
  let st := foldl (fun st device => Device_destroy device st) st
    (from_option r_devices [] (returns st !! self)) in
  upd_return self (set_r_devices []) st.

(** [Return.prototype.setName], [setSolo], ... *)
Definition Return_setName (self : ref) (name : value) (st : State) : State :=
  send "/live/name/return" [int (return_id self st); str name] st.

Definition Return_setSolo (self : ref) (solo : value) (st : State) : State :=
  send "/live/return/solo" [int (return_id self st); int solo] st.

Definition Return_setMute (self : ref) (mute : value) (st : State) : State :=
  send "/live/return/mute" [int (return_id self st); int mute] st.

Definition Return_setVolume (self : ref) (volume : value) (st : State) : State :=
  send "/live/return/volume" [int (return_id self st); flt volume] st.

Definition Return_setPan (self : ref) (pan : value) (st : State) : State :=
  send "/live/return/pan" [int (return_id self st); flt pan] st.

Definition Return_setSend (self : ref) (send_ val : value) (st : State) : State :=
  send "/live/return/send" [int (return_id self st); int send_; flt val] st.

Definition Return_view (self : ref) (st : State) : State :=
  send "/live/return/view" [int (return_id self st)] st.

(** ** lib/song.js *)

Definition Song_playListener (args : list value) (st : State) : State :=
  let playing := arg 0 args in
  let st := emit song_emitter "play"
    (Some [("value", playing); ("prev", s_playing (song st))]) st in
  upd_song (set_s_playing playing) st.

Definition Song_beatListener (args : list value) (st : State) : State :=
  let beat := arg 0 args in
  let st := emit song_emitter "beat"
    (Some [("value", beat); ("prev", s_beat (song st))]) st in
  upd_song (set_s_beat beat) st.

Definition Song_tempoListener (args : list value) (st : State) : State :=
  let tempo := arg 0 args in
  let st := emit song_emitter "tempo"
    (Some [("value", tempo); ("prev", s_tempo (song st))]) st in
  upd_song (set_s_tempo tempo) st.

Definition Song_sceneListener (args : list value) (st : State) : State :=
  let scene := arg 0 args in
  let st := emit song_emitter "scene"
    (Some [("value", scene); ("prev", s_scene (song st))]) st in
  upd_song (set_s_scene scene) st.

Definition Song_volumeListener (args : list value) (st : State) : State :=
  let volume := arg 0 args in
  let st := emit song_emitter "volume"
    (Some [("value", volume); ("prev", s_volume (song st))]) st in
  upd_song (set_s_volume volume) st.

Definition Song_panListener (args : list value) (st : State) : State :=
  let pan := arg 0 args in
  let st := emit song_emitter "pan"
    (Some [("value", pan); ("prev", s_pan (song st))]) st in
  upd_song (set_s_pan pan) st.

Definition Song_tracksListener (args : list value) (st : State) : State :=
  let numTracks := arg 0 args in
  let st := foldl (fun st i =>
      let '(track, st) := new_Track (num i) st in
      upd_song (fun s => set_s_tracks (write_at i track (s_tracks s)) s) st)
    st (seq 0 (loop_bound numTracks)) in
  send "/live/scenes" [] st.

Definition Song_returnsListener (args : list value) (st : State) : State :=
  let numTracks := arg 0 args in
  foldl (fun st i =>
      let '(ret, st) := new_Return (num i) st in
      upd_song (fun s => set_s_returns (write_at i ret (s_returns s)) s) st)
    st (seq 0 (loop_bound numTracks)).

Definition Song_scenesListener (args : list value) (st : State) : State :=
  let numScenes := arg 0 args in
  foldl (fun st track =>
      let st := Track_setNumScenes track numScenes st in
      Track_refreshClips track st)
    st (s_tracks (song st)).

Definition Song_devicelist_step (deviceId deviceName : value) (st : State) : State :=
  let '(device, st) := new_Device deviceId song_owner master_type deviceName st in
  upd_song (fun s => set_s_devices (s_devices s ++ [device]) s) st.

Fixpoint Song_devicelist_loop (args : list value) (st : State) : State :=
  match args with
  | [] => st
  | [deviceId] => Song_devicelist_step deviceId VUndef st
  | deviceId :: deviceName :: args' =>
      Song_devicelist_loop args' (Song_devicelist_step deviceId deviceName st)
  end.

Definition Song_devicelistListener (args : list value) (st : State) : State :=
  Song_devicelist_loop args st.

(** [Song.prototype.refresh]; the call of [setTimeout] leaves the message
    its callback will send among the timers. *)
Definition Song_refresh (st : State) : State :=
  let st := emit song_emitter "refresh" None st in
  let st := foldl (fun st track => Track_destroy track st) st (s_tracks (song st)) in
  let st := upd_song (set_s_tracks []) st in
  let st := foldl (fun st ret => Return_destroy ret st) st (s_returns (song st)) in
  let st := upd_song (set_s_returns []) st in
  let st := foldl (fun st device => Device_destroy device st) st (s_devices (song st)) in
  let st := upd_song (set_s_devices []) st in
  let st := send "/live/tracks" [] st in
  let st := send "/live/returns" [] st in
  let st := send "/live/master/volume" [] st in
  let st := send "/live/master/pan" [] st in
  let st := send "/live/tempo" [] st in
  let st := send "/live/master/devicelist" [] st in
  set_timers (timers st ++ [mkMessage "/live/time" []]) st.

Definition Song_refreshListener (args : list value) (st : State) : State :=
  Song_refresh st.

Definition Song_timeListener (args : list value) (st : State) : State :=
  emit song_emitter "ready" None st.

(** [Song.prototype.stop], [play], ... *)
Definition Song_stop (st : State) : State := send "/live/stop" [] st.
Definition Song_play (st : State) : State := send "/live/play" [] st.
Definition Song_continue (st : State) : State := send "/live/play/continue" [] st.
Definition Song_nextCue (st : State) : State := send "/live/next/cue" [] st.
Definition Song_prevCue (st : State) : State := send "/live/prev/cue" [] st.
Definition Song_undo (st : State) : State := send "/live/undo" [] st.
Definition Song_redo (st : State) : State := send "/live/redo" [] st.
Definition Song_view (st : State) : State := send "/live/master/view" [] st.
Definition Song_playScene (scene : value) (st : State) : State :=
  send "/live/scene" [int scene] st.
Definition Song_setVolume (volume : value) (st : State) : State :=
  send "/live/master/volume" [flt volume] st.
Definition Song_setPan (pan : value) (st : State) : State :=
  send "/live/master/pan" [flt pan] st.
Definition Song_setTempo (tempo : value) (st : State) : State :=
  send "/live/tempo" [flt tempo] st.

(** The initial values of [new Song(liveosc)], before it adds its listeners. *)
Definition Song_fields : Song :=
  mkSong (VNum 120) [] [] [] (num 0) (num 0) (num 0) (num 0) (num 1).

(** ** The receiver at work *)

(** The call of one listener with the arguments of a message.  The two
    listeners of a device that announce a parameter under its name can
    throw; every other listener returns. *)
Definition call_outcome (l : listener) (args : list value) (st : State) : outcome :=
  match l with
  | track_listener f self =>
      Returned
        match f with
        | T_sendListener => Track_sendListener self args st
        | T_soloListener => Track_soloListener self args st
        | T_armListener => Track_armListener self args st
        | T_muteListener => Track_muteListener self args st
        | T_volumeListener => Track_volumeListener self args st
        | T_panListener => Track_panListener self args st
        | T_trackinfoListener => Track_trackinfoListener self args st
        | T_devicelistListener => Track_devicelistListener self args st
        | T_nameListener => Track_nameListener self args st
        end
  | return_listener f self =>
      Returned
        match f with
        | R_sendListener => Return_sendListener self args st
        | R_soloListener => Return_soloListener self args st
        | R_muteListener => Return_muteListener self args st
        | R_volumeListener => Return_volumeListener self args st
        | R_panListener => Return_panListener self args st
        | R_infoListener => Return_infoListener self args st
        | R_devicelistListener => Return_devicelistListener self args st
        | R_nameListener => Return_nameListener self args st
        end
  | clip_listener f self =>
      Returned
        match f with
        | C_loopstartListener => Clip_loopstartListener self args st
        | C_loopendListener => Clip_loopendListener self args st
        | C_loopstateListener => Clip_loopstateListener self args st
        | C_warpingListener => Clip_warpingListener self args st
        | C_pitchListener => Clip_pitchListener self args st
        | C_clipinfoListener => Clip_clipinfoListener self args st
        | C_clipnameListener => Clip_clipnameListener self args st
        end
  | device_listener f self =>
      match f with
      | D_rangeListener => Returned (Device_rangeListener self args st)
      | D_allParamListener => Device_allParamListener self args st
      | D_paramListener => Device_paramListener self args st
      end
  | song_listener f =>
      Returned
        match f with
        | S_playListener => Song_playListener args st
        | S_beatListener => Song_beatListener args st
        | S_tempoListener => Song_tempoListener args st
        | S_sceneListener => Song_sceneListener args st
        | S_volumeListener => Song_volumeListener args st
        | S_panListener => Song_panListener args st
        | S_tracksListener => Song_tracksListener args st
        | S_returnsListener => Song_returnsListener args st
        | S_scenesListener => Song_scenesListener args st
        | S_devicelistListener => Song_devicelistListener args st
        | S_refreshListener => Song_refreshListener args st
        | S_timeListener => Song_timeListener args st
        end
  end.

(** The state a call of a listener leaves. *)
Definition call (l : listener) (args : list value) (st : State) : State :=
  outcome_state (call_outcome l args st).

(** The receiver calls the listeners in turn; one that throws ends the
    round, and the listeners after it are not called. *)
Fixpoint dispatch (ls : list listener) (args : list value) (st : State) : outcome :=
  match ls with
  | [] => Returned st
  | l :: ls => and_then (call_outcome l args st) (dispatch ls args)
  end.

(** A message from Live: the receiver calls, in the order they were added,
    the listeners that were under the address when the message came. *)
Definition receive_outcome (addr : string) (args : list value) (st : State) : outcome :=
  dispatch (listeners_of addr st) args st.

(** The state a message leaves. *)
Definition receive (addr : string) (args : list value) (st : State) : State :=
  outcome_state (receive_outcome addr args st).

(** [new Song(liveosc)] on the instance [new LiveOSC(opts)] has just set up. *)
Definition new_Song (st : State) : State :=
  let st := set_song Song_fields st in
  let st := on "/live/play" (song_listener S_playListener) st in
  let st := on "/live/beat" (song_listener S_beatListener) st in
  let st := on "/live/tempo" (song_listener S_tempoListener) st in
  let st := on "/live/scene" (song_listener S_sceneListener) st in
  let st := on "/live/master/volume" (song_listener S_volumeListener) st in
  let st := on "/live/master/pan" (song_listener S_panListener) st in
  let st := on "/live/tracks" (song_listener S_tracksListener) st in
  let st := on "/live/returns" (song_listener S_returnsListener) st in
  let st := on "/live/scenes" (song_listener S_scenesListener) st in
  let st := on "/live/master/devicelist" (song_listener S_devicelistListener) st in
  let st := on "/remix/oscserver/startup" (song_listener S_refreshListener) st in
  let st := on "/remix/oscserver/shutdown" (song_listener S_refreshListener) st in
  let st := on "/live/refresh" (song_listener S_refreshListener) st in
  let st := on "/live/time" (song_listener S_timeListener) st in
  Song_refresh st.

(** [new LiveOSC(opts)] without [opts.debug]: an emitter that has sent
    nothing, a receiver without listeners, and the song. *)
Definition new_LiveOSC : State :=
  new_Song (mkState Song_fields [] [] [] [] (mkReceiver [] VUndef VUndef None) [] [] []).

End Program.

(** ** The vocabulary of the statements *)

(** The calls of the command surface: one per method that asks Live for a
    change, a focus or a transport action. *)
Inductive command :=
| track_setName (self : ref) (name : value)
| track_setArm (self : ref) (arm : value)
| track_setSolo (self : ref) (solo : value)
| track_setMute (self : ref) (mute : value)
| track_setVolume (self : ref) (volume : value)
| track_setPan (self : ref) (pan : value)
| track_setSend (self : ref) (send_ val : value)
| track_view (self : ref)
| return_setName (self : ref) (name : value)
| return_setSolo (self : ref) (solo : value)
| return_setMute (self : ref) (mute : value)
| return_setVolume (self : ref) (volume : value)
| return_setPan (self : ref) (pan : value)
| return_setSend (self : ref) (send_ val : value)
| return_view (self : ref)
| clip_play (self : ref)
| clip_stop (self : ref)
| clip_setName (self : ref) (name : value)
| clip_setPitch (self : ref) (coarse fine : value)
| clip_setLoopstart (self : ref) (loopstart : value)
| clip_setLoopend (self : ref) (loopend : value)
| clip_setLoopstate (self : ref) (loopstate : value)
| clip_setWarping (self : ref) (warping : value)
| clip_view (self : ref)
| device_set (self : ref) (param value : value)
| device_view (self : ref)
| song_stop
| song_play
| song_continue
| song_nextCue
| song_prevCue
| song_undo
| song_redo
| song_view
| song_playScene (scene : value)
| song_setVolume (volume : value)
| song_setPan (pan : value)
| song_setTempo (tempo : value).

Definition run (c : command) (st : State) : outcome :=
  match c with
  | track_setName self name => Returned (Track_setName self name st)
  | track_setArm self arm => Returned (Track_setArm self arm st)
  | track_setSolo self solo => Returned (Track_setSolo self solo st)
  | track_setMute self mute => Returned (Track_setMute self mute st)
  | track_setVolume self volume => Returned (Track_setVolume self volume st)
  | track_setPan self pan => Returned (Track_setPan self pan st)
  | track_setSend self send_ val => Returned (Track_setSend self send_ val st)
  | track_view self => Returned (Track_view self st)
  | return_setName self name => Returned (Return_setName self name st)
  | return_setSolo self solo => Returned (Return_setSolo self solo st)
  | return_setMute self mute => Returned (Return_setMute self mute st)
  | return_setVolume self volume => Returned (Return_setVolume self volume st)
  | return_setPan self pan => Returned (Return_setPan self pan st)
  | return_setSend self send_ val => Returned (Return_setSend self send_ val st)
  | return_view self => Returned (Return_view self st)
  | clip_play self => Returned (Clip_play self st)
  | clip_stop self => Returned (Clip_stop self st)
  | clip_setName self name => Returned (Clip_setName self name st)
  | clip_setPitch self coarse fine => Returned (Clip_setPitch self coarse fine st)
  | clip_setLoopstart self loopstart => Returned (Clip_setLoopstart self loopstart st)
  | clip_setLoopend self loopend => Returned (Clip_setLoopend self loopend st)
  | clip_setLoopstate self loopstate => Returned (Clip_setLoopstate self loopstate st)
  | clip_setWarping self warping => Returned (Clip_setWarping self warping st)
  | clip_view self => Returned (Clip_view self st)
  | device_set self param value => Device_set self param value st
  | device_view self => Returned (Device_view self st)
  | song_stop => Returned (Song_stop st)
  | song_play => Returned (Song_play st)
  | song_continue => Returned (Song_continue st)
  | song_nextCue => Returned (Song_nextCue st)
  | song_prevCue => Returned (Song_prevCue st)
  | song_undo => Returned (Song_undo st)
  | song_redo => Returned (Song_redo st)
  | song_view => Returned (Song_view st)
  | song_playScene scene => Returned (Song_playScene scene st)
  | song_setVolume volume => Returned (Song_setVolume volume st)
  | song_setPan pan => Returned (Song_setPan pan st)
  | song_setTempo tempo => Returned (Song_setTempo tempo st)
  end.

(** The object a command is called on is an object of the store. *)
Definition callee_exists (c : command) (st : State) : Prop :=
  match c with
  | track_setName self _ | track_setArm self _ | track_setSolo self _
  | track_setMute self _ | track_setVolume self _ | track_setPan self _
  | track_setSend self _ _ | track_view self => is_Some (tracks st !! self)
  | return_setName self _ | return_setSolo self _ | return_setMute self _
  | return_setVolume self _ | return_setPan self _ | return_setSend self _ _
  | return_view self => is_Some (returns st !! self)
  | clip_play self | clip_stop self | clip_setName self _ | clip_setPitch self _ _
  | clip_setLoopstart self _ | clip_setLoopend self _ | clip_setLoopstate self _
  | clip_setWarping self _ | clip_view self => is_Some (clips st !! self)
  | device_set self _ _ | device_view self => is_Some (devices st !! self)
  | _ => True
  end.

(** [Clip.prototype.setPitch] on a clip whose track is not an audio track. *)
Definition pitch_of_midi_clip (c : command) (st : State) : Prop :=
  match c with
  | clip_setPitch self _ _ =>
      exists clip, clips st !! self = Some clip /\
        truthy (track_audio (c_track clip) st) = false
  | _ => False
  end.

(** [Device.prototype.set] with a string that is the name of no array
    element of the parameter table of the device. *)
Definition set_by_unknown_name (c : command) (st : State) : Prop :=
  match c with
  | device_set self (VStr name) _ =>
      exists d, devices st !! self = Some d /\
        forall i prm, elems (d_params d) !! i = Some (Some prm) -> p_name prm <> VStr name
  | _ => False
  end.

Section Vocabulary.
Context `{Runtime}.


(** The leading arguments are, one by one, [==] to the path. *)
Fixpoint path_matches (path args : list value) : bool :=
  match path with
  | [] => true
  | p :: path' => loose_eq (arg 0 args) p && path_matches path' (tail args)
  end.

End Vocabulary.

(** The tail of a batch cut into its strides; a stride the message leaves
    short is filled with [undefined], as reading past [arguments] does. *)
Fixpoint strides2 (args : list value) : list (value * value) :=
  match args with
  | [] => []
  | [a] => [(a, VUndef)]
  | a :: b :: args' => (a, b) :: strides2 args'
  end.


#[global] Instance pkey_eq_dec : EqDecision pkey.
Proof. solve_decision. Defined.

Section Batches.
Context `{Runtime}.





(** The parameter object of a device event on the song. *)
Definition device_global (id : value) (type : devtype) (trackId : value) (params : object)
    : object :=
  ([("id", id); ("type", VStr (type_name type))] ++ params ++
   match type with
   | master_type => []
   | _ => [("trackId", trackId)]
   end)%list.



End Batches.

(** What one [emitEvent(field, {value, prev})] of a track ([kind] is
    [track]) or of a return announces: the event on the entity, then the
    event on the song with the id of the entity. *)
Definition change_events (e : emitter) (kind : string) (id : value) (field : string)
    (v prev : value) : list event :=
  [mkEvent e field (Some [("value", v); ("prev", prev)]);
   mkEvent song_emitter (kind ++ ":" ++ field)
     (Some [("id", id); ("value", v); ("prev", prev)])].

(** The addresses the constructors add their listeners under. *)
Definition clip_address (f : clip_fn) : string :=
  match f with
  | C_loopstartListener => "/live/clip/loopstart"
  | C_loopendListener => "/live/clip/loopend"
  | C_loopstateListener => "/live/clip/loopstate"
  | C_warpingListener => "/live/clip/warping"
  | C_pitchListener => "/live/pitch"
  | C_clipinfoListener => "/live/clip/info"
  | C_clipnameListener => "/live/name/clip"
  end.

Definition device_address (type : devtype) (f : device_fn) : string :=
  match f with
  | D_rangeListener => rangeAddr type
  | D_allParamListener => allParamAddr type
  | D_paramListener => paramAddr type
  end.

Definition track_address (f : track_fn) : string :=
  match f with
  | T_sendListener => "/live/send"
  | T_soloListener => "/live/solo"
  | T_armListener => "/live/arm"
  | T_muteListener => "/live/mute"
  | T_volumeListener => "/live/volume"
  | T_panListener => "/live/pan"
  | T_trackinfoListener => "/live/track/info"
  | T_devicelistListener => "/live/devicelist"
  | T_nameListener => "/live/name/track"
  end.





Definition song_field (f : song_fn) : option (string * (Song -> value)) :=
  match f with
  | S_playListener => Some ("play", s_playing)
  | S_beatListener => Some ("beat", s_beat)
  | S_tempoListener => Some ("tempo", s_tempo)
  | S_sceneListener => Some ("scene", s_scene)
  | S_volumeListener => Some ("volume", s_volume)
  | S_panListener => Some ("pan", s_pan)
  | _ => None
  end.

(** What one [emitEvent(field, {value, prev})] of a clip announces: the
    event on the clip, then the event on the song with the id of the clip
    and the id of its track. *)
Definition clip_events (self : ref) (id trackId : value) (field : string) (v prev : value)
    : list event :=
  [mkEvent (clip_emitter self) field (Some [("value", v); ("prev", prev)]);
   mkEvent song_emitter ("clip:" ++ field)
     (Some [("id", id); ("trackId", trackId); ("value", v); ("prev", prev)])].

Section Requests.
Context `{Runtime}.

(** What [destroy] of a device announces: [destroy] on the device, then
    [device:destroy] on the song. *)
Definition device_destroy_events (self : ref) (st : State) : list event :=
  match devices st !! self with
  | None => []
  | Some d =>
      [mkEvent (device_emitter self) "destroy" None;
       mkEvent song_emitter "device:destroy"
         (Some (device_global (d_id d) (d_type d) (owner_id (d_track d) st) []))]
  end.


End Requests.

(** The fields of a new track, return and clip, as their constructors set
    them, and the listeners the constructors add, in the order they add
    them. *)
Definition Track_fields (id : value) : Track :=
  mkTrack id (VStr "") [] arr_empty [] (num 0) (num 0) (num 0) (num 0) (num 0) (num 0) (num 0).

Definition Return_fields (id : value) : Return :=
  mkReturn (VStr "") id (num 0) (num 0) (num 0) (num 0) [] arr_empty.

Definition Clip_fields (track : ref) (id : value) : Clip :=
  mkClip track id (VBool false) (num 0) (num 0) (num 0) (num 0) (num 0) (num 0) (num 0) (num 0).

Definition Clip_listeners (self : ref) : list (string * listener) :=
  (fun f => (clip_address f, clip_listener f self)) <$>
    [C_loopstartListener; C_loopendListener; C_loopstateListener; C_warpingListener;
     C_pitchListener; C_clipinfoListener; C_clipnameListener].

Definition Track_listeners (self : ref) : list (string * listener) :=
  (fun f => (track_address f, track_listener f self)) <$>
    [T_sendListener; T_soloListener; T_armListener; T_muteListener; T_panListener;
     T_volumeListener; T_trackinfoListener; T_devicelistListener; T_nameListener].

Definition return_address (f : return_fn) : string :=
  match f with
  | R_sendListener => "/live/return/send"
  | R_soloListener => "/live/return/solo"
  | R_muteListener => "/live/return/mute"
  | R_volumeListener => "/live/return/volume"
  | R_panListener => "/live/return/pan"
  | R_infoListener => "/live/return/info"
  | R_devicelistListener => "/live/return/devicelist"
  | R_nameListener => "/live/name/return"
  end.

Definition Return_listeners (self : ref) : list (string * listener) :=
  (fun f => (return_address f, return_listener f self)) <$>
    [R_sendListener; R_soloListener; R_muteListener; R_volumeListener; R_panListener;
     R_infoListener; R_devicelistListener; R_nameListener].

(** What a [destroy] may do to an instance: announce, and take listeners
    other than the song's from the receiver.  The devices stay in the
    store. *)
Definition may_unsubscribe (st st' : State) : Prop :=
  devices st' = devices st /\ sent st' = sent st /\ timers st' = timers st /\
  (exists more, events st' = events st ++ more)%list /\
  (forall x, x ∈ listeners (receiver st') -> x ∈ listeners (receiver st)) /\
  (forall addr f, (addr, song_listener f) ∈ listeners (receiver st) ->
     (addr, song_listener f) ∈ listeners (receiver st')) /\
  (NoDup (listeners (receiver st)) -> NoDup (listeners (receiver st'))).

(** The same, the fields of the song as they were. *)
Definition only_unsubscribes (st st' : State) : Prop :=
  song st' = song st /\ may_unsubscribe st st'.

(** The event [e] is among those announced on the way from [st] to [st']. *)
Definition announces (e : event) (st st' : State) : Prop :=
  (exists before after, events st' = events st ++ before ++ e :: after)%list.

(** ** index.js: the options of [new LiveOSC(opts)] *)

Record Options := mkOptions {
  o_host : value;
  o_port : value;
  o_liveHost : value;
  o_livePort : value;
  o_waitTime : value;
  o_debug : value
}.

(** [x || d] *)
Definition or_else (x d : value) : value := if truthy x then x else d.

(** [opts = opts || {}]: an object that is not given is the empty object,
    and a property an object lacks reads as [undefined]. *)
Definition no_options : Options := mkOptions VUndef VUndef VUndef VUndef VUndef VUndef.

(** The [host], [port], [liveHost], [livePort], [waitTime] and [debug] the
    constructor [LiveOSC] gives the instance. *)
Definition LiveOSC_options (opts : option Options) : Options :=
  let opts := default no_options opts in
  mkOptions
    (or_else (o_host opts) (VStr "127.0.0.1"))
    (or_else (o_port opts) (VNum 9006))
    (or_else (o_liveHost opts) (VStr "127.0.0.1"))
    (or_else (o_livePort opts) (VNum 9005))
    (or_else (o_waitTime opts) (VNum 1000))
    (or_else (o_debug opts) (VBool false)).

(** ** A runtime and a set for the closed runs

    A runtime that reads a string of decimal digits as a number and writes
    an integer in decimal (a fraction as numerator over denominator, which
    no run has to write).  The messages of the runs carry numbers where the
    program compares and counts. *)

Definition digits_to_number (s : string) : option Q :=
  match s with
  | EmptyString => Some 0%Q
  | _ => (fun n => inject_Z (Z.of_N n)) <$> digits_value 0 s
  end.

Definition number_to_digits (q : Q) : string :=
  let r := Qred q in
  let n := DecimalString.NilZero.string_of_int (Z.to_int (Qnum r)) in
  if decide (Qden r = 1%positive) then n
  else n ++ "/" ++ DecimalString.NilZero.string_of_uint (Pos.to_uint (Qden r)).

Definition digits_runtime : Runtime := {|
  string_to_number := digits_to_number;
  number_to_string := number_to_digits
|}.


Section Demo.
#[local] Existing Instance digits_runtime.

(** A set with one MIDI track of two scenes, one return and a device on the
    track, on the return and on the master channel; the device on the track
    has reported two parameters. *)
Definition demo : State :=
  receive "/live/device/allparam"
    [num 0; num 0; num 0; num 1; VStr "Device On"; num 1; VNum 0.5; VStr "Dry/Wet"]
    (receive "/live/master/devicelist" [num 0; VStr "Limiter"]
      (receive "/live/return/devicelist" [num 0; num 0; VStr "Delay"]
        (receive "/live/devicelist" [num 0; num 0; VStr "Reverb"]
          (receive "/live/scenes" [num 2]
            (receive "/live/returns" [num 1]
              (receive "/live/tracks" [num 1] new_LiveOSC)))))).

Definition demo_track : Track :=
  mkTrack (num 0) (VStr "") [0; 1]%nat arr_empty [0%nat] (num 0) (num 0) (num 0) (num 0)
    (num 0) (num 0) (num 2).

Definition demo_reverb : Device :=
  mkDevice (VStr "Reverb") (num 0) (track_owner 0) track_type
    (JsArray
       [Some (mkParam (num 0) (num 1) (VStr "Device On") VUndef VUndef);
        Some (mkParam (num 1) (VNum 0.5) (VStr "Dry/Wet") VUndef VUndef)] ∅).

Definition demo_delay : Device :=
  mkDevice (VStr "Delay") (num 0) (return_owner 0) return_type arr_empty.

Definition demo_limiter : Device :=
  mkDevice (VStr "Limiter") (num 0) song_owner master_type arr_empty.

End Demo.

(** * Properties *)

Local Open Scope list_scope.

Section Properties.
Context `{Runtime}.

(** ** Values *)

Lemma Qeq_bool_sym (a b : Q) : Qeq_bool a b = Qeq_bool b a.
Proof. unfold Qeq_bool. apply Z.eqb_sym. Qed.

Lemma String_eqb_sym (a b : string) : String.eqb a b = String.eqb b a.
Proof. apply String.eqb_sym. Qed.

Lemma loose_eq_sym (x y : value) : loose_eq x y = loose_eq y x.
Proof.
  destruct x, y; simpl; try reflexivity;
    try apply Qeq_bool_sym; try apply String_eqb_sym;
    repeat match goal with |- context [string_to_number ?s] => destruct (string_to_number s) end;
    try reflexivity; apply Qeq_bool_sym.
Qed.

Lemma strict_eq_string (v : value) (s : string) :
  strict_eq v (VStr s) = true <-> v = VStr s.
Proof.
  destruct v; simpl; try (split; [discriminate | discriminate]).
  rewrite String.eqb_eq. split; [intros -> | intros [= ->]]; reflexivity.
Qed.

(** ** Commands *)

(** C10: [view()] of a device on a track or on a return sends one message
    to [/live/<type>/device/view] whose two integer arguments are both the
    id of the device; on the master channel the message has the id once. *)
Theorem Device_view_sends_own_id (self : ref) (d : Device) (st : State) :
  devices st !! self = Some d ->
  Device_view self st =
    set_sent (sent st ++
      [match d_type d with
       | track_type =>
           mkMessage "/live/track/device/view"
             [mkArg integer (d_id d); mkArg integer (d_id d)]
       | return_type =>
           mkMessage "/live/return/device/view"
             [mkArg integer (d_id d); mkArg integer (d_id d)]
       | master_type =>
           mkMessage "/live/master/device/view" [mkArg integer (d_id d)]
       end]) st.
Proof.
  intros Hd. unfold Device_view. rewrite Hd. destruct (d_type d); reflexivity.
Qed.

Lemma findWhere_name_None (l : list (option Param)) (param : value) :
  (forall i prm, l !! i = Some (Some prm) -> strict_eq (p_name prm) param = false) ->
  findWhere_name l param = None.
Proof.
  induction l as [|[prm|] l IH]; intros Hl; simpl; [reflexivity | |].
  - rewrite (Hl 0%nat prm eq_refl). apply IH. intros i p. apply (Hl (S i)).
  - apply IH. intros i p. apply (Hl (S i)).
Qed.

Lemma findWhere_name_first (l : list (option Param)) (param : value) (i : nat) (prm : Param) :
  l !! i = Some (Some prm) ->
  strict_eq (p_name prm) param = true ->
  (forall j p, (j < i)%nat -> l !! j = Some (Some p) -> strict_eq (p_name p) param = false) ->
  findWhere_name l param = Some prm.
Proof.
  revert i. induction l as [|[p0|] l IH]; intros i Hi Hprm Hfirst; [discriminate | |].
  - destruct i as [|i]; simpl in *.
    + injection Hi as ->. rewrite Hprm. reflexivity.
    + rewrite (Hfirst 0%nat p0 ltac:(lia) eq_refl).
      apply (IH i Hi Hprm). intros j p Hj. apply (Hfirst (S j)). lia.
  - destruct i as [|i]; simpl in *; [discriminate |].
    apply (IH i Hi Hprm). intros j p Hj. apply (Hfirst (S j)). lia.
Qed.

Lemma findWhere_name_exists (l : list (option Param)) (param : value) :
  (exists i prm, l !! i = Some (Some prm) /\ strict_eq (p_name prm) param = true) ->
  exists i prm, l !! i = Some (Some prm) /\ strict_eq (p_name prm) param = true /\
    forall j p, (j < i)%nat -> l !! j = Some (Some p) -> strict_eq (p_name p) param = false.
Proof.
  induction l as [|[p0|] l IH]; intros (i & prm & Hi & Hprm); [discriminate | |].
  - destruct (strict_eq (p_name p0) param) eqn:E.
    + exists 0%nat, p0. repeat split; [exact E | intros j p Hj; lia].
    + destruct i as [|i]; simpl in Hi; [injection Hi as ->; congruence |].
      destruct IH as (i' & prm' & Hi' & Hprm' & Hfirst'); [eauto |].
      exists (S i'), prm'. repeat split; [exact Hi' | exact Hprm' |].
      intros [|j] p Hj Hp; simpl in Hp; [injection Hp as <-; exact E |].
      apply (Hfirst' j); [lia | exact Hp].
  - destruct i as [|i]; simpl in Hi; [discriminate |].
    destruct IH as (i' & prm' & Hi' & Hprm' & Hfirst'); [eauto |].
    exists (S i'), prm'. repeat split; [exact Hi' | exact Hprm' |].
    intros [|j] p Hj Hp; simpl in Hp; [discriminate |].
    apply (Hfirst' j); [lia | exact Hp].
Qed.

Lemma strict_eq_string_false (v : value) (s : string) :
  strict_eq v (VStr s) = false <-> v <> VStr s.
Proof.
  rewrite <- strict_eq_string. destruct (strict_eq v (VStr s)); split; congruence.
Qed.

(** The message of [Device.prototype.set], address and arguments spelled
    out, when the owner of the device is an object of the store. *)
Lemma device_set_message (d : Device) (id value trackId : value) (st : State) :
  (d_type d <> master_type ->
   match d_track d with
   | track_owner r => t_id <$> tracks st !! r
   | return_owner r => r_id <$> returns st !! r
   | song_owner => Some VUndef
   end = Some trackId) ->
  mkMessage (infoAddr (d_type d))
    (device_path (d_track d) (d_type d) (d_id d) st ++ [int id; int value]) =
  match d_type d with
  | track_type =>
      mkMessage "/live/device"
        [mkArg integer trackId; mkArg integer (d_id d); mkArg integer id;
         mkArg integer value]
  | return_type =>
      mkMessage "/live/return/device"
        [mkArg integer trackId; mkArg integer (d_id d); mkArg integer id;
         mkArg integer value]
  | master_type =>
      mkMessage "/live/master/device"
        [mkArg integer (d_id d); mkArg integer id; mkArg integer value]
  end.
Proof.
  intros Hown. unfold infoAddr, device_path, owner_id, int.
  destruct (d_type d); [| | reflexivity];
    (specialize (Hown ltac:(discriminate));
     destruct (d_track d) as [r | r |];
     [ destruct (tracks st !! r); [injection Hown as <-; reflexivity | discriminate Hown]
     | destruct (returns st !! r); [injection Hown as <-; reflexivity | discriminate Hown]
     | injection Hown as <-; reflexivity ]).
Qed.

(** C5, as the code has it: the table is searched along its array
    elements, the entries stored under array indices, in index order.
    [set] with a name that no array element has throws
    [No parameter with name ...] and sends nothing; with a name that some
    array element has, it sends one message that carries the id of the
    first such element and the value: to [/live/device] or
    [/live/return/device] after the id of the track or return and the id of
    the device, to [/live/master/device] after the id of the device. *)
Theorem Device_set_by_name (self : ref) (d : Device) (name : string)
    (value trackId : value) (st : State) :
  devices st !! self = Some d ->
  (d_type d <> master_type ->
   match d_track d with
   | track_owner r => t_id <$> tracks st !! r
   | return_owner r => r_id <$> returns st !! r
   | song_owner => Some VUndef
   end = Some trackId) ->
  let table := elems (d_params d) in
  ((forall i prm, table !! i = Some (Some prm) -> p_name prm <> VStr name) ->
     Device_set self (VStr name) value st =
       Thrown ("No parameter with name " ++ name) st)
  /\
  ((exists i prm, table !! i = Some (Some prm) /\ p_name prm = VStr name) ->
     exists i prm,
       table !! i = Some (Some prm) /\ p_name prm = VStr name /\
       (forall j p, (j < i)%nat -> table !! j = Some (Some p) -> p_name p <> VStr name) /\
       Device_set self (VStr name) value st =
         Returned (set_sent (sent st ++
           [match d_type d with
            | track_type =>
                mkMessage "/live/device"
                  [mkArg integer trackId; mkArg integer (d_id d);
                   mkArg integer (p_id prm); mkArg integer value]
            | return_type =>
                mkMessage "/live/return/device"
                  [mkArg integer trackId; mkArg integer (d_id d);
                   mkArg integer (p_id prm); mkArg integer value]
            | master_type =>
                mkMessage "/live/master/device"
                  [mkArg integer (d_id d); mkArg integer (p_id prm); mkArg integer value]
            end]) st)).
Proof.
  intros Hd Hown table. unfold Device_set. rewrite Hd. split.
  - intros Hnone. rewrite findWhere_name_None; [reflexivity |].
    intros i prm Hi. apply strict_eq_string_false. eauto.
  - intros (i & prm & Hi & Hprm).
    destruct (findWhere_name_exists table (VStr name)) as (i' & prm' & Hi' & Hprm' & Hfirst).
    { exists i, prm. split; [exact Hi |]. apply strict_eq_string. exact Hprm. }
    exists i', prm'. split; [exact Hi' |]. split; [apply strict_eq_string; exact Hprm' |].
    split.
    + intros j p Hj Hp. apply strict_eq_string_false. eauto.
    + fold table. rewrite (findWhere_name_first table (VStr name) i' prm' Hi' Hprm' Hfirst).
      unfold send. rewrite (device_set_message d (p_id prm') value trackId st Hown).
      reflexivity.
Qed.

Lemma findWhere_name_found (l : list (option Param)) (param : value) :
  findWhere_name l param = None ->
  forall i prm, l !! i = Some (Some prm) -> strict_eq (p_name prm) param = false.
Proof.
  induction l as [|[p|] l IH]; intros Hnone i prm Hi.
  - rewrite lookup_nil in Hi. discriminate Hi.
  - cbn [findWhere_name] in Hnone.
    destruct (strict_eq (p_name p) param) eqn:E; [discriminate Hnone |].
    destruct i as [|i]; [injection Hi as <-; exact E | exact (IH Hnone i prm Hi)].
  - cbn [findWhere_name] in Hnone.
    destruct i as [|i]; [discriminate Hi | exact (IH Hnone i prm Hi)].
Qed.

(** C9, as the code has it: a command changes nothing but the log of the
    emitter, to which it adds one message, with two exceptions, each under
    its own condition and under no other.  [Clip.prototype.setPitch]
    returns at once, the instance as it was, when the track of the clip is
    not an audio track; [Device.prototype.set] throws
    [No parameter with name ...], the instance as it was, when its string
    is the name of no array element of the table.  Every other call, among
    them [setPitch] on an audio track and [set] with a name that is in the
    table, returns after one message. *)
Theorem command_only_sends (c : command) (st : State) :
  callee_exists c st ->
  (pitch_of_midi_clip c st -> run c st = Returned st) /\
  (set_by_unknown_name c st ->
     exists self name value,
       c = device_set self (VStr name) value /\
       run c st = Thrown ("No parameter with name " ++ name) st) /\
  (~ pitch_of_midi_clip c st -> ~ set_by_unknown_name c st ->
     exists m, run c st = Returned (set_sent (sent st ++ [m]) st)).
Proof.
  intros Hc. split; [| split].
  - destruct c; cbn [pitch_of_midi_clip]; try contradiction.
    intros (clip & Hclip & Haudio). cbn [run]. unfold Clip_setPitch.
    rewrite Hclip, Haudio. reflexivity.
  - destruct c as [| | | | | | | | | | | | | | | | | | | | | | | |
                   self param v | | | | | | | | | | | | |];
      cbn [set_by_unknown_name]; try contradiction.
    destruct param as [| b | q | name]; try contradiction.
    intros (d & Hd & Hnone). exists self, name, v. split; [reflexivity |].
    cbn [run]. unfold Device_set. rewrite Hd.
    rewrite findWhere_name_None; [reflexivity |].
    intros i prm Hi. apply strict_eq_string_false. eauto.
  - intros Hpitch Hname.
    destruct c; cbn [run callee_exists] in *;
      try (eexists; reflexivity);
      try (destruct Hc as [x Hx]).
    + unfold Clip_play. rewrite Hx. eexists. reflexivity.
    + unfold Clip_stop. rewrite Hx. eexists. reflexivity.
    + unfold Clip_setName. rewrite Hx. eexists. reflexivity.
    + unfold Clip_setPitch. rewrite Hx.
      destruct (truthy (track_audio (c_track x) st)) eqn:E; simpl.
      * eexists. reflexivity.
      * destruct Hpitch. exists x. split; [exact Hx | exact E].
    + unfold Clip_setLoopstart. rewrite Hx. eexists. reflexivity.
    + unfold Clip_setLoopend. rewrite Hx. eexists. reflexivity.
    + unfold Clip_setLoopstate. rewrite Hx. eexists. reflexivity.
    + unfold Clip_setWarping. rewrite Hx. eexists. reflexivity.
    + unfold Clip_view. rewrite Hx. eexists. reflexivity.
    + unfold Device_set. rewrite Hx.
      destruct param as [| b | q | s]; try (eexists; reflexivity).
      destruct (findWhere_name _ _) eqn:E.
      * eexists. reflexivity.
      * destruct Hname. exists x. split; [exact Hx |].
        intros i prm Hi. apply strict_eq_string_false.
        exact (findWhere_name_found _ _ E i prm Hi).
    + unfold Device_view. rewrite Hx. eexists. reflexivity.
Qed.

(** ** The identity filter *)

Lemma arg_tail (i : nat) (args : list value) : arg i (tail args) = arg (S i) args.
Proof. destruct args; reflexivity. Qed.



(** ** Arrays *)









(** ** Batches *)

Lemma strides2_ind (P : list value -> Prop) :
  P [] -> (forall a, P [a]) -> (forall a b l, P l -> P (a :: b :: l)) ->
  forall l, P l.
Proof.
  intros H0 H1 H2 l. cut (P l /\ forall a, P (a :: l)); [tauto |].
  induction l as [|b l [IH1 IH2]]; split; auto.
Qed.

Lemma strides3_ind (P : list value -> Prop) :
  P [] -> (forall a, P [a]) -> (forall a b, P [a; b]) ->
  (forall a b c l, P l -> P (a :: b :: c :: l)) ->
  forall l, P l.
Proof.
  intros H0 H1 H2 H3 l.
  cut (P l /\ (forall a, P (a :: l)) /\ forall a b, P (a :: b :: l)); [tauto |].
  induction l as [|c l (IH1 & IH2 & IH3)]; repeat split; auto.
Qed.







Lemma owner_id_frame (o : owner) (st st' : State) :
  tracks st' = tracks st -> returns st' = returns st ->
  owner_id o st' = owner_id o st.
Proof. intros Ht Hr. destruct o; simpl; rewrite ?Ht, ?Hr; reflexivity. Qed.



















(** ** What [destroy] removes *)

Lemma elem_of_remove_last {A} `{EqDecision A} (x y : A) (l : list A) :
  y ∈ remove_last x l -> y ∈ l.
Proof.
  induction l as [|z l IH]; simpl; [trivial |].
  destruct (decide (z = x)) as [-> | Hz].
  - destruct (decide (x ∈ l)); rewrite ?elem_of_cons; intuition.
  - rewrite !elem_of_cons. intuition.
Qed.

Lemma NoDup_remove_last {A} `{EqDecision A} (x : A) (l : list A) :
  NoDup l -> NoDup (remove_last x l).
Proof.
  induction 1 as [|z l Hz Hl IH]; simpl; [constructor |].
  destruct (decide (z = x)) as [-> | Hne].
  - destruct (decide (x ∈ l)); [contradiction | exact Hl].
  - constructor; [| exact IH]. intros Hin. apply Hz. eapply elem_of_remove_last, Hin.
Qed.

Lemma not_elem_of_remove_last {A} `{EqDecision A} (x : A) (l : list A) :
  NoDup l -> x ∉ remove_last x l.
Proof.
  induction 1 as [|z l Hz Hl IH]; simpl; [apply not_elem_of_nil |].
  destruct (decide (z = x)) as [-> | Hne].
  - destruct (decide (x ∈ l)); [contradiction | exact Hz].
  - rewrite elem_of_cons. intros [-> | Hin]; [congruence | contradiction].
Qed.

Lemma listeners_removeListener (addr : string) (l : listener) (st : State) :
  listeners (receiver (removeListener addr l st)) =
    remove_last (addr, l) (listeners (receiver st)).
Proof. reflexivity. Qed.

Lemma elem_of_listeners_of (addr : string) (l : listener) (st : State) :
  l ∈ listeners_of addr st <-> (addr, l) ∈ listeners (receiver st).
Proof.
  unfold listeners_of. rewrite list_elem_of_fmap. split.
  - intros ([a l'] & -> & Hin). apply list_elem_of_filter in Hin as [Ha Hin].
    simpl in Ha. subst a. exact Hin.
  - intros Hin. exists (addr, l). split; [reflexivity |].
    apply list_elem_of_filter. split; [reflexivity | exact Hin].
Qed.

(** X3: after [destroy] the receiver holds no listener of the clip, when it
    held no listener twice and held those of the clip where the constructor
    puts them. *)
Theorem Clip_destroy_removes_every_listener (self : ref) (st : State) :
  NoDup (listeners (receiver st)) ->
  (forall addr f, (addr, clip_listener f self) ∈ listeners (receiver st) ->
     addr = clip_address f) ->
  forall addr f, clip_listener f self ∉ listeners_of addr (Clip_destroy self st).
Proof.
  intros Hnodup Haddr addr f. rewrite elem_of_listeners_of. intros Hin.
  assert (Hsub : (addr, clip_listener f self) ∈ listeners (receiver st)).
  { unfold Clip_destroy in Hin. rewrite !listeners_removeListener in Hin.
    repeat apply elem_of_remove_last in Hin. exact Hin. }
  apply Haddr in Hsub. subst addr. revert Hin.
  unfold Clip_destroy. rewrite !listeners_removeListener.
  change (listeners (receiver (emit (clip_emitter self) "destroy" None st)))
    with (listeners (receiver st)).
  destruct f; simpl;
    repeat first
      [ apply not_elem_of_remove_last; repeat apply NoDup_remove_last; exact Hnodup
      | let Hin := fresh in intros Hin; apply elem_of_remove_last in Hin; revert Hin ].
Qed.

Lemma receiver_Device_emitEvent (self : ref) (ev : value) (params : option object)
    (st : State) :
  receiver (outcome_state (Device_emitEvent self ev params st)) = receiver st.
Proof.
  unfold Device_emitEvent. destruct (devices st !! self); [| reflexivity].
  destruct (strict_eq ev (VStr "error")); reflexivity.
Qed.

(** X4: after [destroy] the receiver holds no listener of the device, when
    it held no listener twice and held those of the device where the
    constructor puts them for a device of its type. *)
Theorem Device_destroy_removes_every_listener (self : ref) (d : Device) (st : State) :
  devices st !! self = Some d ->
  NoDup (listeners (receiver st)) ->
  (forall addr f, (addr, device_listener f self) ∈ listeners (receiver st) ->
     addr = device_address (d_type d) f) ->
  forall addr f, device_listener f self ∉ listeners_of addr (Device_destroy self st).
Proof.
  intros Hd Hnodup Haddr addr f. rewrite elem_of_listeners_of.
  unfold Device_destroy. rewrite Hd, !listeners_removeListener, receiver_Device_emitEvent.
  intros Hin.
  assert (Hsub : (addr, device_listener f self) ∈ listeners (receiver st))
    by (repeat apply elem_of_remove_last in Hin; exact Hin).
  apply Haddr in Hsub. subst addr. revert Hin.
  destruct f; simpl;
    repeat first
      [ apply not_elem_of_remove_last; repeat apply NoDup_remove_last; exact Hnodup
      | let Hin := fresh in intros Hin; apply elem_of_remove_last in Hin; revert Hin ].
Qed.

Lemma listeners_Clip_destroy_subseteq (self : ref) (st : State) (x : string * listener) :
  x ∈ listeners (receiver (Clip_destroy self st)) -> x ∈ listeners (receiver st).
Proof.
  unfold Clip_destroy. rewrite !listeners_removeListener. intros Hin.
  repeat apply elem_of_remove_last in Hin. exact Hin.
Qed.

Lemma listeners_Device_destroy_subseteq (self : ref) (st : State) (x : string * listener) :
  x ∈ listeners (receiver (Device_destroy self st)) -> x ∈ listeners (receiver st).
Proof.
  unfold Device_destroy. destruct (devices st !! self); [| trivial].
  rewrite !listeners_removeListener, receiver_Device_emitEvent. intros Hin.
  repeat apply elem_of_remove_last in Hin. exact Hin.
Qed.

Lemma listeners_foldl_subseteq (destroy : ref -> State -> State) (refs : list ref)
    (x : string * listener) :
  (forall r st, x ∈ listeners (receiver (destroy r st)) -> x ∈ listeners (receiver st)) ->
  forall st, x ∈ listeners (receiver (foldl (fun st r => destroy r st) st refs)) ->
    x ∈ listeners (receiver st).
Proof.
  intros Hstep. induction refs as [|r refs IH]; intros st; simpl; [trivial |].
  intros Hin. apply Hstep with r. apply IH. exact Hin.
Qed.

(** X2: after [destroy] the receiver holds no listener of the track, when it
    held no listener twice and held those of the track where the constructor
    puts them; what [destroy] does to the clips and the devices of the track
    only removes listeners. *)
Theorem Track_destroy_removes_every_listener (self : ref) (st : State) :
  NoDup (listeners (receiver st)) ->
  (forall addr f, (addr, track_listener f self) ∈ listeners (receiver st) ->
     addr = track_address f) ->
  forall addr f, track_listener f self ∉ listeners_of addr (Track_destroy self st).
Proof.
  intros Hnodup Haddr addr f. rewrite elem_of_listeners_of.
  unfold Track_destroy. intros Hin.
  change (receiver (upd_track self (set_t_devices []) ?s)) with (receiver s) in Hin.
  apply listeners_foldl_subseteq in Hin; [| intros r s; apply listeners_Device_destroy_subseteq].
  change (receiver (upd_track self (set_t_clips []) ?s)) with (receiver s) in Hin.
  apply listeners_foldl_subseteq in Hin; [| intros r s; apply listeners_Clip_destroy_subseteq].
  rewrite !listeners_removeListener in Hin.
  change (listeners (receiver (emit (track_emitter self) "destroy" None st)))
    with (listeners (receiver st)) in Hin.
  assert (Hsub : (addr, track_listener f self) ∈ listeners (receiver st))
    by (repeat apply elem_of_remove_last in Hin; exact Hin).
  apply Haddr in Hsub. subst addr. revert Hin.
  destruct f; simpl;
    repeat first
      [ apply not_elem_of_remove_last; repeat apply NoDup_remove_last; exact Hnodup
      | let Hin := fresh in intros Hin; apply elem_of_remove_last in Hin; revert Hin ].
Qed.

(** ** Notifications of one field *)

Lemma Track_volumeListener_eq (self : ref) (t : Track) (trackId volume : value)
    (st : State) :
  tracks st !! self = Some t ->
  loose_eq trackId (t_id t) = true ->
  Track_volumeListener self [trackId; volume] st =
    set_events (events st ++
        [mkEvent (track_emitter self) "volume"
           (Some [("value", volume); ("prev", t_volume t)]);
         mkEvent song_emitter "track:volume"
           (Some [("id", t_id t); ("value", volume); ("prev", t_volume t)])])
      (upd_track self (set_t_volume volume) st).
Proof.
  intros Ht Hid. unfold Track_volumeListener, Track_emitEvent, loose_neq, arg. simpl.
  rewrite Ht, Hid. simpl.
  destruct st. unfold upd_track, set_events, set_tracks, emit. simpl.
  rewrite <- app_assoc. reflexivity.
Qed.

(** X1, the volume of a track: [N] notifications in a row are announced by [N]
    events on the track and [N] on the song, in turn, and the [prev] of
    each is the volume the notification before it brought (for the first,
    the volume stored when the run began); the track ends with the last
    volume. *)
Theorem Track_volume_notifications (self : ref) (trackId : value) (volumes : list value) :
  forall (st : State) (t : Track),
  tracks st !! self = Some t ->
  loose_eq trackId (t_id t) = true ->
  foldl (fun st volume => call (track_listener T_volumeListener self) [trackId; volume] st)
    st volumes =
    set_events (events st ++
        concat (imap (fun i volume =>
          let prev :=
            match i with
            | O => t_volume t
            | S j => default (t_volume t) (volumes !! j)
            end in
          [mkEvent (track_emitter self) "volume" (Some [("value", volume); ("prev", prev)]);
           mkEvent song_emitter "track:volume"
             (Some [("id", t_id t); ("value", volume); ("prev", prev)])]) volumes))
      (upd_track self (fun t => set_t_volume (default (t_volume t) (last volumes)) t) st).
Proof.
  induction volumes as [|v volumes IH]; intros st t Ht Hid.
  - destruct st. unfold upd_track, set_events, set_tracks. simpl.
    rewrite app_nil_r. f_equal. symmetry. apply list_alter_id. intros []; reflexivity.
  - simpl foldl.
    change (call (track_listener T_volumeListener self) [trackId; v] st)
      with (Track_volumeListener self [trackId; v] st).
    rewrite (Track_volumeListener_eq self t) by assumption.
    erewrite IH; cycle 1.
    { unfold upd_track, set_events, set_tracks. cbn [tracks].
      rewrite list_lookup_alter_eq, Ht. reflexivity. }
    { exact Hid. }
    destruct st as [sg tr re cl dv rx se ev tm]. cbn [tracks] in Ht.
    unfold upd_track, set_events, set_tracks. cbn.
    f_equal.
    + rewrite list_alter_alter_eq. apply list_alter_ext; [| reflexivity].
      intros t0 _. unfold compose. destruct volumes as [|v' volumes]; [reflexivity |].
      change (last (v :: v' :: volumes)) with (last (v' :: volumes)).
      destruct (last (v' :: volumes)) eqn:E; [reflexivity |].
      apply last_None in E. discriminate E.
    + rewrite <- app_assoc. cbn [app]. do 4 f_equal.
      apply imap_ext. intros i x Hx. unfold compose. destruct i as [|i]; [reflexivity |].
      change ((v :: volumes) !! S i) with (volumes !! i).
      apply lookup_lt_Some in Hx.
      destruct (lookup_lt_is_Some_2 volumes i) as [y Hy]; [lia |].
      rewrite Hy. reflexivity.
Qed.


(** ** Composite notifications *)

Lemma list_alter_same {A} (f : A -> A) (l : list A) (i : nat) :
  (forall x, l !! i = Some x -> f x = x) -> alter f i l = l.
Proof.
  intros Hf. rewrite <- (list_alter_id id l i) at 2 by reflexivity.
  apply list_alter_ext; [exact Hf | reflexivity].
Qed.

Lemma Clip_destroy_fold (cs : list ref) :
  forall st,
  events (foldl (fun st clip => Clip_destroy clip st) st cs) =
    (events st ++ ((fun clip => mkEvent (clip_emitter clip) "destroy" None) <$> cs))%list /\
  tracks (foldl (fun st clip => Clip_destroy clip st) st cs) = tracks st /\
  clips (foldl (fun st clip => Clip_destroy clip st) st cs) = clips st.
Proof.
  induction cs as [|c cs IH]; intros st; simpl.
  - rewrite app_nil_r. auto.
  - destruct (IH (Clip_destroy c st)) as (He & Ht & Hc). rewrite He, Ht, Hc.
    unfold Clip_destroy. cbn. rewrite <- app_assoc. auto.
Qed.

Lemma refreshClips_loop (self : ref) (id : value) (n : nat) (st : State) :
  (forall t, tracks st !! self = Some t -> t_clips t = []) ->
  let st' :=
    foldl (fun st i =>
        let '(clip, st) := new_Clip self (num i) st in
        let st := upd_track self (fun t => set_t_clips (write_at i clip (t_clips t)) t) st in
        send "/live/clip/info" [int id; int (num i)] st)
      st (seq 0 n) in
  events st' = events st /\
  length (clips st') = (length (clips st) + n)%nat /\
  tracks st' = alter (set_t_clips (seq (length (clips st)) n)) self (tracks st).
Proof.
  intros Hempty. induction n as [|n IH]; intros st'.
  - subst st'. simpl. repeat split; [lia |].
    symmetry. apply list_alter_same. intros t Ht. rewrite <- (Hempty t Ht).
    destruct t; reflexivity.
  - subst st'. rewrite !seq_S, foldl_app. simpl in *.
    destruct IH as (He & Hc & Ht).
    set (stn := foldl _ st (seq 0 n)) in *.
    unfold new_Clip, send, on, upd_track, upd_receiver, set_sent, set_tracks, set_clips,
      set_receiver. cbn.
    rewrite He, length_app, Hc, Ht. cbn.
    repeat split; [lia |].
    rewrite list_alter_alter_eq. apply list_alter_ext; [| reflexivity].
    intros t _. unfold compose, write_at, set_t_clips. cbn [t_clips].
    rewrite length_seq.
    destruct (decide (n < n)%nat); [lia | reflexivity].
Qed.

(** After [refreshClips] a track has as many clips as [numScenes] counts,
    all of them new, and the old ones have announced that they are
    destroyed. *)
Lemma Track_refreshClips_eq (self : ref) (t : Track) (st : State) :
  tracks st !! self = Some t ->
  events (Track_refreshClips self st) =
    (events st ++
       ((fun clip => mkEvent (clip_emitter clip) "destroy" None) <$> t_clips t))%list /\
  tracks (Track_refreshClips self st) =
    alter (set_t_clips (seq (length (clips st)) (loop_bound (t_numScenes t)))) self (tracks st).
Proof.
  intros Ht. unfold Track_refreshClips. rewrite Ht.
  destruct (Clip_destroy_fold (t_clips t) st) as (He & Htr & Hc).
  set (st1 := foldl _ st (t_clips t)) in *.
  destruct (refreshClips_loop self (t_id t) (loop_bound (t_numScenes t))
              (upd_track self (set_t_clips []) st1)) as (He' & _ & Htr').
  { intros t0. unfold upd_track, set_tracks. cbn. rewrite list_lookup_alter_eq.
    destruct (tracks st1 !! self); simpl; [intros [= <-]; reflexivity | discriminate]. }
  cbv zeta in He', Htr' |- *. rewrite He', Htr'.
  unfold upd_track, set_tracks. cbn. rewrite He, Htr, Hc.
  split; [reflexivity |]. rewrite list_alter_alter_eq. apply list_alter_ext; reflexivity.
Qed.

Lemma Track_emitEvent_eq (self : ref) (t : Track) (ev : string) (params : object)
    (st : State) :
  tracks st !! self = Some t ->
  Track_emitEvent self ev (Some params) st =
    set_events (events st ++
      [mkEvent (track_emitter self) ev (Some params);
       mkEvent song_emitter ("track:" ++ ev) (Some (extend [("id", t_id t)] (Some params)))])
      st.
Proof.
  intros Ht. unfold Track_emitEvent. rewrite Ht.
  destruct st. unfold emit, set_events. cbn. rewrite <- app_assoc. reflexivity.
Qed.

Lemma Return_emitEvent_eq (self : ref) (r : Return) (ev : string) (params : object)
    (st : State) :
  returns st !! self = Some r ->
  Return_emitEvent self ev (Some params) st =
    set_events (events st ++
      [mkEvent (return_emitter self) ev (Some params);
       mkEvent song_emitter ("return:" ++ ev) (Some (extend [("id", r_id r)] (Some params)))])
      st.
Proof.
  intros Hr. unfold Return_emitEvent. rewrite Hr.
  destruct st. unfold emit, set_events. cbn. rewrite <- app_assoc. reflexivity.
Qed.

Lemma tracks_Track_emitEvent (self : ref) (ev : string) (params : option object)
    (st : State) :
  tracks (Track_emitEvent self ev params st) = tracks st.
Proof. unfold Track_emitEvent. destruct (tracks st !! self); reflexivity. Qed.





(** X5: after [refreshClips] the track holds as many clips as [numScenes]
    counts, every one of them constructed by this call, and each clip it
    held before has announced its end. *)
Theorem Track_refreshClips_rebuilds (self : ref) (t : Track) (st : State) :
  tracks st !! self = Some t ->
  let st' := Track_refreshClips self st in
  t_clips <$> tracks st' !! self =
    Some (seq (length (clips st)) (loop_bound (t_numScenes t))) /\
  events st' =
    events st ++ ((fun clip => mkEvent (clip_emitter clip) "destroy" None) <$> t_clips t).
Proof.
  intros Ht st'. subst st'. destruct (Track_refreshClips_eq self t st Ht) as (He & Htr).
  split; [| exact He]. rewrite Htr, list_lookup_alter_eq, Ht. reflexivity.
Qed.

Lemma remove_last_absent {A} `{EqDecision A} (x : A) (l : list A) :
  x ∉ l -> remove_last x l = l.
Proof.
  induction l as [|y l IH]; simpl; [reflexivity |].
  rewrite not_elem_of_cons. intros [Hne Hx].
  rewrite decide_False by congruence. rewrite IH by exact Hx. reflexivity.
Qed.

Lemma remove_last_app_cons {A} `{EqDecision A} (x : A) (l l' : list A) :
  x ∉ l' -> remove_last x (l ++ x :: l') = l ++ l'.
Proof.
  intros Hx. induction l as [|y l IH]; simpl.
  - rewrite decide_True by reflexivity. rewrite decide_False by exact Hx. reflexivity.
  - rewrite IH. destruct (decide (y = x)) as [-> | Hne]; [| reflexivity].
    rewrite decide_True; [reflexivity |]. apply elem_of_app. right. left.
Qed.

Lemma remove_last_app_cons2 {A} `{EqDecision A} (x y : A) (l l' : list A) :
  x ∉ l' -> remove_last x (l ++ y :: x :: l') = l ++ y :: l'.
Proof.
  intros Hx. rewrite (cons_middle y l (x :: l')), app_assoc, remove_last_app_cons by exact Hx.
  rewrite <- app_assoc. reflexivity.
Qed.

Ltac not_among :=
  let Hin := fresh in
  intros Hin;
  repeat (apply elem_of_cons in Hin as [Hin | Hin]; [discriminate Hin |]);
  apply elem_of_nil in Hin; exact Hin.

Lemma Receiver_eq (r r' : Receiver) :
  listeners r = listeners r' -> rx_volume r = rx_volume r' -> rx_pan r = rx_pan r' ->
  rx_devices r = rx_devices r' -> r = r'.
Proof. destruct r, r'; simpl; congruence. Qed.

Ltac state_fields :=
  cbn [new_Track new_Clip new_Return new_Device fst snd
       on send emit removeListener upd_receiver upd_track upd_return upd_clip upd_device
       upd_song set_receiver set_sent set_events set_tracks set_returns set_clips
       set_devices set_song set_timers
       song tracks returns clips devices receiver sent events timers
       listeners rx_volume rx_pan rx_devices set_listeners].

Lemma Track_new_destroy (id : value) (st : State) :
  let self := (new_Track id st).1 in
  let st' := Track_destroy self (new_Track id st).2 in
  receiver st' = receiver st /\
  events st' = events st ++ [mkEvent (track_emitter self) "destroy" None] /\
  sent st' = sent st ++ [mkMessage "/live/name/track" [int id]; mkMessage "/live/send" [int id]].
Proof.
  intros self st'. subst st'.
  assert (Hself : self = length (tracks st)) by reflexivity.
  set (st1 := (new_Track id st).2).
  assert (Ht : tracks st1 = tracks st ++
    [mkTrack id (VStr "") [] arr_empty [] (num 0) (num 0) (num 0) (num 0) (num 0)
       (num 0) (num 0)]) by reflexivity.
  assert (Hlook : tracks st1 !! self =
    Some (mkTrack id (VStr "") [] arr_empty [] (num 0) (num 0) (num 0) (num 0) (num 0)
       (num 0) (num 0))) by (rewrite Ht; apply list_lookup_middle; reflexivity).
  unfold Track_destroy. state_fields.
  rewrite Hlook. cbn [from_option t_clips foldl]. state_fields.
  rewrite list_lookup_alter_eq, Hlook.
  cbn [from_option t_devices foldl fmap option_fmap option_map set_t_clips].
  state_fields.
  split; [| split].
  - apply Receiver_eq; state_fields; try reflexivity.
    subst st1 self. state_fields. rewrite <- !app_assoc. cbn [app].
    repeat match goal with
    | |- context [remove_last ?x (?l ++ ?x :: ?l')] =>
        rewrite (remove_last_app_cons x l l') by not_among
    end.
    apply app_nil_r.
  - subst st1 self. state_fields. reflexivity.
  - subst st1 self. state_fields. rewrite <- app_assoc. reflexivity.
Qed.

Lemma Clip_new_destroy (track : nat) (id : value) (st : State) :
  let self := (new_Clip track id st).1 in
  let st' := Clip_destroy self (new_Clip track id st).2 in
  receiver st' = receiver st /\
  events st' = events st ++ [mkEvent (clip_emitter self) "destroy" None] /\
  sent st' = sent st.
Proof.
  intros self st'. subst st' self. unfold Clip_destroy.
  split; [| split; state_fields; reflexivity].
  apply Receiver_eq; state_fields; try reflexivity.
  rewrite <- !app_assoc. cbn [app].
  repeat match goal with
  | |- context [remove_last ?x (?l ++ ?x :: ?l')] =>
      rewrite (remove_last_app_cons x l l') by not_among
  end.
  apply app_nil_r.
Qed.

Lemma Device_new_destroy (id : value) (track : owner) (type : devtype) (name : value)
    (st : State) :
  let self := (new_Device id track type name st).1 in
  let st' := Device_destroy self (new_Device id track type name st).2 in
  receiver st' = receiver st /\
  events st' =
    events st ++
    [mkEvent (device_emitter self) "destroy" None;
     mkEvent song_emitter "device:destroy"
       (Some (device_global id type (owner_id track st) []))] /\
  sent st' =
    sent st ++
    [mkMessage (infoAddr type) (device_path track type id st);
     mkMessage (rangeAddr type) (device_path track type id st)].
Proof.
  intros self st'. subst st'.
  set (st1 := (new_Device id track type name st).2).
  assert (Hlook : devices st1 !! self = Some (mkDevice name id track type arr_empty))
    by (apply list_lookup_middle; reflexivity).
  unfold Device_destroy, Device_emitEvent. rewrite Hlook.
  change (strict_eq (VStr "destroy") (VStr "error")) with false.
  cbn [outcome_state d_type d_id d_track].
  split; [| split].
  - apply Receiver_eq; state_fields; try reflexivity.
    subst st1 self. state_fields. rewrite <- !app_assoc. cbn [app].
    rewrite (remove_last_app_cons _ _ _) by not_among.
    rewrite (remove_last_app_cons2 _ _ _ []) by not_among.
    rewrite (remove_last_app_cons _ _ []) by not_among.
    apply app_nil_r.
  - subst st1 self. state_fields. rewrite <- app_assoc. cbn [app]. do 3 f_equal.
    unfold device_global. destruct type, track; reflexivity.
  - subst st1 self. state_fields. rewrite <- app_assoc. reflexivity.
Qed.

Lemma Return_new_destroy (id : value) (st : State) :
  listeners_of "/live/return/devlicelist" st = [] ->
  let self := (new_Return id st).1 in
  let st' := Return_destroy self (new_Return id st).2 in
  receiver st' =
    set_listeners (listeners (receiver st) ++
      [("/live/return/devicelist", return_listener R_devicelistListener self)]) (receiver st) /\
  events st' = events st ++ [mkEvent (return_emitter self) "destroy" None] /\
  sent st' =
    sent st ++ [mkMessage "/live/return/send" [int id]; mkMessage "/live/name/return" [int id]].
Proof.
  intros Hnone self st'. subst st'.
  set (st1 := (new_Return id st).2).
  assert (Hlook : returns st1 !! self =
    Some (mkReturn (VStr "") id (num 0) (num 0) (num 0) (num 0) [] arr_empty))
    by (apply list_lookup_middle; reflexivity).
  unfold Return_destroy. state_fields.
  rewrite Hlook. cbn [from_option r_devices foldl]. state_fields.
  split; [| split].
  - apply Receiver_eq; state_fields; try reflexivity.
    subst st1 self. state_fields. rewrite <- !app_assoc. cbn [app].
    do 6 (rewrite (remove_last_app_cons _ _ _) by not_among).
    rewrite (remove_last_absent ("/live/return/devlicelist", _)).
    + rewrite (remove_last_app_cons2 _ _ _ []) by not_among. reflexivity.
    + rewrite elem_of_app. intros [Hin | Hin].
      * apply elem_of_listeners_of in Hin. rewrite Hnone in Hin.
        apply elem_of_nil in Hin. exact Hin.
      * revert Hin. not_among.
  - subst st1 self. state_fields. reflexivity.
  - subst st1 self. state_fields. rewrite <- app_assoc. reflexivity.
Qed.

(** X6: a track, a clip or a device that is destroyed right after it was
    constructed leaves the receiver as it was before the construction,
    whatever listeners the receiver holds: [destroy] takes from the
    receiver exactly the listeners the constructor added.  The track and the
    clip have announced [destroy], the device [destroy] and, on the song,
    [device:destroy]; the requests of the constructor have been sent. *)
Theorem new_then_destroy_restores_receiver :
  (forall id st,
     let self := (new_Track id st).1 in
     let st' := Track_destroy self (new_Track id st).2 in
     receiver st' = receiver st /\
     events st' = events st ++ [mkEvent (track_emitter self) "destroy" None] /\
     sent st' =
       sent st ++
       [mkMessage "/live/name/track" [int id]; mkMessage "/live/send" [int id]])
  /\
  (forall track id st,
     let self := (new_Clip track id st).1 in
     let st' := Clip_destroy self (new_Clip track id st).2 in
     receiver st' = receiver st /\
     events st' = events st ++ [mkEvent (clip_emitter self) "destroy" None] /\
     sent st' = sent st)
  /\
  (forall id track type name st,
     let self := (new_Device id track type name st).1 in
     let st' := Device_destroy self (new_Device id track type name st).2 in
     receiver st' = receiver st /\
     events st' =
       events st ++
       [mkEvent (device_emitter self) "destroy" None;
        mkEvent song_emitter "device:destroy"
          (Some (device_global id type (owner_id track st) []))] /\
     sent st' =
       sent st ++
       [mkMessage (infoAddr type) (device_path track type id st);
        mkMessage (rangeAddr type) (device_path track type id st)]).
Proof.
  split; [exact Track_new_destroy |]. split; [exact Clip_new_destroy | exact Device_new_destroy].
Qed.

(** X7: a return that is destroyed right after it was constructed leaves
    one listener more with the receiver than there was, its
    [devicelistListener] under [/live/return/devicelist]: [destroy] looks
    for it under [/live/return/devlicelist], where the receiver is taken to
    hold nothing. *)
Theorem Return_new_then_destroy_leaves_a_listener (id : value) (st : State) :
  listeners_of "/live/return/devlicelist" st = [] ->
  let self := (new_Return id st).1 in
  let st' := Return_destroy self (new_Return id st).2 in
  receiver st' =
    set_listeners (listeners (receiver st) ++
      [("/live/return/devicelist", return_listener R_devicelistListener self)]) (receiver st) /\
  events st' = events st ++ [mkEvent (return_emitter self) "destroy" None] /\
  sent st' =
    sent st ++ [mkMessage "/live/return/send" [int id]; mkMessage "/live/name/return" [int id]].
Proof. exact (Return_new_destroy id st). Qed.


(** ** The listeners of one field *)

Lemma Clip_emitEvent_eq (self : ref) (c : Clip) (ev : string) (v prev : value) (st : State) :
  clips st !! self = Some c ->
  Clip_emitEvent self ev (Some [("value", v); ("prev", prev)]) st =
    set_events (events st ++ clip_events self (c_id c) (track_id (c_track c) st) ev v prev) st.
Proof.
  intros Hc. unfold Clip_emitEvent. rewrite Hc.
  destruct st. unfold emit, set_events. cbn. rewrite <- app_assoc. reflexivity.
Qed.

Lemma Clip_mine (c : Clip) (args : list value) (st : State) :
  path_matches [track_id (c_track c) st; c_id c] args = true ->
  Clip_not_mine c (arg 0 args) (arg 1 args) st = false.
Proof.
  simpl. rewrite andb_true_r, arg_tail, andb_true_iff. intros [Ht Hc].
  unfold Clip_not_mine, loose_neq.
  rewrite (loose_eq_sym (track_id (c_track c) st)), (loose_eq_sym (c_id c)), Ht, Hc.
  reflexivity.
Qed.





(** The [prev] of the [i]-th of the notifications [vs] of a field that held
    [v0]: what the notification before it brought. *)
Lemma imap_prev_cons {B} (g : value -> value -> B) (v0 v : value) (vs : list value) :
  imap (fun i x => g x (match i with O => v | S j => default v (vs !! j) end)) vs =
  imap ((fun i x => g x (match i with O => v0 | S j => default v0 ((v :: vs) !! j) end)) ∘ S) vs.
Proof.
  apply imap_ext. intros i x Hx. unfold compose. destruct i as [|i]; [reflexivity |].
  change ((v :: vs) !! S i) with (vs !! i).
  apply lookup_lt_Some in Hx.
  destruct (lookup_lt_is_Some_2 vs i) as [y Hy]; [lia |].
  rewrite Hy. reflexivity.
Qed.

Lemma last_cons_default {A} (d x : A) (l : list A) :
  default d (last (x :: l)) = default x (last l).
Proof.
  destruct l as [|y l]; [reflexivity |].
  change (last (x :: y :: l)) with (last (y :: l)).
  destruct (last (y :: l)) eqn:E; [reflexivity |].
  apply last_None in E. discriminate E.
Qed.

Lemma Song_field_step (f : song_fn) (name : string) (get : Song -> value) (v : value)
    (st : State) :
  song_field f = Some (name, get) ->
  let st' := call (song_listener f) [v] st in
  events st' =
    events st ++ [mkEvent song_emitter name (Some [("value", v); ("prev", get (song st))])] /\
  get (song st') = v /\
  (forall f' name' get', song_field f' = Some (name', get') -> f' <> f ->
     get' (song st') = get' (song st)) /\
  s_tracks (song st') = s_tracks (song st) /\
  s_returns (song st') = s_returns (song st) /\
  s_devices (song st') = s_devices (song st) /\
  sent st' = sent st /\ receiver st' = receiver st /\ tracks st' = tracks st /\
  returns st' = returns st /\ clips st' = clips st /\ devices st' = devices st.
Proof.
  intros Hf.
  destruct f; try discriminate Hf; injection Hf as <- <-; unfold call; cbn [call_outcome outcome_state];
    unfold Song_playListener, Song_beatListener, Song_tempoListener, Song_sceneListener,
      Song_volumeListener, Song_panListener, arg; cbn [lookup list_lookup default];
    cbv zeta; state_fields;
    repeat (split; [reflexivity |]); (split; [| repeat split]);
    intros f' name' get' Hf' Hne;
    destruct f'; try discriminate Hf'; try congruence;
    injection Hf' as <- <-; reflexivity.
Qed.

(** X9: the song takes every notification of its play state, beat, tempo,
    scene, volume and pan, whatever it carries.  A run of them is announced
    by one event each, on the song only, whose [prev] is what the
    notification before it brought (for the first, the stored value), and
    the field ends with the last value; the other fields, the entities, the
    listeners and the messages sent stay as they were. *)
Theorem Song_field_notifications (f : song_fn) (name : string) (get : Song -> value)
    (vs : list value) :
  song_field f = Some (name, get) ->
  forall st : State,
  let st' := foldl (fun st v => call (song_listener f) [v] st) st vs in
  events st' =
    events st ++
    imap (fun i v =>
      mkEvent song_emitter name
        (Some [("value", v);
               ("prev", match i with
                        | O => get (song st)
                        | S j => default (get (song st)) (vs !! j)
                        end)])) vs /\
  get (song st') = default (get (song st)) (last vs) /\
  (forall f' name' get', song_field f' = Some (name', get') -> f' <> f ->
     get' (song st') = get' (song st)) /\
  s_tracks (song st') = s_tracks (song st) /\
  s_returns (song st') = s_returns (song st) /\
  s_devices (song st') = s_devices (song st) /\
  sent st' = sent st /\ receiver st' = receiver st /\ tracks st' = tracks st /\
  returns st' = returns st /\ clips st' = clips st /\ devices st' = devices st.
Proof.
  intros Hf. induction vs as [|v vs IH]; intros st.
  - cbn. rewrite app_nil_r. repeat split.
  - cbn [foldl]. cbv zeta.
    destruct (Song_field_step f name get v st Hf)
      as (He & Hg & Ho & Hst & Hsr & Hsd & Hs & Hr & Ht & Hre & Hc & Hd).
    destruct (IH (call (song_listener f) [v] st))
      as (He' & Hg' & Ho' & Hst' & Hsr' & Hsd' & Hs' & Hr' & Ht' & Hre' & Hc' & Hd').
    rewrite He', Hg', Hst', Hsr', Hsd', Hs', Hr', Ht', Hre', Hc', Hd'.
    rewrite He, Hg, Hst, Hsr, Hsd, Hs, Hr, Ht, Hre, Hc, Hd.
    split; [| split; [| split; [| repeat split]]].
    + rewrite <- app_assoc. cbn [app imap]. do 2 f_equal.
      apply (imap_prev_cons
        (fun x p => mkEvent song_emitter name (Some [("value", x); ("prev", p)]))).
    + symmetry. apply last_cons_default.
    + intros f' name' get' Hf' Hne. rewrite (Ho' f' name' get' Hf' Hne).
      apply (Ho f' name' get' Hf' Hne).
Qed.

(** ** The pitch and the info of a clip *)

Lemma Clip_pitch_notification (self : ref) (c : Clip) (args : list value) (st : State) :
  clips st !! self = Some c ->
  path_matches [track_id (c_track c) st; c_id c] args = true ->
  let st' := Clip_pitchListener self args st in
  let announce := clip_events self (c_id c) (track_id (c_track c) st) in
  events st' =
    events st ++
    announce "coarse" (arg 2 args) (c_coarse c) ++ announce "fine" (arg 3 args) (c_fine c) /\
  (fun c' => (c_coarse c', c_fine c')) <$> clips st' !! self =
    Some (if truthy (arg 2 args) then arg 2 args else num 0,
          if truthy (arg 3 args) then arg 3 args else num 0) /\
  sent st' = sent st /\ receiver st' = receiver st.
Proof.
  intros Hc Hpath. apply Clip_mine in Hpath.
  unfold Clip_pitchListener. rewrite Hc. cbv zeta. rewrite Hpath.
  rewrite (Clip_emitEvent_eq self c _ _ _ st) by exact Hc.
  rewrite (Clip_emitEvent_eq self c) by exact Hc.
  state_fields. rewrite !list_lookup_alter_eq, Hc.
  split; [rewrite <- app_assoc; reflexivity |]. repeat split.
Qed.

(** X10: a pitch notification for a clip announces [coarse] and then
    [fine], each on the clip and on the song, with the received values as
    they came and the stored ones as [prev]; what it stores is the received
    value, or 0 when that is missing or falsy.  [setPitch] on a clip of an
    audio track sends the coarse pitch as given and 0 for a fine pitch that
    is missing or falsy. *)
Theorem Clip_pitch_defaults_to_zero :
  (forall self c args st,
     clips st !! self = Some c ->
     path_matches [track_id (c_track c) st; c_id c] args = true ->
     let st' := Clip_pitchListener self args st in
     let announce := clip_events self (c_id c) (track_id (c_track c) st) in
     events st' =
       events st ++
       announce "coarse" (arg 2 args) (c_coarse c) ++ announce "fine" (arg 3 args) (c_fine c) /\
     (fun c' => (c_coarse c', c_fine c')) <$> clips st' !! self =
       Some (if truthy (arg 2 args) then arg 2 args else num 0,
             if truthy (arg 3 args) then arg 3 args else num 0) /\
     sent st' = sent st /\ receiver st' = receiver st)
  /\
  (forall self c coarse fine st,
     clips st !! self = Some c ->
     truthy (track_audio (c_track c) st) = true ->
     Clip_setPitch self coarse fine st =
       set_sent (sent st ++
         [mkMessage "/live/pitch"
            [mkArg integer (track_id (c_track c) st); mkArg integer (c_id c);
             mkArg integer coarse;
             mkArg integer (if truthy fine then fine else num 0)]]) st).
Proof.
  split; [exact Clip_pitch_notification |].
  intros self c coarse fine st Hc Haudio.
  unfold Clip_setPitch. rewrite Hc, Haudio. reflexivity.
Qed.

Lemma Clip_info_notification (self : ref) (c : Clip) (args : list value) (st : State) :
  clips st !! self = Some c ->
  path_matches [track_id (c_track c) st; c_id c] args = true ->
  let st' := Clip_clipinfoListener self args st in
  let path := [mkArg integer (track_id (c_track c) st); mkArg integer (c_id c)] in
  events st' =
    events st ++
    clip_events self (c_id c) (track_id (c_track c) st) "state" (arg 2 args) (c_state c) /\
  (fun c' => (c_track c', c_id c', c_state c', c_length c')) <$> clips st' !! self =
    Some (c_track c, c_id c, arg 2 args, arg 3 args) /\
  tracks st' = tracks st /\
  (gt_zero (arg 2 args) = true ->
     c_name <$> clips st' !! self = Some (c_name c) /\
     sent st' =
       sent st ++
       [mkMessage "/live/clip/loopstart" path; mkMessage "/live/clip/loopend" path;
        mkMessage "/live/clip/loopstate" path] ++
       (if truthy (track_audio (c_track c) st)
        then [mkMessage "/live/clip/warping" path; mkMessage "/live/pitch" path] else []) ++
       (if strict_eq (c_name c) (VBool false)
        then [mkMessage "/live/name/clip" path] else [])) /\
  (gt_zero (arg 2 args) = false ->
     c_name <$> clips st' !! self = Some (VStr "") /\ sent st' = sent st).
Proof.
  intros Hc Hpath. apply Clip_mine in Hpath.
  unfold Clip_clipinfoListener. rewrite Hc. cbv zeta. rewrite Hpath.
  rewrite (Clip_emitEvent_eq self c) by exact Hc.
  destruct (gt_zero (arg 2 args)).
  - unfold Clip_refresh. state_fields. rewrite !list_lookup_alter_eq, Hc.
    cbn [fmap option_fmap option_map c_track c_id c_name set_c_state set_c_length].
    unfold track_id, track_audio. state_fields.
    fold (track_id (c_track c) st). fold (track_audio (c_track c) st).
    destruct (truthy (track_audio (c_track c) st)), (strict_eq (c_name c) (VBool false));
      state_fields; rewrite !list_lookup_alter_eq, Hc;
      (split; [reflexivity |]); (split; [reflexivity |]); (split; [reflexivity |]);
      (split; [| discriminate]); intros _; (split; [reflexivity |]);
      rewrite <- ?app_assoc; reflexivity.
  - state_fields. rewrite !list_lookup_alter_eq, Hc.
    split; [reflexivity |]. split; [reflexivity |]. split; [reflexivity |].
    split; [discriminate |]. intros _. split; reflexivity.
Qed.

(** X11: an info notification for a clip announces its state and stores
    the state and the length.  With a state above 0 the clip asks Live for
    its loop start, loop end and loop state, on an audio track also for its
    warping and pitch, and for its name only while the name is still the
    [false] it was constructed with.  With any other state the name becomes
    the empty string and nothing is asked.  So, on one and the same clip
    object, an info notification that comes right after one with a state not
    above 0 asks for no name.  (A slot that is rebuilt in between holds a
    new clip, whose name is [false] again: such a clip does ask for its
    name when it is reported with a state above 0.) *)
Theorem Clip_info_requests :
  (forall self c args st,
     clips st !! self = Some c ->
     path_matches [track_id (c_track c) st; c_id c] args = true ->
     let st' := Clip_clipinfoListener self args st in
     let path := [mkArg integer (track_id (c_track c) st); mkArg integer (c_id c)] in
     events st' =
       events st ++
       clip_events self (c_id c) (track_id (c_track c) st) "state" (arg 2 args) (c_state c) /\
     (fun c' => (c_track c', c_id c', c_state c', c_length c')) <$> clips st' !! self =
       Some (c_track c, c_id c, arg 2 args, arg 3 args) /\
     tracks st' = tracks st /\
     (gt_zero (arg 2 args) = true ->
        c_name <$> clips st' !! self = Some (c_name c) /\
        sent st' =
          sent st ++
          [mkMessage "/live/clip/loopstart" path; mkMessage "/live/clip/loopend" path;
           mkMessage "/live/clip/loopstate" path] ++
          (if truthy (track_audio (c_track c) st)
           then [mkMessage "/live/clip/warping" path; mkMessage "/live/pitch" path] else []) ++
          (if strict_eq (c_name c) (VBool false)
           then [mkMessage "/live/name/clip" path] else [])) /\
     (gt_zero (arg 2 args) = false ->
        c_name <$> clips st' !! self = Some (VStr "") /\ sent st' = sent st))
  /\
  (forall self c emptied filled st,
     clips st !! self = Some c ->
     path_matches [track_id (c_track c) st; c_id c] emptied = true ->
     path_matches [track_id (c_track c) st; c_id c] filled = true ->
     gt_zero (arg 2 emptied) = false ->
     let st' := Clip_clipinfoListener self filled (Clip_clipinfoListener self emptied st) in
     forall m, m ∈ drop (length (sent st)) (sent st') -> address m <> "/live/name/clip")
  /\
  (forall self c args st,
     clips st !! self = Some c ->
     path_matches [track_id (c_track c) st; c_id c] args = true ->
     gt_zero (arg 2 args) = true ->
     c_name c = VBool false ->
     mkMessage "/live/name/clip"
       [mkArg integer (track_id (c_track c) st); mkArg integer (c_id c)]
       ∈ drop (length (sent st)) (sent (Clip_clipinfoListener self args st))).
Proof.
  split; [exact Clip_info_notification |].
  split; cycle 1.
  { intros self c args st Hc Hpath Hpos Hname.
    destruct (Clip_info_notification self c args st Hc Hpath) as (_ & _ & _ & Hfill & _).
    destruct (Hfill Hpos) as [_ ->]. rewrite drop_app_length, Hname.
    rewrite !elem_of_app. right. right. left. }
  intros self c emptied filled st Hc Hemptied Hfilled Hzero st' m.
  destruct (Clip_info_notification self c emptied st Hc Hemptied)
    as (_ & Hc1 & Ht1 & _ & Hempty).
  destruct (Hempty Hzero) as [Hname1 Hsent1]. clear Hempty.
  set (st1 := Clip_clipinfoListener self emptied st) in *.
  destruct (clips st1 !! self) as [c1|] eqn:Hlook; [| discriminate Hc1].
  injection Hc1 as Htr Hid _ _. injection Hname1 as Hname.
  assert (Htid : track_id (c_track c1) st1 = track_id (c_track c) st)
    by (unfold track_id; rewrite Ht1, Htr; reflexivity).
  assert (Haudio : track_audio (c_track c1) st1 = track_audio (c_track c) st)
    by (unfold track_audio; rewrite Ht1, Htr; reflexivity).
  rewrite <- Htid, <- Hid in Hfilled.
  destruct (Clip_info_notification self c1 filled st1 Hlook Hfilled)
    as (_ & _ & _ & Hfill & Hempty).
  subst st'. destruct (gt_zero (arg 2 filled)).
  - destruct (Hfill eq_refl) as [_ ->]. rewrite Hsent1, drop_app_length, Hname, Haudio.
    cbn [strict_eq app]. rewrite app_nil_r.
    destruct (truthy (track_audio (c_track c) st)); cbn [app]; intros Hm;
      repeat (apply elem_of_cons in Hm as [-> | Hm]; [discriminate |]);
      apply elem_of_nil in Hm; contradiction.
  - destruct (Hempty eq_refl) as [_ ->]. rewrite Hsent1, drop_all.
    intros Hm. apply elem_of_nil in Hm. contradiction.
Qed.

Lemma Clip_name_stored (self : ref) (c : Clip) (args : list value) (st : State) :
  clips st !! self = Some c ->
  path_matches [track_id (c_track c) st; c_id c] args = true ->
  let st' := Clip_clipnameListener self args st in
  events st' =
    events st ++
    clip_events self (c_id c) (track_id (c_track c) st) "name" (arg 2 args) (c_name c) /\
  (fun c' => (c_track c', c_id c', c_name c')) <$> clips st' !! self =
    Some (c_track c, c_id c, arg 2 args) /\
  tracks st' = tracks st /\
  sent st' =
    sent st ++
    [mkMessage "/live/clip/info"
       [mkArg integer (track_id (c_track c) st); mkArg integer (c_id c)]].
Proof.
  intros Hc Hpath. apply Clip_mine in Hpath.
  unfold Clip_clipnameListener. rewrite Hc. cbv zeta. rewrite Hpath.
  rewrite (Clip_emitEvent_eq self c) by exact Hc.
  state_fields. rewrite list_lookup_alter_eq, Hc. repeat split.
Qed.

(** X22: a name notification for a clip announces the name with the stored
    one as [prev], stores it and asks Live for the info of the slot.  When
    the name it brought is not [false], the info notification that answers
    does not ask for the name again: the two requests do not feed each
    other. *)
Theorem Clip_name_is_asked_once :
  (forall self c args st,
     clips st !! self = Some c ->
     path_matches [track_id (c_track c) st; c_id c] args = true ->
     let st' := Clip_clipnameListener self args st in
     events st' =
       events st ++
       clip_events self (c_id c) (track_id (c_track c) st) "name" (arg 2 args) (c_name c) /\
     (fun c' => (c_track c', c_id c', c_name c')) <$> clips st' !! self =
       Some (c_track c, c_id c, arg 2 args) /\
     tracks st' = tracks st /\
     sent st' =
       sent st ++
       [mkMessage "/live/clip/info"
          [mkArg integer (track_id (c_track c) st); mkArg integer (c_id c)]])
  /\
  (forall self c named info st,
     clips st !! self = Some c ->
     path_matches [track_id (c_track c) st; c_id c] named = true ->
     path_matches [track_id (c_track c) st; c_id c] info = true ->
     strict_eq (arg 2 named) (VBool false) = false ->
     let st' := Clip_clipinfoListener self info (Clip_clipnameListener self named st) in
     forall m, m ∈ drop (length (sent st)) (sent st') -> address m <> "/live/name/clip").
Proof.
  split; [exact Clip_name_stored |].
  intros self c named info st Hc Hnamed Hinfo Hname st' m.
  destruct (Clip_name_stored self c named st Hc Hnamed) as (_ & Hc1 & Ht1 & Hsent1).
  cbv zeta in Hc1, Ht1, Hsent1.
  set (st1 := Clip_clipnameListener self named st) in *.
  destruct (clips st1 !! self) as [c1|] eqn:Hlook; [| discriminate Hc1].
  injection Hc1 as Htr Hid Hnm.
  assert (Htid : track_id (c_track c1) st1 = track_id (c_track c) st)
    by (unfold track_id; rewrite Ht1, Htr; reflexivity).
  assert (Haudio : track_audio (c_track c1) st1 = track_audio (c_track c) st)
    by (unfold track_audio; rewrite Ht1, Htr; reflexivity).
  rewrite <- Htid, <- Hid in Hinfo.
  destruct (Clip_info_notification self c1 info st1 Hlook Hinfo)
    as (_ & _ & _ & Hfill & Hempty).
  subst st'. destruct (gt_zero (arg 2 info)).
  - destruct (Hfill eq_refl) as [_ ->].
    rewrite Hsent1, <- app_assoc, drop_app_length, Hnm, Hname, Haudio.
    cbn [app]. rewrite app_nil_r.
    destruct (truthy (track_audio (c_track c) st)); cbn [app]; intros Hm;
      repeat (apply elem_of_cons in Hm as [-> | Hm]; [discriminate |]);
      apply elem_of_nil in Hm; contradiction.
  - destruct (Hempty eq_refl) as [_ ->]. rewrite Hsent1, drop_app_length.
    intros Hm. apply list_elem_of_singleton in Hm. subst m. discriminate.
Qed.

(** ** A name notification and the devices *)

Lemma Device_destroy_eq (self : ref) (st : State) :
  events (Device_destroy self st) = events st ++ device_destroy_events self st /\
  listeners (receiver (Device_destroy self st)) =
    match devices st !! self with
    | None => listeners (receiver st)
    | Some d =>
        remove_last (allParamAddr (d_type d), device_listener D_allParamListener self)
          (remove_last (paramAddr (d_type d), device_listener D_paramListener self)
            (remove_last (rangeAddr (d_type d), device_listener D_rangeListener self)
              (listeners (receiver st))))
    end /\
  rx_volume (receiver (Device_destroy self st)) = rx_volume (receiver st) /\
  rx_pan (receiver (Device_destroy self st)) = rx_pan (receiver st) /\
  rx_devices (receiver (Device_destroy self st)) = rx_devices (receiver st) /\
  song (Device_destroy self st) = song st /\
  tracks (Device_destroy self st) = tracks st /\
  returns (Device_destroy self st) = returns st /\
  clips (Device_destroy self st) = clips st /\
  devices (Device_destroy self st) = devices st /\
  sent (Device_destroy self st) = sent st /\
  timers (Device_destroy self st) = timers st.
Proof.
  unfold Device_destroy, Device_emitEvent, device_destroy_events.
  destruct (devices st !! self) as [d|].
  - change (strict_eq (VStr "destroy") (VStr "error")) with false.
    cbn [outcome_state]. state_fields. split; [| repeat split].
    rewrite <- app_assoc. cbn [app]. do 3 f_equal.
    unfold device_global. destruct (d_type d), (d_track d); reflexivity.
  - rewrite app_nil_r. repeat split.
Qed.

Lemma Device_destroy_fold (ds : list ref) :
  forall st,
  let st' := foldl (fun st device => Device_destroy device st) st ds in
  events st' = events st ++ concat ((fun d => device_destroy_events d st) <$> ds) /\
  rx_volume (receiver st') = rx_volume (receiver st) /\
  rx_pan (receiver st') = rx_pan (receiver st) /\
  rx_devices (receiver st') = rx_devices (receiver st) /\
  song st' = song st /\ tracks st' = tracks st /\ returns st' = returns st /\
  clips st' = clips st /\ devices st' = devices st /\ sent st' = sent st /\
  timers st' = timers st.
Proof.
  induction ds as [|d ds IH]; intros st; cbn [foldl fmap list_fmap concat].
  - rewrite app_nil_r. repeat split.
  - destruct (Device_destroy_eq d st)
      as (He & _ & Hv & Hp & Hrd & Hsg & Ht & Hr & Hc & Hd & Hs & Htm).
    destruct (IH (Device_destroy d st))
      as (He' & Hv' & Hp' & Hrd' & Hsg' & Ht' & Hr' & Hc' & Hd' & Hs' & Htm').
    cbv zeta in *.
    rewrite He', Hv', Hp', Hrd', Hsg', Ht', Hr', Hc', Hd', Hs', Htm'.
    rewrite He, Hv, Hp, Hrd, Hsg, Ht, Hr, Hc, Hd, Hs, Htm.
    split; [| repeat split].
    rewrite <- app_assoc. do 2 f_equal. f_equal.
    apply list_fmap_ext. intros _ d' _. unfold device_destroy_events.
    rewrite Hd. destruct (devices st !! d') as [dev|]; [| reflexivity].
    rewrite (owner_id_frame (d_track dev) st (Device_destroy d st) Ht Hr). reflexivity.
Qed.

Lemma NoDup_Device_destroy (self : ref) (st : State) :
  NoDup (listeners (receiver st)) -> NoDup (listeners (receiver (Device_destroy self st))).
Proof.
  intros Hnodup. destruct (Device_destroy_eq self st) as (_ & -> & _).
  destruct (devices st !! self); [| exact Hnodup].
  repeat apply NoDup_remove_last. exact Hnodup.
Qed.

Lemma Device_destroy_unlistens (self : ref) (st : State) :
  NoDup (listeners (receiver st)) ->
  (forall addr f, (addr, device_listener f self) ∈ listeners (receiver st) ->
     exists d, devices st !! self = Some d /\ addr = device_address (d_type d) f) ->
  forall addr f, (addr, device_listener f self) ∉ listeners (receiver (Device_destroy self st)).
Proof.
  intros Hnodup Haddr addr f Hin.
  destruct (Haddr addr f) as (d & Hd & ->);
    [apply (listeners_Device_destroy_subseteq self); exact Hin |].
  revert Hin. destruct (Device_destroy_eq self st) as (_ & -> & _). rewrite Hd.
  destruct f; simpl;
    repeat first
      [ apply not_elem_of_remove_last; repeat apply NoDup_remove_last; exact Hnodup
      | let Hin := fresh in intros Hin; apply elem_of_remove_last in Hin; revert Hin ].
Qed.

Lemma Device_destroy_fold_unlistens (ds : list ref) :
  forall st,
  NoDup (listeners (receiver st)) ->
  (forall d addr f, d ∈ ds -> (addr, device_listener f d) ∈ listeners (receiver st) ->
     exists dev, devices st !! d = Some dev /\ addr = device_address (d_type dev) f) ->
  forall d addr f, d ∈ ds ->
    (addr, device_listener f d) ∉
      listeners (receiver (foldl (fun st device => Device_destroy device st) st ds)).
Proof.
  induction ds as [|d0 ds IH]; intros st Hnodup Haddr d addr f Hd; cbn [foldl].
  - apply elem_of_nil in Hd. contradiction.
  - destruct (decide (d = d0)) as [-> | Hne].
    + intros Hin.
      apply (listeners_foldl_subseteq Device_destroy) in Hin;
        [| intros r s; apply listeners_Device_destroy_subseteq].
      revert Hin. apply Device_destroy_unlistens; [exact Hnodup |].
      intros a g. apply Haddr. left.
    + apply IH.
      * apply NoDup_Device_destroy. exact Hnodup.
      * intros d' a g Hd' Hin. apply listeners_Device_destroy_subseteq in Hin.
        destruct (Device_destroy_eq d0 st) as (_ & _ & _ & _ & _ & _ & _ & _ & _ & -> & _).
        apply (Haddr d' a g); [right; exact Hd' | exact Hin].
      * apply elem_of_cons in Hd as [-> | Hd]; [congruence | exact Hd].
Qed.

Lemma owner_id_set_t_name (o : owner) (self : ref) (name : value) (st : State) :
  owner_id o (upd_track self (set_t_name name) st) = owner_id o st.
Proof.
  destruct o as [r | r |]; [| reflexivity | reflexivity].
  unfold owner_id. state_fields.
  destruct (decide (r = self)) as [-> | Hne].
  - rewrite list_lookup_alter_eq. destruct (tracks st !! self); reflexivity.
  - rewrite list_lookup_alter_ne by congruence. reflexivity.
Qed.

Lemma owner_id_set_r_name (o : owner) (self : ref) (name : value) (st : State) :
  owner_id o (upd_return self (set_r_name name) st) = owner_id o st.
Proof.
  destruct o as [r | r |]; [reflexivity | | reflexivity].
  unfold owner_id. state_fields.
  destruct (decide (r = self)) as [-> | Hne].
  - rewrite list_lookup_alter_eq. destruct (returns st !! self); reflexivity.
  - rewrite list_lookup_alter_ne by congruence. reflexivity.
Qed.

Lemma device_destroy_events_frame (d : ref) (st st' : State) :
  devices st' = devices st ->
  (forall o, owner_id o st' = owner_id o st) ->
  device_destroy_events d st' = device_destroy_events d st.
Proof.
  intros Hd Ho. unfold device_destroy_events. rewrite Hd.
  destruct (devices st !! d) as [dev|]; [| reflexivity]. rewrite Ho. reflexivity.
Qed.

Lemma Track_name_notification (self : ref) (t : Track) (args : list value) (st : State) :
  tracks st !! self = Some t ->
  loose_eq (arg 0 args) (t_id t) = true ->
  let st' := Track_nameListener self args st in
  events st' =
    events st ++
    change_events (track_emitter self) "track" (t_id t) "name" (arg 1 args) (t_name t) ++
    concat ((fun d => device_destroy_events d st) <$> t_devices t) /\
  (fun t' => (t_name t', t_devices t')) <$> tracks st' !! self = Some (arg 1 args, []) /\
  sent st' =
    sent st ++
    [mkMessage "/live/scenes" [];
     mkMessage "/live/track/info" [mkArg integer (t_id t)];
     mkMessage "/live/devicelist" [mkArg integer (t_id t)]] /\
  (NoDup (listeners (receiver st)) ->
   (forall d addr f, d ∈ t_devices t -> (addr, device_listener f d) ∈ listeners (receiver st) ->
      exists dev, devices st !! d = Some dev /\ addr = device_address (d_type dev) f) ->
   forall d addr f, d ∈ t_devices t -> device_listener f d ∉ listeners_of addr st').
Proof.
  intros Ht Hid. unfold Track_nameListener, loose_neq. rewrite Ht, Hid. cbn [negb]. cbv zeta.
  rewrite (Track_emitEvent_eq self t) by exact Ht.
  set (st1 := send "/live/scenes" [] (upd_track self (set_t_name (arg 1 args)) (set_events _ st))).
  destruct (Device_destroy_fold (t_devices t) st1)
    as (He & Hv & Hp & Hrd & Hsg & Htr & Hr & Hc & Hd & Hs & Htm).
  cbv zeta in *. state_fields. rewrite He, Htr, Hs.
  split; [| split; [| split]].
  - subst st1. state_fields. unfold change_events. rewrite <- !app_assoc. cbn [app].
    do 4 f_equal. apply list_fmap_ext. intros _ d _.
    apply device_destroy_events_frame; [reflexivity |].
    intros o. apply (owner_id_set_t_name o self (arg 1 args) st).
  - subst st1. state_fields. rewrite !list_lookup_alter_eq, Ht. reflexivity.
  - subst st1. state_fields. rewrite <- !app_assoc. reflexivity.
  - intros Hnodup Haddr d addr f Hdin. rewrite elem_of_listeners_of. state_fields.
    apply Device_destroy_fold_unlistens; [exact Hnodup | exact Haddr | exact Hdin].
Qed.

Lemma Return_name_notification (self : ref) (r : Return) (args : list value) (st : State) :
  returns st !! self = Some r ->
  loose_eq (arg 0 args) (r_id r) = true ->
  let st' := Return_nameListener self args st in
  events st' =
    events st ++
    change_events (return_emitter self) "return" (r_id r) "name" (arg 1 args) (r_name r) ++
    concat ((fun d => device_destroy_events d st) <$> r_devices r) /\
  (fun r' => (r_name r', r_devices r')) <$> returns st' !! self = Some (arg 1 args, []) /\
  sent st' =
    sent st ++
    [mkMessage "/live/scenes" [];
     mkMessage "/live/return/info" [mkArg integer (r_id r)];
     mkMessage "/live/return/devicelist" [mkArg integer (r_id r)]] /\
  (NoDup (listeners (receiver st)) ->
   (forall d addr f, d ∈ r_devices r -> (addr, device_listener f d) ∈ listeners (receiver st) ->
      exists dev, devices st !! d = Some dev /\ addr = device_address (d_type dev) f) ->
   forall d addr f, d ∈ r_devices r -> device_listener f d ∉ listeners_of addr st').
Proof.
  intros Hr Hid. unfold Return_nameListener, loose_neq. rewrite Hr, Hid. cbn [negb]. cbv zeta.
  rewrite (Return_emitEvent_eq self r) by exact Hr.
  set (st1 := send "/live/scenes" [] (upd_return self (set_r_name (arg 1 args)) (set_events _ st))).
  destruct (Device_destroy_fold (r_devices r) st1)
    as (He & Hv & Hp & Hrd & Hsg & Htr & Hre & Hc & Hd & Hs & Htm).
  cbv zeta in *. state_fields. rewrite He, Hre, Hs.
  split; [| split; [| split]].
  - subst st1. state_fields. unfold change_events. rewrite <- !app_assoc. cbn [app].
    do 4 f_equal. apply list_fmap_ext. intros _ d _.
    apply device_destroy_events_frame; [reflexivity |].
    intros o. apply (owner_id_set_r_name o self (arg 1 args) st).
  - subst st1. state_fields. rewrite !list_lookup_alter_eq, Hr. reflexivity.
  - subst st1. state_fields. rewrite <- !app_assoc. reflexivity.
  - intros Hnodup Haddr d addr f Hdin. rewrite elem_of_listeners_of. state_fields.
    apply Device_destroy_fold_unlistens; [exact Hnodup | exact Haddr | exact Hdin].
Qed.

(** X12: a name notification for a track or a return announces the name
    with the stored one as [prev] and stores it, destroys every device of
    the entity, each announcing its end on the device and on the song, and
    leaves the entity without devices; it then has asked Live for the
    scenes, for the info of the entity and for its device list, in this
    order.  When the receiver held no listener twice and held the listeners
    of these devices where their constructor puts them, it holds none of
    them afterwards. *)
Theorem name_notification_refreshes_devices :
  (forall self t args st,
     tracks st !! self = Some t ->
     loose_eq (arg 0 args) (t_id t) = true ->
     let st' := Track_nameListener self args st in
     events st' =
       events st ++
       change_events (track_emitter self) "track" (t_id t) "name" (arg 1 args) (t_name t) ++
       concat ((fun d => device_destroy_events d st) <$> t_devices t) /\
     (fun t' => (t_name t', t_devices t')) <$> tracks st' !! self = Some (arg 1 args, []) /\
     sent st' =
       sent st ++
       [mkMessage "/live/scenes" [];
        mkMessage "/live/track/info" [mkArg integer (t_id t)];
        mkMessage "/live/devicelist" [mkArg integer (t_id t)]] /\
     (NoDup (listeners (receiver st)) ->
      (forall d addr f, d ∈ t_devices t ->
         (addr, device_listener f d) ∈ listeners (receiver st) ->
         exists dev, devices st !! d = Some dev /\ addr = device_address (d_type dev) f) ->
      forall d addr f, d ∈ t_devices t -> device_listener f d ∉ listeners_of addr st'))
  /\
  (forall self r args st,
     returns st !! self = Some r ->
     loose_eq (arg 0 args) (r_id r) = true ->
     let st' := Return_nameListener self args st in
     events st' =
       events st ++
       change_events (return_emitter self) "return" (r_id r) "name" (arg 1 args) (r_name r) ++
       concat ((fun d => device_destroy_events d st) <$> r_devices r) /\
     (fun r' => (r_name r', r_devices r')) <$> returns st' !! self = Some (arg 1 args, []) /\
     sent st' =
       sent st ++
       [mkMessage "/live/scenes" [];
        mkMessage "/live/return/info" [mkArg integer (r_id r)];
        mkMessage "/live/return/devicelist" [mkArg integer (r_id r)]] /\
     (NoDup (listeners (receiver st)) ->
      (forall d addr f, d ∈ r_devices r ->
         (addr, device_listener f d) ∈ listeners (receiver st) ->
         exists dev, devices st !! d = Some dev /\ addr = device_address (d_type dev) f) ->
      forall d addr f, d ∈ r_devices r -> device_listener f d ∉ listeners_of addr st')).
Proof. split; [exact Track_name_notification | exact Return_name_notification]. Qed.

(** ** The clips of a track and the tracks of the song *)

Lemma new_Clip_eq (track : ref) (id : value) (st : State) :
  (new_Clip track id st).1 = length (clips st) /\
  clips (new_Clip track id st).2 = clips st ++ [Clip_fields track id] /\
  listeners (receiver (new_Clip track id st).2) =
    listeners (receiver st) ++ Clip_listeners (length (clips st)) /\
  rx_volume (receiver (new_Clip track id st).2) = rx_volume (receiver st) /\
  rx_pan (receiver (new_Clip track id st).2) = rx_pan (receiver st) /\
  rx_devices (receiver (new_Clip track id st).2) = rx_devices (receiver st) /\
  song (new_Clip track id st).2 = song st /\
  tracks (new_Clip track id st).2 = tracks st /\
  returns (new_Clip track id st).2 = returns st /\
  devices (new_Clip track id st).2 = devices st /\
  sent (new_Clip track id st).2 = sent st /\
  events (new_Clip track id st).2 = events st /\
  timers (new_Clip track id st).2 = timers st.
Proof.
  state_fields. split; [reflexivity |]. split; [reflexivity |].
  split; [| repeat split]. rewrite <- !app_assoc. reflexivity.
Qed.

Lemma refreshClips_loop_builds (self : ref) (id : value) (n : nat) (st : State) :
  let st' :=
    foldl (fun st i =>
        let '(clip, st) := new_Clip self (num i) st in
        let st := upd_track self (fun t => set_t_clips (write_at i clip (t_clips t)) t) st in
        send "/live/clip/info" [int id; int (num i)] st)
      st (seq 0 n) in
  clips st' = clips st ++ ((fun i => Clip_fields self (num i)) <$> seq 0 n) /\
  sent st' =
    sent st ++ ((fun i => mkMessage "/live/clip/info" [int id; int (num i)]) <$> seq 0 n) /\
  listeners (receiver st') =
    listeners (receiver st) ++
    concat ((fun i => Clip_listeners (length (clips st) + i)) <$> seq 0 n) /\
  song st' = song st /\ returns st' = returns st /\ devices st' = devices st.
Proof.
  induction n as [|n IH]; intros st'.
  - subst st'. cbn. rewrite !app_nil_r. repeat split.
  - subst st'. rewrite !seq_S, foldl_app, !fmap_app, concat_app. cbn [foldl].
    cbv zeta in IH. destruct IH as (Hc & Hs & Hl & Hsg & Hr & Hd).
    set (stn := foldl _ st (seq 0 n)) in *.
    state_fields. rewrite Hc, Hs, Hl, Hsg, Hr, Hd.
    rewrite length_app, length_fmap, length_seq.
    cbn [fmap list_fmap concat Nat.add]. rewrite app_nil_r, <- !app_assoc.
    repeat split.
Qed.

Lemma Clip_destroy_fold_frame (cs : list ref) :
  forall st,
  let st' := foldl (fun st clip => Clip_destroy clip st) st cs in
  sent st' = sent st /\ song st' = song st /\ returns st' = returns st /\
  devices st' = devices st.
Proof.
  induction cs as [|c cs IH]; intros st; cbn [foldl]; [repeat split |].
  destruct (IH (Clip_destroy c st)) as (Hs & Hsg & Hr & Hd). cbv zeta in *.
  rewrite Hs, Hsg, Hr, Hd. unfold Clip_destroy. state_fields. repeat split.
Qed.

Lemma Track_refreshClips_built (self : ref) (t : Track) (st : State) :
  tracks st !! self = Some t ->
  let n := loop_bound (t_numScenes t) in
  let st' := Track_refreshClips self st in
  clips st' = clips st ++ ((fun i => Clip_fields self (num i)) <$> seq 0 n) /\
  sent st' =
    sent st ++
    ((fun i => mkMessage "/live/clip/info" [mkArg integer (t_id t); mkArg integer (num i)])
       <$> seq 0 n) /\
  (forall i f, (i < n)%nat ->
     clip_listener f (length (clips st) + i) ∈ listeners_of (clip_address f) st') /\
  song st' = song st /\ returns st' = returns st /\ devices st' = devices st.
Proof.
  intros Ht n st'. subst st' n. unfold Track_refreshClips. rewrite Ht.
  destruct (Clip_destroy_fold (t_clips t) st) as (_ & _ & Hc).
  destruct (Clip_destroy_fold_frame (t_clips t) st) as (Hs & Hsg & Hr & Hd).
  cbv zeta in *. set (st1 := foldl _ st (t_clips t)) in *.
  destruct (refreshClips_loop_builds self (t_id t) (loop_bound (t_numScenes t))
              (upd_track self (set_t_clips []) st1)) as (Hc' & Hs' & Hl' & Hsg' & Hr' & Hd').
  cbv zeta in *.
  set (st2 := foldl _ (upd_track self (set_t_clips []) st1) _) in *.
  rewrite Hc', Hs', Hsg', Hr', Hd'. state_fields.
  rewrite Hc, Hs, Hsg, Hr, Hd.
  split; [reflexivity |]. split; [reflexivity |]. split; [| repeat split].
  intros i f Hi. apply elem_of_listeners_of. rewrite Hl'. state_fields. rewrite Hc.
  apply elem_of_app. right. apply list_elem_of_In, in_concat.
  exists (Clip_listeners (length (clips st) + i)). split.
  - apply list_elem_of_In, list_elem_of_fmap. exists i. split; [reflexivity |].
    apply elem_of_seq. lia.
  - apply list_elem_of_In. unfold Clip_listeners.
    apply (list_elem_of_fmap_2 (fun f => (clip_address f, clip_listener f _))).
    destruct f; set_solver.
Qed.

(** X13: [refreshClips] constructs the clips of the track slot by slot:
    clip [i] has the id [i], belongs to the track and starts with the name
    [false], its state and every other field 0; the track asks Live for the
    info of each slot in turn, and the seven listeners of each new clip are
    with the receiver afterwards. *)
Theorem Track_refreshClips_builds (self : ref) (t : Track) (st : State) :
  tracks st !! self = Some t ->
  let n := loop_bound (t_numScenes t) in
  let st' := Track_refreshClips self st in
  clips st' = clips st ++ ((fun i => Clip_fields self (num i)) <$> seq 0 n) /\
  sent st' =
    sent st ++
    ((fun i => mkMessage "/live/clip/info" [mkArg integer (t_id t); mkArg integer (num i)])
       <$> seq 0 n) /\
  (forall i f, (i < n)%nat ->
     clip_listener f (length (clips st) + i) ∈ listeners_of (clip_address f) st') /\
  song st' = song st /\ returns st' = returns st /\ devices st' = devices st.
Proof. exact (Track_refreshClips_built self t st). Qed.

Lemma scenes_step (self : ref) (t : Track) (n : value) (st : State) :
  tracks st !! self = Some t ->
  let st' := Track_refreshClips self (Track_setNumScenes self n st) in
  tracks st' =
    alter (fun t => set_t_clips (seq (length (clips st)) (loop_bound n)) (set_t_numScenes n t))
      self (tracks st) /\
  clips st' = clips st ++ ((fun i => Clip_fields self (num i)) <$> seq 0 (loop_bound n)) /\
  song st' = song st.
Proof.
  intros Ht. cbv zeta.
  assert (Ht0 : tracks (Track_setNumScenes self n st) !! self = Some (set_t_numScenes n t)).
  { unfold Track_setNumScenes. state_fields. rewrite list_lookup_alter_eq, Ht. reflexivity. }
  destruct (Track_refreshClips_eq self _ _ Ht0) as (_ & Htr).
  destruct (Track_refreshClips_built self _ _ Ht0) as (Hc & _ & _ & Hsg & _).
  cbv zeta in Hc, Hsg. rewrite Htr, Hc, Hsg.
  unfold Track_setNumScenes. state_fields.
  split; [| split; reflexivity].
  rewrite list_alter_alter_eq. apply list_alter_ext; reflexivity.
Qed.

Lemma scenes_fold (n : value) (ts : list ref) :
  forall st,
  NoDup ts ->
  (forall r, r ∈ ts -> is_Some (tracks st !! r)) ->
  let st' :=
    foldl (fun st track => Track_refreshClips track (Track_setNumScenes track n st)) st ts in
  (forall r, r ∈ ts ->
     exists t cs,
       tracks st !! r = Some t /\
       tracks st' !! r = Some (set_t_clips cs (set_t_numScenes n t)) /\
       length cs = loop_bound n /\
       forall i c, cs !! i = Some c ->
         (length (clips st) <= c)%nat /\ clips st' !! c = Some (Clip_fields r (num i))) /\
  (forall r, r ∉ ts -> tracks st' !! r = tracks st !! r) /\
  (exists more, clips st' = clips st ++ more) /\
  song st' = song st.
Proof.
  induction ts as [|r0 ts IH]; intros st Hnodup Hvalid; cbn [foldl].
  - split; [intros r Hr; apply elem_of_nil in Hr; contradiction |].
    split; [reflexivity |]. split; [exists []; symmetry; apply app_nil_r | reflexivity].
  - apply NoDup_cons in Hnodup as [Hr0 Hnodup].
    destruct (Hvalid r0) as [t0 Ht0]; [left |].
    destruct (scenes_step r0 t0 n st Ht0) as (Htr & Hc & Hsg). cbv zeta in Htr, Hc, Hsg.
    set (st1 := Track_refreshClips r0 (Track_setNumScenes r0 n st)) in *.
    destruct (IH st1 Hnodup) as (Hin & Hout & (more & Hmore) & Hsong).
    { intros r Hr. rewrite Htr. apply lookup_lt_is_Some. rewrite length_alter.
      apply lookup_lt_is_Some. apply Hvalid. right. exact Hr. }
    cbv zeta in *. split; [| split; [| split]].
    + intros r Hr. apply elem_of_cons in Hr as [-> | Hr].
      * exists t0, (seq (length (clips st)) (loop_bound n)).
        split; [exact Ht0 |].
        split; [rewrite (Hout r0 Hr0), Htr, list_lookup_alter_eq, Ht0; reflexivity |].
        split; [apply length_seq |].
        intros i c Hi. apply lookup_seq in Hi as [-> Hi].
        split; [lia |]. rewrite Hmore, Hc.
        rewrite lookup_app_l by (rewrite length_app, length_fmap, length_seq; lia).
        rewrite lookup_app_r by lia.
        replace (length (clips st) + i - length (clips st))%nat with i by lia.
        rewrite list_lookup_fmap, lookup_seq_lt by exact Hi. reflexivity.
      * destruct (Hin r Hr) as (t & cs & Ht & Ht' & Hlen & Hcs).
        assert (Hne : r0 <> r) by (intros <-; contradiction).
        rewrite Htr, list_lookup_alter_ne in Ht by exact Hne.
        exists t, cs. split; [exact Ht |]. split; [exact Ht' |]. split; [exact Hlen |].
        intros i c Hi. destruct (Hcs i c Hi) as [Hge Hclip]. split; [| exact Hclip].
        rewrite Hc, length_app in Hge. lia.
    + intros r Hr. apply not_elem_of_cons in Hr as [Hne Hr].
      rewrite (Hout r Hr), Htr. apply list_lookup_alter_ne. congruence.
    + exists (((fun i => Clip_fields r0 (num i)) <$> seq 0 (loop_bound n)) ++ more).
      rewrite Hmore, Hc. symmetry. apply app_assoc.
    + rewrite Hsong. exact Hsg.
Qed.

(** X14: a scenes notification gives every track of the song the number of
    scenes it carries and rebuilds its clips: each track then has as many
    clips as the number counts, clip [i] being a new clip with the id [i]
    that belongs to this track; nothing else of the track changes, and the
    tracks that are not the song's are left alone.  The tracks of the song
    are taken to be distinct tracks of the store. *)
Theorem Song_scenes_rebuilds_every_track (args : list value) (st : State) :
  NoDup (s_tracks (song st)) ->
  (forall r, r ∈ s_tracks (song st) -> is_Some (tracks st !! r)) ->
  let st' := Song_scenesListener args st in
  (forall r, r ∈ s_tracks (song st) ->
     exists t cs,
       tracks st !! r = Some t /\
       tracks st' !! r = Some (set_t_clips cs (set_t_numScenes (arg 0 args) t)) /\
       length cs = loop_bound (arg 0 args) /\
       forall i c, cs !! i = Some c ->
         (length (clips st) <= c)%nat /\ clips st' !! c = Some (Clip_fields r (num i))) /\
  (forall r, r ∉ s_tracks (song st) -> tracks st' !! r = tracks st !! r) /\
  song st' = song st.
Proof.
  intros Hnodup Hvalid st'.
  destruct (scenes_fold (arg 0 args) (s_tracks (song st)) st Hnodup Hvalid)
    as (Hin & Hout & _ & Hsong).
  split; [exact Hin |]. split; [exact Hout | exact Hsong].
Qed.

Lemma new_Track_eq (id : value) (st : State) :
  (new_Track id st).1 = length (tracks st) /\
  tracks (new_Track id st).2 = tracks st ++ [Track_fields id] /\
  listeners (receiver (new_Track id st).2) =
    listeners (receiver st) ++ Track_listeners (length (tracks st)) /\
  sent (new_Track id st).2 =
    sent st ++ [mkMessage "/live/name/track" [int id]; mkMessage "/live/send" [int id]] /\
  song (new_Track id st).2 = song st /\
  returns (new_Track id st).2 = returns st /\
  clips (new_Track id st).2 = clips st /\
  devices (new_Track id st).2 = devices st /\
  events (new_Track id st).2 = events st.
Proof.
  state_fields. split; [reflexivity |]. split; [reflexivity |].
  split; [rewrite <- !app_assoc; reflexivity |].
  split; [rewrite <- !app_assoc; reflexivity | repeat split].
Qed.

Lemma new_Return_eq (id : value) (st : State) :
  (new_Return id st).1 = length (returns st) /\
  returns (new_Return id st).2 = returns st ++ [Return_fields id] /\
  listeners (receiver (new_Return id st).2) =
    listeners (receiver st) ++ Return_listeners (length (returns st)) /\
  sent (new_Return id st).2 =
    sent st ++ [mkMessage "/live/return/send" [int id]; mkMessage "/live/name/return" [int id]] /\
  song (new_Return id st).2 = song st /\
  tracks (new_Return id st).2 = tracks st /\
  clips (new_Return id st).2 = clips st /\
  devices (new_Return id st).2 = devices st /\
  events (new_Return id st).2 = events st.
Proof.
  state_fields. split; [reflexivity |]. split; [reflexivity |].
  split; [rewrite <- !app_assoc; reflexivity |].
  split; [rewrite <- !app_assoc; reflexivity | repeat split].
Qed.

(** [a[n] = x] on an array of which the first [n] elements have been
    written, over what the array held before. *)
Lemma write_at_fill {A} (n : nat) (x : A) (pre old : list A) :
  length pre = n ->
  write_at n x (pre ++ drop n old) = (pre ++ [x]) ++ drop (S n) old.
Proof.
  intros Hn. unfold write_at. rewrite length_app, length_drop, Hn.
  destruct (old !! n) as [y|] eqn:Hy.
  - pose proof (lookup_lt_Some _ _ _ Hy) as Hlt.
    rewrite decide_True by lia.
    rewrite (drop_S old y n Hy), <- app_assoc. cbn [app].
    rewrite insert_app_r_alt by lia. rewrite Hn, Nat.sub_diag. reflexivity.
  - apply lookup_ge_None in Hy.
    rewrite decide_False by lia.
    rewrite !drop_ge by lia. rewrite !app_nil_r. reflexivity.
Qed.

Lemma tracks_loop (n : nat) (st : State) :
  let st' :=
    foldl (fun st i =>
        let '(track, st) := new_Track (num i) st in
        upd_song (fun s => set_s_tracks (write_at i track (s_tracks s)) s) st)
      st (seq 0 n) in
  tracks st' = tracks st ++ ((fun i => Track_fields (num i)) <$> seq 0 n) /\
  s_tracks (song st') = seq (length (tracks st)) n ++ drop n (s_tracks (song st)) /\
  set_s_tracks [] (song st') = set_s_tracks [] (song st) /\
  sent st' =
    sent st ++
    concat ((fun i => [mkMessage "/live/name/track" [int (num i)];
                       mkMessage "/live/send" [int (num i)]]) <$> seq 0 n) /\
  listeners (receiver st') =
    listeners (receiver st) ++
    concat ((fun i => Track_listeners (length (tracks st) + i)) <$> seq 0 n) /\
  returns st' = returns st /\ clips st' = clips st /\ devices st' = devices st /\
  events st' = events st.
Proof.
  induction n as [|n IH]; intros st'.
  - subst st'. cbn. rewrite !app_nil_r, drop_0. repeat split.
  - subst st'. rewrite !seq_S, foldl_app, !fmap_app, !concat_app. cbn [foldl].
    cbv zeta in IH. destruct IH as (Ht & Hst & Hsg & Hs & Hl & Hr & Hc & Hd & He).
    set (stn := foldl _ st (seq 0 n)) in *.
    destruct (new_Track_eq (num (0 + n)) stn)
      as (Hself & Ht' & Hl' & Hs' & Hsg' & Hr' & Hc' & Hd' & He').
    destruct (new_Track (num (0 + n)) stn) as [track st1]. cbn [fst snd] in *.
    unfold upd_song. state_fields.
    rewrite Ht', Hl', Hs', Hsg', Hr', Hc', Hd', He', Hself.
    rewrite Ht, Hst, Hs, Hl, Hr, Hc, Hd, He.
    rewrite length_app, length_fmap, length_seq.
    cbn [fmap list_fmap concat s_tracks set_s_tracks]. rewrite !app_nil_r, <- !app_assoc.
    split; [reflexivity |].
    split; [rewrite write_at_fill by apply length_seq; rewrite <- app_assoc; reflexivity |].
    split; [| repeat split].
    rewrite <- Hsg. destruct (song stn); reflexivity.
Qed.

Lemma returns_loop (n : nat) (st : State) :
  let st' :=
    foldl (fun st i =>
        let '(ret, st) := new_Return (num i) st in
        upd_song (fun s => set_s_returns (write_at i ret (s_returns s)) s) st)
      st (seq 0 n) in
  returns st' = returns st ++ ((fun i => Return_fields (num i)) <$> seq 0 n) /\
  s_returns (song st') = seq (length (returns st)) n ++ drop n (s_returns (song st)) /\
  set_s_returns [] (song st') = set_s_returns [] (song st) /\
  sent st' =
    sent st ++
    concat ((fun i => [mkMessage "/live/return/send" [int (num i)];
                       mkMessage "/live/name/return" [int (num i)]]) <$> seq 0 n) /\
  listeners (receiver st') =
    listeners (receiver st) ++
    concat ((fun i => Return_listeners (length (returns st) + i)) <$> seq 0 n) /\
  tracks st' = tracks st /\ clips st' = clips st /\ devices st' = devices st /\
  events st' = events st.
Proof.
  induction n as [|n IH]; intros st'.
  - subst st'. cbn. rewrite !app_nil_r, drop_0. repeat split.
  - subst st'. rewrite !seq_S, foldl_app, !fmap_app, !concat_app. cbn [foldl].
    cbv zeta in IH. destruct IH as (Hr & Hsr & Hsg & Hs & Hl & Ht & Hc & Hd & He).
    set (stn := foldl _ st (seq 0 n)) in *.
    destruct (new_Return_eq (num (0 + n)) stn)
      as (Hself & Hr' & Hl' & Hs' & Hsg' & Ht' & Hc' & Hd' & He').
    destruct (new_Return (num (0 + n)) stn) as [ret st1]. cbn [fst snd] in *.
    unfold upd_song. state_fields.
    rewrite Hr', Hl', Hs', Hsg', Ht', Hc', Hd', He', Hself.
    rewrite Hr, Hsr, Hs, Hl, Ht, Hc, Hd, He.
    rewrite length_app, length_fmap, length_seq.
    cbn [fmap list_fmap concat s_returns set_s_returns]. rewrite !app_nil_r, <- !app_assoc.
    split; [reflexivity |].
    split; [rewrite write_at_fill by apply length_seq; rewrite <- app_assoc; reflexivity |].
    split; [| repeat split].
    rewrite <- Hsg. destruct (song stn); reflexivity.
Qed.

Lemma Song_tracks_notification (args : list value) (st : State) :
  let n := loop_bound (arg 0 args) in
  let st' := Song_tracksListener args st in
  tracks st' = tracks st ++ ((fun i => Track_fields (num i)) <$> seq 0 n) /\
  s_tracks (song st') = seq (length (tracks st)) n ++ drop n (s_tracks (song st)) /\
  sent st' =
    sent st ++
    concat ((fun i => [mkMessage "/live/name/track" [mkArg integer (num i)];
                       mkMessage "/live/send" [mkArg integer (num i)]]) <$> seq 0 n) ++
    [mkMessage "/live/scenes" []] /\
  (forall i f, (i < n)%nat ->
     track_listener f (length (tracks st) + i) ∈ listeners_of (track_address f) st') /\
  events st' = events st /\ returns st' = returns st.
Proof.
  intros n st'. subst st' n. unfold Song_tracksListener. cbv zeta.
  destruct (tracks_loop (loop_bound (arg 0 args)) st)
    as (Ht & Hst & _ & Hs & Hl & Hr & _ & _ & He).
  cbv zeta in *. set (st1 := foldl _ st (seq 0 _)) in *.
  state_fields. rewrite Ht, Hst, Hs, He, Hr.
  split; [reflexivity |]. split; [reflexivity |].
  split; [symmetry; apply app_assoc |]. split; [| split; reflexivity].
  intros i f Hi. apply elem_of_listeners_of. state_fields. rewrite Hl.
  apply elem_of_app. right. apply list_elem_of_In, in_concat.
  exists (Track_listeners (length (tracks st) + i)). split.
  - apply list_elem_of_In, list_elem_of_fmap. exists i. split; [reflexivity |].
    apply elem_of_seq. lia.
  - apply list_elem_of_In. unfold Track_listeners.
    apply (list_elem_of_fmap_2 (fun f => (track_address f, track_listener f _))).
    destruct f; set_solver.
Qed.

Lemma Song_returns_notification (args : list value) (st : State) :
  let n := loop_bound (arg 0 args) in
  let st' := Song_returnsListener args st in
  returns st' = returns st ++ ((fun i => Return_fields (num i)) <$> seq 0 n) /\
  s_returns (song st') = seq (length (returns st)) n ++ drop n (s_returns (song st)) /\
  sent st' =
    sent st ++
    concat ((fun i => [mkMessage "/live/return/send" [mkArg integer (num i)];
                       mkMessage "/live/name/return" [mkArg integer (num i)]]) <$> seq 0 n) /\
  (forall i f, (i < n)%nat ->
     return_listener f (length (returns st) + i) ∈ listeners_of (return_address f) st') /\
  events st' = events st /\ tracks st' = tracks st.
Proof.
  intros n st'. subst st' n. unfold Song_returnsListener. cbv zeta.
  destruct (returns_loop (loop_bound (arg 0 args)) st)
    as (Hr & Hsr & _ & Hs & Hl & Ht & _ & _ & He).
  cbv zeta in *. set (st1 := foldl _ st (seq 0 _)) in *.
  rewrite Hr, Hsr, Hs, He, Ht.
  split; [reflexivity |]. split; [reflexivity |].
  split; [reflexivity |]. split; [| split; reflexivity].
  intros i f Hi. apply elem_of_listeners_of. rewrite Hl.
  apply elem_of_app. right. apply list_elem_of_In, in_concat.
  exists (Return_listeners (length (returns st) + i)). split.
  - apply list_elem_of_In, list_elem_of_fmap. exists i. split; [reflexivity |].
    apply elem_of_seq. lia.
  - apply list_elem_of_In. unfold Return_listeners.
    apply (list_elem_of_fmap_2 (fun f => (return_address f, return_listener f _))).
    destruct f; set_solver.
Qed.

(** X15: a tracks notification that carries the count [n] constructs [n]
    tracks with the ids 0 to [n - 1], each with its nine listeners and its
    two requests, puts them in the first [n] places of the tracks of the
    song, and asks Live for the scenes; the tracks the song held in these
    places are replaced, not destroyed, and those it held beyond stay.  A
    returns notification does the same for the returns, with eight listeners
    each, and asks for nothing more.  A count that is missing, not a number
    or not above 0 constructs nothing. *)
Theorem Song_tracks_and_returns :
  (forall args st,
     let n := loop_bound (arg 0 args) in
     let st' := Song_tracksListener args st in
     tracks st' = tracks st ++ ((fun i => Track_fields (num i)) <$> seq 0 n) /\
     s_tracks (song st') = seq (length (tracks st)) n ++ drop n (s_tracks (song st)) /\
     sent st' =
       sent st ++
       concat ((fun i => [mkMessage "/live/name/track" [mkArg integer (num i)];
                          mkMessage "/live/send" [mkArg integer (num i)]]) <$> seq 0 n) ++
       [mkMessage "/live/scenes" []] /\
     (forall i f, (i < n)%nat ->
        track_listener f (length (tracks st) + i) ∈ listeners_of (track_address f) st') /\
     events st' = events st /\ returns st' = returns st)
  /\
  (forall args st,
     let n := loop_bound (arg 0 args) in
     let st' := Song_returnsListener args st in
     returns st' = returns st ++ ((fun i => Return_fields (num i)) <$> seq 0 n) /\
     s_returns (song st') = seq (length (returns st)) n ++ drop n (s_returns (song st)) /\
     sent st' =
       sent st ++
       concat ((fun i => [mkMessage "/live/return/send" [mkArg integer (num i)];
                          mkMessage "/live/name/return" [mkArg integer (num i)]]) <$> seq 0 n) /\
     (forall i f, (i < n)%nat ->
        return_listener f (length (returns st) + i) ∈ listeners_of (return_address f) st') /\
     events st' = events st /\ tracks st' = tracks st)
  /\
  (forall v, to_number v = None \/ (exists q, to_number v = Some q /\ (q <= 0)%Q) ->
     loop_bound v = 0%nat).
Proof.
  split; [exact Song_tracks_notification |]. split; [exact Song_returns_notification |].
  intros v [Hnan | (q & Hq & Hle)]; unfold loop_bound.
  - rewrite Hnan. reflexivity.
  - rewrite Hq. pose proof (Qceiling_resp_le q 0 Hle) as Hc.
    change (Qceiling 0) with 0%Z in Hc. lia.
Qed.

(** ** The ranges of the parameters *)










(** ** A parameter reported and then set by its name *)



(** ** A parameter named [error] *)







(** ** A refresh of the song *)

Lemma only_unsubscribes_refl (st : State) : only_unsubscribes st st.
Proof.
  unfold only_unsubscribes, may_unsubscribe. repeat split; auto.
  exists []. symmetry. apply app_nil_r.
Qed.

Lemma may_unsubscribe_trans (st1 st2 st3 : State) :
  may_unsubscribe st1 st2 -> may_unsubscribe st2 st3 -> may_unsubscribe st1 st3.
Proof.
  intros (Hdv & Hs & Ht & (m & He) & Hsub & Hsong & Hnd)
         (Hdv' & Hs' & Ht' & (m' & He') & Hsub' & Hsong' & Hnd').
  unfold may_unsubscribe. rewrite Hdv', Hs', Ht', He', He, Hdv, Hs, Ht.
  repeat split; auto. exists (m ++ m'). symmetry. apply app_assoc.
Qed.

(** An assignment to a field of the song is none of these. *)
Lemma may_unsubscribe_upd_song (f : Song -> Song) (st st' : State) :
  may_unsubscribe st st' -> may_unsubscribe st (upd_song f st').
Proof. intros Hm. exact Hm. Qed.

Lemma only_unsubscribes_trans (st1 st2 st3 : State) :
  only_unsubscribes st1 st2 -> only_unsubscribes st2 st3 -> only_unsubscribes st1 st3.
Proof.
  intros (Hsg & Hm) (Hsg' & Hm'). split; [congruence |].
  exact (may_unsubscribe_trans st1 st2 st3 Hm Hm').
Qed.

Lemma only_unsubscribes_emit (e : emitter) (name : string) (params : option object)
    (st : State) :
  only_unsubscribes st (emit e name params st).
Proof.
  unfold only_unsubscribes, may_unsubscribe. state_fields.
  repeat split; auto. eexists. reflexivity.
Qed.

Lemma elem_of_remove_last_ne {A} `{EqDecision A} (x y : A) (l : list A) :
  y <> x -> y ∈ l -> y ∈ remove_last x l.
Proof.
  intros Hne. induction l as [|z l IH]; simpl; [trivial |].
  rewrite elem_of_cons. intros [-> | Hin].
  - rewrite decide_False by exact Hne. left.
  - destruct (decide (z = x)) as [-> | Hz].
    + destruct (decide (x ∈ l)); [right; apply IH; exact Hin | exact Hin].
    + right. apply IH. exact Hin.
Qed.

Lemma only_unsubscribes_removeListener (addr : string) (l : listener) (st : State) :
  (forall f, l <> song_listener f) ->
  only_unsubscribes st (removeListener addr l st).
Proof.
  intros Hl. unfold only_unsubscribes, may_unsubscribe. state_fields.
  split; [reflexivity |].
  split; [reflexivity |]. split; [reflexivity |]. split; [reflexivity |].
  split; [exists []; symmetry; apply app_nil_r |].
  split; [intros x; apply elem_of_remove_last |].
  split; [| apply NoDup_remove_last].
  intros a f. apply elem_of_remove_last_ne. intros [= _ Heq]. exact (Hl f (eq_sym Heq)).
Qed.

Lemma only_unsubscribes_upd_track (self : ref) (f : Track -> Track) (st : State) :
  only_unsubscribes st (upd_track self f st).
Proof. exact (only_unsubscribes_refl st). Qed.

Lemma only_unsubscribes_upd_return (self : ref) (f : Return -> Return) (st : State) :
  only_unsubscribes st (upd_return self f st).
Proof. exact (only_unsubscribes_refl st). Qed.

Lemma only_unsubscribes_foldl (destroy : ref -> State -> State) (refs : list ref) :
  (forall r st, only_unsubscribes st (destroy r st)) ->
  forall st, only_unsubscribes st (foldl (fun st r => destroy r st) st refs).
Proof.
  intros Hstep. induction refs as [|r refs IH]; intros st; cbn [foldl].
  - apply only_unsubscribes_refl.
  - eapply only_unsubscribes_trans; [apply Hstep | apply IH].
Qed.

Ltac unsubscribes :=
  repeat first
    [ apply only_unsubscribes_refl
    | eapply only_unsubscribes_trans;
      [| first
           [ apply only_unsubscribes_emit
           | apply only_unsubscribes_removeListener; discriminate
           | apply only_unsubscribes_upd_track
           | apply only_unsubscribes_upd_return ] ] ].

Lemma only_unsubscribes_Clip_destroy (self : ref) (st : State) :
  only_unsubscribes st (Clip_destroy self st).
Proof. unfold Clip_destroy. cbv zeta. unsubscribes. Qed.

Lemma only_unsubscribes_Device_destroy (self : ref) (st : State) :
  only_unsubscribes st (Device_destroy self st).
Proof.
  unfold Device_destroy, Device_emitEvent.
  destruct (devices st !! self) as [d|]; [| apply only_unsubscribes_refl].
  change (strict_eq (VStr "destroy") (VStr "error")) with false.
  cbn [outcome_state]. cbv zeta. unsubscribes.
Qed.

Lemma only_unsubscribes_Track_destroy (self : ref) (st : State) :
  only_unsubscribes st (Track_destroy self st).
Proof.
  unfold Track_destroy. cbv zeta.
  eapply only_unsubscribes_trans; [| apply only_unsubscribes_upd_track].
  eapply only_unsubscribes_trans;
    [| apply (only_unsubscribes_foldl Device_destroy), only_unsubscribes_Device_destroy].
  eapply only_unsubscribes_trans; [| apply only_unsubscribes_upd_track].
  eapply only_unsubscribes_trans;
    [| apply (only_unsubscribes_foldl Clip_destroy), only_unsubscribes_Clip_destroy].
  unsubscribes.
Qed.

Lemma only_unsubscribes_Return_destroy (self : ref) (st : State) :
  only_unsubscribes st (Return_destroy self st).
Proof.
  unfold Return_destroy. cbv zeta.
  eapply only_unsubscribes_trans; [| apply only_unsubscribes_upd_return].
  eapply only_unsubscribes_trans;
    [| apply (only_unsubscribes_foldl Device_destroy), only_unsubscribes_Device_destroy].
  unsubscribes.
Qed.

Lemma Track_destroy_unlistens (self : ref) (st : State) :
  NoDup (listeners (receiver st)) ->
  (forall addr f, (addr, track_listener f self) ∈ listeners (receiver st) ->
     addr = track_address f) ->
  forall addr f, (addr, track_listener f self) ∉ listeners (receiver (Track_destroy self st)).
Proof.
  intros Hnodup Haddr addr f. unfold Track_destroy. intros Hin.
  change (receiver (upd_track self (set_t_devices []) ?s)) with (receiver s) in Hin.
  apply (listeners_foldl_subseteq Device_destroy) in Hin;
    [| intros r s; apply listeners_Device_destroy_subseteq].
  change (receiver (upd_track self (set_t_clips []) ?s)) with (receiver s) in Hin.
  apply (listeners_foldl_subseteq Clip_destroy) in Hin;
    [| intros r s; apply listeners_Clip_destroy_subseteq].
  rewrite !listeners_removeListener in Hin.
  change (listeners (receiver (emit (track_emitter self) "destroy" None st)))
    with (listeners (receiver st)) in Hin.
  assert (Hsub : (addr, track_listener f self) ∈ listeners (receiver st))
    by (repeat apply elem_of_remove_last in Hin; exact Hin).
  apply Haddr in Hsub. subst addr. revert Hin.
  destruct f; simpl;
    repeat first
      [ apply not_elem_of_remove_last; repeat apply NoDup_remove_last; exact Hnodup
      | let Hin := fresh in intros Hin; apply elem_of_remove_last in Hin; revert Hin ].
Qed.

Lemma Track_destroy_fold_unlistens (ts : list ref) :
  forall st,
  NoDup (listeners (receiver st)) ->
  (forall r addr f, r ∈ ts -> (addr, track_listener f r) ∈ listeners (receiver st) ->
     addr = track_address f) ->
  forall r addr f, r ∈ ts ->
    (addr, track_listener f r) ∉
      listeners (receiver (foldl (fun st track => Track_destroy track st) st ts)).
Proof.
  induction ts as [|r0 ts IH]; intros st Hnodup Haddr r addr f Hr; cbn [foldl].
  - apply elem_of_nil in Hr. contradiction.
  - destruct (only_unsubscribes_Track_destroy r0 st) as (_ & _ & _ & _ & _ & Hsub & _ & Hnd).
    destruct (decide (r = r0)) as [-> | Hne].
    + intros Hin.
      destruct (only_unsubscribes_foldl Track_destroy ts only_unsubscribes_Track_destroy
                  (Track_destroy r0 st)) as (_ & _ & _ & _ & _ & Hsub' & _).
      apply Hsub' in Hin. revert Hin.
      apply Track_destroy_unlistens; [exact Hnodup |].
      intros a g. apply Haddr. left.
    + apply IH.
      * apply Hnd. exact Hnodup.
      * intros r' a g Hr' Hin. apply (Haddr r' a g); [right; exact Hr' |].
        apply Hsub. exact Hin.
      * apply elem_of_cons in Hr as [-> | Hr]; [congruence | exact Hr].
Qed.


Lemma Return_destroy_unlistens (self : ref) (st : State) :
  NoDup (listeners (receiver st)) ->
  (forall addr f, (addr, return_listener f self) ∈ listeners (receiver st) ->
     addr = return_address f) ->
  forall addr f, f <> R_devicelistListener ->
    (addr, return_listener f self) ∉ listeners (receiver (Return_destroy self st)).
Proof.
  intros Hnodup Haddr addr f Hf. unfold Return_destroy. intros Hin.
  change (receiver (upd_return self (set_r_devices []) ?s)) with (receiver s) in Hin.
  apply (listeners_foldl_subseteq Device_destroy) in Hin;
    [| intros r s; apply listeners_Device_destroy_subseteq].
  rewrite !listeners_removeListener in Hin.
  change (listeners (receiver (emit (return_emitter self) "destroy" None st)))
    with (listeners (receiver st)) in Hin.
  assert (Hsub : (addr, return_listener f self) ∈ listeners (receiver st))
    by (repeat apply elem_of_remove_last in Hin; exact Hin).
  apply Haddr in Hsub. subst addr. revert Hin.
  destruct f; try (destruct (Hf eq_refl)); simpl;
    repeat first
      [ apply not_elem_of_remove_last; repeat apply NoDup_remove_last; exact Hnodup
      | let Hin := fresh in intros Hin; apply elem_of_remove_last in Hin; revert Hin ].
Qed.

Lemma Return_destroy_fold_unlistens (rs : list ref) :
  forall st,
  NoDup (listeners (receiver st)) ->
  (forall r addr f, r ∈ rs -> (addr, return_listener f r) ∈ listeners (receiver st) ->
     addr = return_address f) ->
  forall r addr f, r ∈ rs -> f <> R_devicelistListener ->
    (addr, return_listener f r) ∉
      listeners (receiver (foldl (fun st ret => Return_destroy ret st) st rs)).
Proof.
  induction rs as [|r0 rs IH]; intros st Hnodup Haddr r addr f Hr Hf; cbn [foldl].
  - apply elem_of_nil in Hr. contradiction.
  - destruct (only_unsubscribes_Return_destroy r0 st)
      as (_ & _ & _ & _ & _ & Hsub & _ & Hnd).
    destruct (decide (r = r0)) as [-> | Hne].
    + intros Hin.
      destruct (only_unsubscribes_foldl Return_destroy rs only_unsubscribes_Return_destroy
                  (Return_destroy r0 st)) as (_ & _ & _ & _ & _ & Hsub' & _).
      apply Hsub' in Hin. revert Hin.
      apply Return_destroy_unlistens; [exact Hnodup | | exact Hf].
      intros a g. apply Haddr. left.
    + apply IH.
      * apply Hnd. exact Hnodup.
      * intros r' a g Hr' Hin. apply (Haddr r' a g); [right; exact Hr' |].
        apply Hsub. exact Hin.
      * apply elem_of_cons in Hr as [-> | Hr]; [congruence | exact Hr].
      * exact Hf.
Qed.

(** *** What a [destroy] announces *)

Lemma announces_then (e : event) (st1 st2 st3 : State) :
  announces e st1 st2 -> may_unsubscribe st2 st3 -> announces e st1 st3.
Proof.
  intros (before & after & He) (_ & _ & _ & (more & Hmore) & _).
  exists before, (after ++ more). rewrite Hmore, He, <- !app_assoc. reflexivity.
Qed.

Lemma announces_after (e : event) (st1 st2 st3 : State) :
  may_unsubscribe st1 st2 -> announces e st2 st3 -> announces e st1 st3.
Proof.
  intros (_ & _ & _ & (more & Hmore) & _) (before & after & He).
  exists (more ++ before), after. rewrite He, Hmore, <- !app_assoc. reflexivity.
Qed.

Lemma announces_emit (e : emitter) (name : string) (params : option object) (st : State) :
  announces (mkEvent e name params) st (emit e name params st).
Proof. exists [], []. reflexivity. Qed.

Lemma Track_destroy_announces (self : ref) (st : State) :
  announces (mkEvent (track_emitter self) "destroy" None) st (Track_destroy self st).
Proof.
  unfold Track_destroy. cbv zeta.
  eapply announces_then; [apply announces_emit |]. refine (proj2 _).
  eapply only_unsubscribes_trans; [| apply only_unsubscribes_upd_track].
  eapply only_unsubscribes_trans;
    [| apply (only_unsubscribes_foldl Device_destroy), only_unsubscribes_Device_destroy].
  eapply only_unsubscribes_trans; [| apply only_unsubscribes_upd_track].
  eapply only_unsubscribes_trans;
    [| apply (only_unsubscribes_foldl Clip_destroy), only_unsubscribes_Clip_destroy].
  unsubscribes.
Qed.

Lemma Return_destroy_announces (self : ref) (st : State) :
  announces (mkEvent (return_emitter self) "destroy" None) st (Return_destroy self st).
Proof.
  unfold Return_destroy. cbv zeta.
  eapply announces_then; [apply announces_emit |]. refine (proj2 _).
  eapply only_unsubscribes_trans; [| apply only_unsubscribes_upd_return].
  eapply only_unsubscribes_trans;
    [| apply (only_unsubscribes_foldl Device_destroy), only_unsubscribes_Device_destroy].
  unsubscribes.
Qed.

Lemma Device_destroy_announces (self : ref) (st : State) :
  is_Some (devices st !! self) ->
  announces (mkEvent (device_emitter self) "destroy" None) st (Device_destroy self st).
Proof.
  intros [d Hd]. unfold Device_destroy, Device_emitEvent. rewrite Hd.
  change (strict_eq (VStr "destroy") (VStr "error")) with false.
  cbn [outcome_state]. cbv zeta.
  eapply announces_then; [apply announces_emit |]. refine (proj2 _).
  unsubscribes.
Qed.

(** Each object of a list that is destroyed in turn announces its
    [destroy]. *)
Lemma destroy_fold_announces (destroy : ref -> State -> State) (ev : ref -> event)
    (live : ref -> State -> Prop) (refs : list ref) :
  (forall r st, only_unsubscribes st (destroy r st)) ->
  (forall r st, live r st -> announces (ev r) st (destroy r st)) ->
  (forall r st st', only_unsubscribes st st' -> live r st -> live r st') ->
  forall st r, r ∈ refs -> live r st ->
    announces (ev r) st (foldl (fun st r => destroy r st) st refs).
Proof.
  intros Hunsub Hev Hlive.
  induction refs as [|r0 refs IH]; intros st r Hr Hl; cbn [foldl].
  - apply elem_of_nil in Hr. contradiction.
  - apply elem_of_cons in Hr as [-> | Hr].
    + eapply announces_then; [apply Hev; exact Hl |].
      refine (proj2 (only_unsubscribes_foldl destroy refs Hunsub _)).
    + eapply announces_after; [exact (proj2 (Hunsub r0 st)) |].
      apply IH; [exact Hr |]. eapply Hlive; [apply Hunsub | exact Hl].
Qed.

(** X18: [refresh] announces [refresh] on the song, destroys the tracks,
    the returns and the devices of the song and empties the three arrays,
    then asks Live for the tracks, the returns, the master volume and pan,
    the tempo and the master device list, in this order, and leaves the
    [/live/time] message with the timer.  The play state, beat, tempo,
    scene, volume and pan of the song stay as they are.  After [refresh],
    each track and each return of the song has announced its [destroy], and
    so has each device of the song that is in the store.  No listener is
    added and none of the song is removed.  When the receiver held no
    listener twice and held the listeners of these objects where their
    constructors put them, no listener of a track of the song is left, no
    listener of a device of the song is left, and of the listeners of a
    return of the song only the one of the device list is left. *)
Theorem Song_refresh_requests (st : State) :
  let st' := Song_refresh st in
  sent st' =
    sent st ++
    [mkMessage "/live/tracks" []; mkMessage "/live/returns" [];
     mkMessage "/live/master/volume" []; mkMessage "/live/master/pan" [];
     mkMessage "/live/tempo" []; mkMessage "/live/master/devicelist" []] /\
  timers st' = timers st ++ [mkMessage "/live/time" []] /\
  song st' = set_s_devices [] (set_s_returns [] (set_s_tracks [] (song st))) /\
  (exists more,
     events st' = events st ++ mkEvent song_emitter "refresh" None :: more /\
     (forall r, r ∈ s_tracks (song st) ->
        mkEvent (track_emitter r) "destroy" None ∈ more) /\
     (forall r, r ∈ s_returns (song st) ->
        mkEvent (return_emitter r) "destroy" None ∈ more) /\
     (forall d, d ∈ s_devices (song st) -> is_Some (devices st !! d) ->
        mkEvent (device_emitter d) "destroy" None ∈ more)) /\
  (forall x, x ∈ listeners (receiver st') -> x ∈ listeners (receiver st)) /\
  (forall addr f, (addr, song_listener f) ∈ listeners (receiver st) ->
     (addr, song_listener f) ∈ listeners (receiver st')) /\
  (NoDup (listeners (receiver st)) ->
   (forall r addr f, r ∈ s_tracks (song st) ->
      (addr, track_listener f r) ∈ listeners (receiver st) -> addr = track_address f) ->
   forall r addr f, r ∈ s_tracks (song st) -> track_listener f r ∉ listeners_of addr st') /\
  (NoDup (listeners (receiver st)) ->
   (forall r addr f, r ∈ s_returns (song st) ->
      (addr, return_listener f r) ∈ listeners (receiver st) -> addr = return_address f) ->
   forall r addr f, r ∈ s_returns (song st) -> f <> R_devicelistListener ->
     return_listener f r ∉ listeners_of addr st') /\
  (NoDup (listeners (receiver st)) ->
   (forall d addr f, d ∈ s_devices (song st) ->
      (addr, device_listener f d) ∈ listeners (receiver st) ->
      exists dev, devices st !! d = Some dev /\ addr = device_address (d_type dev) f) ->
   forall d addr f, d ∈ s_devices (song st) -> device_listener f d ∉ listeners_of addr st').
Proof.
  intros st'. subst st'. unfold Song_refresh. cbv zeta.
  set (st0 := emit song_emitter "refresh" None st).
  set (st1 := foldl (fun st track => Track_destroy track st) st0 (s_tracks (song st0))).
  set (st2 := upd_song (set_s_tracks []) st1).
  set (st3 := foldl (fun st ret => Return_destroy ret st) st2 (s_returns (song st2))).
  set (st4 := upd_song (set_s_returns []) st3).
  set (st5 := foldl (fun st device => Device_destroy device st) st4 (s_devices (song st4))).
  pose proof (only_unsubscribes_foldl Track_destroy (s_tracks (song st0))
                only_unsubscribes_Track_destroy st0) as H1. fold st1 in H1.
  pose proof (only_unsubscribes_foldl Return_destroy (s_returns (song st2))
                only_unsubscribes_Return_destroy st2) as H3. fold st3 in H3.
  pose proof (only_unsubscribes_foldl Device_destroy (s_devices (song st4))
                only_unsubscribes_Device_destroy st4) as H5. fold st5 in H5.
  assert (H02 : may_unsubscribe st0 st2)
    by exact (may_unsubscribe_upd_song _ st0 st1 (proj2 H1)).
  assert (H24 : may_unsubscribe st2 st4)
    by exact (may_unsubscribe_upd_song _ st2 st3 (proj2 H3)).
  assert (H04 : may_unsubscribe st0 st4)
    by exact (may_unsubscribe_trans st0 st2 st4 H02 H24).
  assert (H05 : may_unsubscribe st0 st5)
    by exact (may_unsubscribe_trans st0 st4 st5 H04 (proj2 H5)).
  assert (H25 : may_unsubscribe st2 st5)
    by exact (may_unsubscribe_trans st2 st4 st5 H24 (proj2 H5)).
  assert (Hsg2 : song st2 = set_s_tracks [] (song st)).
  { subst st2. unfold upd_song. cbn [song set_song]. rewrite (proj1 H1). reflexivity. }
  assert (Hsg4 : song st4 = set_s_returns [] (set_s_tracks [] (song st))).
  { subst st4. unfold upd_song. cbn [song set_song]. rewrite (proj1 H3), Hsg2.
    reflexivity. }
  assert (Hsg5 : song st5 = set_s_returns [] (set_s_tracks [] (song st)))
    by (rewrite (proj1 H5); exact Hsg4).
  assert (Hrs : s_returns (song st2) = s_returns (song st))
    by (rewrite Hsg2; reflexivity).
  assert (Hds : s_devices (song st4) = s_devices (song st))
    by (rewrite Hsg4; reflexivity).
  assert (Htracks : forall r, r ∈ s_tracks (song st) ->
            announces (mkEvent (track_emitter r) "destroy" None) st0 st5).
  { intros r Hr. apply (announces_then _ st0 st2 st5); [| exact H25].
    apply (destroy_fold_announces Track_destroy
             (fun r => mkEvent (track_emitter r) "destroy" None) (fun _ _ => True));
      [ apply only_unsubscribes_Track_destroy
      | intros; apply Track_destroy_announces
      | trivial | exact Hr | exact I ]. }
  assert (Hreturns : forall r, r ∈ s_returns (song st) ->
            announces (mkEvent (return_emitter r) "destroy" None) st0 st5).
  { intros r Hr. apply (announces_after _ st0 st2 st5); [exact H02 |].
    apply (announces_then _ st2 st4 st5); [| exact (proj2 H5)].
    apply (destroy_fold_announces Return_destroy
             (fun r => mkEvent (return_emitter r) "destroy" None) (fun _ _ => True));
      [ apply only_unsubscribes_Return_destroy
      | intros; apply Return_destroy_announces
      | trivial | rewrite Hrs; exact Hr | exact I ]. }
  assert (Hdevices : forall d, d ∈ s_devices (song st) -> is_Some (devices st !! d) ->
            announces (mkEvent (device_emitter d) "destroy" None) st0 st5).
  { intros d Hd Hlive. apply (announces_after _ st0 st4 st5); [exact H04 |].
    apply (destroy_fold_announces Device_destroy
             (fun d => mkEvent (device_emitter d) "destroy" None)
             (fun d s => is_Some (devices s !! d)));
      [ apply only_unsubscribes_Device_destroy
      | intros r s; apply Device_destroy_announces
      | intros r s s' (_ & Hdv & _) Hs; rewrite Hdv; exact Hs
      | rewrite Hds; exact Hd
      | destruct H04 as (Hdv & _); rewrite Hdv; exact Hlive ]. }
  destruct H05 as (Hdv5 & Hs5 & Ht5 & (m5 & He5) & Hsub5 & Hsong5 & Hnd5).
  assert (He0 : events st0 = events st ++ [mkEvent song_emitter "refresh" None])
    by reflexivity.
  assert (Hmore : forall e, announces e st0 st5 -> e ∈ m5).
  { intros e (before & after & He). rewrite He5 in He. apply app_inv_head in He.
    subst m5. apply elem_of_app. right. left. }
  unfold upd_song. state_fields. rewrite Hs5, Ht5, Hsg5, He5, He0.
  change (sent st0) with (sent st). change (timers st0) with (timers st).
  change (listeners (receiver st0)) with (listeners (receiver st)) in *.
  rewrite <- !app_assoc.
  split; [reflexivity |]. split; [reflexivity |].
  split; [destruct (song st); reflexivity |].
  split.
  { exists m5. split; [reflexivity |]. split; [| split].
    - intros r Hr. apply Hmore, Htracks, Hr.
    - intros r Hr. apply Hmore, Hreturns, Hr.
    - intros d Hd Hlive. apply Hmore, Hdevices; assumption. }
  split; [intros x Hx; apply Hsub5; exact Hx |].
  split; [intros addr f Hx; apply Hsong5; exact Hx |].
  split; [| split].
  - intros Hnodup Haddr r addr f Hr. rewrite elem_of_listeners_of. state_fields.
    intros Hin. destruct H25 as (_ & _ & _ & _ & Hsub25 & _).
    apply Hsub25 in Hin. revert Hin.
    apply Track_destroy_fold_unlistens; [exact Hnodup | exact Haddr | exact Hr].
  - intros Hnodup Haddr r addr f Hr Hf. rewrite elem_of_listeners_of. state_fields.
    intros Hin. destruct H5 as (_ & _ & _ & _ & _ & Hsub45 & _).
    apply Hsub45 in Hin. revert Hin.
    destruct H02 as (_ & _ & _ & _ & Hsub02 & _ & Hnd02).
    apply Return_destroy_fold_unlistens;
      [ apply Hnd02; exact Hnodup
      | intros r' a g Hr' Hin; apply (Haddr r' a g);
          [rewrite <- Hrs; exact Hr' | apply Hsub02; exact Hin]
      | rewrite Hrs; exact Hr
      | exact Hf ].
  - intros Hnodup Haddr d addr f Hd. rewrite elem_of_listeners_of. state_fields.
    destruct H04 as (Hdv04 & _ & _ & _ & Hsub04 & _ & Hnd04).
    apply Device_destroy_fold_unlistens;
      [ apply Hnd04; exact Hnodup
      | intros d' a g Hd' Hin; rewrite Hdv04; apply (Haddr d' a g);
          [rewrite <- Hds; exact Hd' | apply Hsub04; exact Hin]
      | rewrite Hds; exact Hd ].
Qed.

(** ** A track and the messages for others *)

Ltac frames :=
  repeat first
    [ progress state_fields
    | match goal with
      | |- context [match ?x with _ => _ end] => destruct x
      end ];
  try reflexivity.

Lemma tracks_Clip_listener (f : clip_fn) (self : ref) (args : list value) (st : State) :
  tracks (call (clip_listener f self) args st) = tracks st.
Proof.
  destruct f; unfold call; cbn [call_outcome outcome_state];
    unfold Clip_loopstartListener, Clip_loopendListener, Clip_loopstateListener,
      Clip_warpingListener, Clip_pitchListener, Clip_clipinfoListener, Clip_clipnameListener,
      Clip_refresh, Clip_emitEvent; cbv zeta; frames.
Qed.

Lemma tracks_Device_emitEvent (self : ref) (ev : value) (params : option object)
    (st : State) :
  tracks (outcome_state (Device_emitEvent self ev params st)) = tracks st.
Proof. unfold Device_emitEvent. frames. Qed.

Lemma tracks_and_then (o : outcome) (k : State -> outcome) :
  (forall st, tracks (outcome_state (k st)) = tracks st) ->
  tracks (outcome_state (and_then o k)) = tracks (outcome_state o).
Proof. intros Hk. destruct o; cbn [and_then outcome_state]; [apply Hk | reflexivity]. Qed.

Lemma tracks_range_loop (self : ref) (args : list value) :
  forall st, tracks (range_loop self args st) = tracks st.
Proof.
  induction args as [| a | a b | a b c l IH] using strides3_ind; intros st;
    cbn [range_loop]; rewrite ?IH; reflexivity.
Qed.

Lemma tracks_allParam_step (self : ref) (k v name : value) (st : State) :
  tracks (outcome_state (allParam_step self k v name st)) = tracks st.
Proof.
  unfold allParam_step. destruct (devices st !! self); [| reflexivity]. cbv zeta.
  rewrite tracks_and_then by reflexivity.
  destruct (loose_neq _ _); [| reflexivity].
  rewrite tracks_and_then by (intros s; apply tracks_Device_emitEvent).
  rewrite tracks_Device_emitEvent. reflexivity.
Qed.

Lemma tracks_allParam_loop (self : ref) (args : list value) :
  forall st, tracks (outcome_state (allParam_loop self args st)) = tracks st.
Proof.
  induction args as [| a | a b | a b c l IH] using strides3_ind; intros st;
    cbn [allParam_loop]; rewrite ?(tracks_and_then _ _ IH);
    apply tracks_allParam_step || reflexivity.
Qed.

Lemma tracks_Device_listener (f : device_fn) (self : ref) (args : list value) (st : State) :
  tracks (call (device_listener f self) args st) = tracks st.
Proof.
  destruct f; unfold call; cbn [call_outcome outcome_state];
    unfold Device_rangeListener, Device_allParamListener, Device_paramListener;
    destruct (devices st !! self); try reflexivity;
    destruct (Device_shift _ _ _); try reflexivity.
  - apply tracks_range_loop.
  - apply tracks_allParam_loop.
  - cbv zeta.
    rewrite tracks_and_then; [rewrite tracks_Device_emitEvent; reflexivity |].
    intros s. rewrite tracks_and_then by reflexivity. apply tracks_Device_emitEvent.
Qed.

Lemma tracks_new_Device (id : value) (track : owner) (type : devtype) (name : value)
    (st : State) :
  tracks (new_Device id track type name st).2 = tracks st.
Proof. reflexivity. Qed.

Lemma tracks_Return_send_loop (self : ref) (args : list value) :
  forall st, tracks (Return_send_loop self args st) = tracks st.
Proof.
  assert (Hstep : forall a b st, tracks (Return_send_step self a b st) = tracks st).
  { intros a b st. unfold Return_send_step, Return_emitEvent. frames. }
  induction args as [| a | a b l IH] using strides2_ind; intros st;
    cbn [Return_send_loop]; rewrite ?IH; apply Hstep || reflexivity.
Qed.

Lemma tracks_Return_devicelist_loop (self : ref) (args : list value) :
  forall st, tracks (Return_devicelist_loop self args st) = tracks st.
Proof.
  assert (Hstep : forall a b st, tracks (Return_devicelist_step self a b st) = tracks st)
    by reflexivity.
  induction args as [| a | a b l IH] using strides2_ind; intros st;
    cbn [Return_devicelist_loop]; rewrite ?IH; apply Hstep || reflexivity.
Qed.

Lemma tracks_Return_listener (f : return_fn) (self : ref) (args : list value) (st : State) :
  tracks (call (return_listener f self) args st) = tracks st.
Proof.
  destruct f; unfold call; cbn [call_outcome outcome_state];
    unfold Return_sendListener, Return_soloListener, Return_muteListener,
      Return_volumeListener, Return_panListener, Return_infoListener,
      Return_devicelistListener, Return_nameListener;
    destruct (returns st !! self) as [r|]; try reflexivity;
    destruct (loose_neq _ _); try reflexivity; cbv zeta.
  - apply tracks_Return_send_loop.
  - unfold Return_emitEvent. frames.
  - unfold Return_emitEvent. frames.
  - unfold Return_emitEvent. frames.
  - unfold Return_emitEvent. frames.
  - unfold Return_emitEvent, Return_prev. frames.
  - apply tracks_Return_devicelist_loop.
  - state_fields.
    match goal with
    | |- context [foldl (fun st device => Device_destroy device st) ?s ?ds] =>
        destruct (Device_destroy_fold ds s) as (_ & _ & _ & _ & _ & -> & _)
    end.
    unfold Return_emitEvent. frames.
Qed.

Lemma tracks_Track_send_loop (self r : ref) (args : list value) :
  r <> self ->
  forall st, tracks (Track_send_loop self args st) !! r = tracks st !! r.
Proof.
  intros Hne.
  assert (Hstep : forall a b st, tracks (Track_send_step self a b st) !! r = tracks st !! r).
  { intros a b st. unfold Track_send_step. destruct (tracks st !! self); [| reflexivity].
    cbv zeta. state_fields. rewrite tracks_Track_emitEvent.
    apply list_lookup_alter_ne. congruence. }
  induction args as [| a | a b l IH] using strides2_ind; intros st;
    cbn [Track_send_loop]; rewrite ?IH; apply Hstep || reflexivity.
Qed.

Lemma tracks_Track_devicelist_loop (self r : ref) (args : list value) :
  r <> self ->
  forall st, tracks (Track_devicelist_loop self args st) !! r = tracks st !! r.
Proof.
  intros Hne.
  assert (Hstep : forall a b st,
    tracks (Track_devicelist_step self a b st) !! r = tracks st !! r).
  { intros a b st. unfold Track_devicelist_step. state_fields.
    apply list_lookup_alter_ne. congruence. }
  induction args as [| a | a b l IH] using strides2_ind; intros st;
    cbn [Track_devicelist_loop]; rewrite ?IH; apply Hstep || reflexivity.
Qed.

Lemma tracks_Track_refreshClips (self r : ref) (st : State) :
  r <> self -> tracks (Track_refreshClips self st) !! r = tracks st !! r.
Proof.
  intros Hne. destruct (tracks st !! self) as [t|] eqn:Ht.
  - destruct (Track_refreshClips_eq self t st Ht) as (_ & ->).
    apply list_lookup_alter_ne. congruence.
  - unfold Track_refreshClips. rewrite Ht. reflexivity.
Qed.

Lemma tracks_Track_listener (f : track_fn) (self r : ref) (args : list value) (st : State) :
  r <> self ->
  tracks (call (track_listener f self) args st) !! r = tracks st !! r.
Proof.
  intros Hne.
  assert (Halter : forall g l, alter g self l !! r = (l : list Track) !! r)
    by (intros g l; apply list_lookup_alter_ne; congruence).
  destruct f; unfold call; cbn [call_outcome outcome_state];
    unfold Track_sendListener, Track_soloListener, Track_armListener, Track_muteListener,
      Track_volumeListener, Track_panListener, Track_trackinfoListener,
      Track_devicelistListener, Track_nameListener;
    destruct (tracks st !! self) as [t|]; try reflexivity;
    destruct (loose_neq _ _); try reflexivity; cbv zeta.
  - apply tracks_Track_send_loop. exact Hne.
  - state_fields. rewrite tracks_Track_emitEvent. apply Halter.
  - state_fields. rewrite tracks_Track_emitEvent. apply Halter.
  - state_fields. rewrite tracks_Track_emitEvent. apply Halter.
  - state_fields. rewrite tracks_Track_emitEvent. apply Halter.
  - state_fields. rewrite tracks_Track_emitEvent. apply Halter.
  - rewrite tracks_Track_refreshClips by exact Hne.
    rewrite !tracks_Track_emitEvent. state_fields. rewrite !Halter. reflexivity.
  - rewrite tracks_Track_devicelist_loop by exact Hne. state_fields.
    match goal with
    | |- context [foldl (fun st device => Device_destroy device st) ?s ?ds] =>
        destruct (Device_destroy_fold ds s) as (_ & _ & _ & _ & _ & -> & _)
    end.
    reflexivity.
  - state_fields. rewrite Halter.
    match goal with
    | |- context [foldl (fun st device => Device_destroy device st) ?s ?ds] =>
        destruct (Device_destroy_fold ds s) as (_ & _ & _ & _ & _ & -> & _)
    end.
    state_fields. rewrite Halter, tracks_Track_emitEvent. reflexivity.
Qed.

Lemma Track_listener_mismatch (f : track_fn) (self : ref) (t : Track) (args : list value)
    (st : State) :
  tracks st !! self = Some t ->
  loose_eq (arg 0 args) (t_id t) = false ->
  call (track_listener f self) args st = st.
Proof.
  intros Ht Hne.
  destruct f; unfold call; cbn [call_outcome outcome_state];
    unfold Track_sendListener, Track_soloListener, Track_armListener,
      Track_muteListener, Track_volumeListener, Track_panListener,
      Track_trackinfoListener, Track_devicelistListener, Track_nameListener, loose_neq;
    rewrite Ht, Hne; reflexivity.
Qed.

Lemma track_kept_by_listener (l : listener) (args : list value) (st : State) (r : ref)
    (t : Track) :
  (forall f, l <> song_listener f) ->
  tracks st !! r = Some t ->
  loose_eq (arg 0 args) (t_id t) = false ->
  tracks (call l args st) !! r = Some t.
Proof.
  intros Hsong Ht Hne. destruct l as [f self | f self | f self | f self | f].
  - destruct (decide (r = self)) as [-> | Hr].
    + rewrite (Track_listener_mismatch f self t args st Ht Hne). exact Ht.
    + rewrite tracks_Track_listener by exact Hr. exact Ht.
  - rewrite tracks_Return_listener. exact Ht.
  - rewrite tracks_Clip_listener. exact Ht.
  - rewrite tracks_Device_listener. exact Ht.
  - destruct (Hsong f eq_refl).
Qed.

Lemma track_kept_by_listeners (ls : list listener) (args : list value) (r : ref) (t : Track) :
  (forall l, l ∈ ls -> forall f, l <> song_listener f) ->
  loose_eq (arg 0 args) (t_id t) = false ->
  forall st, tracks st !! r = Some t ->
  tracks (outcome_state (dispatch ls args st)) !! r = Some t.
Proof.
  intros Hls Hne. induction ls as [|l ls IH]; intros st Ht; cbn [dispatch]; [exact Ht |].
  assert (Hl : tracks (call l args st) !! r = Some t)
    by (apply track_kept_by_listener; [apply Hls; left | exact Ht | exact Hne]).
  unfold call in Hl. destruct (call_outcome l args st) as [st1 | e st1];
    cbn [and_then outcome_state] in *; [| exact Hl].
  apply IH; [| exact Hl].
  intros l' Hl'. apply Hls. right. exact Hl'.
Qed.

(** X19: a message leaves a track as it is when its first argument is not
    [==] to the id of the track and no listener of the song is among those
    the receiver calls for it: the listeners of the other tracks, of the
    returns, of the clips and of the devices never write to this track, and
    its own return at once. *)
Theorem message_for_others_keeps_track (addr : string) (args : list value) (st : State)
    (r : ref) (t : Track) :
  (forall f, song_listener f ∉ listeners_of addr st) ->
  tracks st !! r = Some t ->
  loose_eq (arg 0 args) (t_id t) = false ->
  tracks (receive addr args st) !! r = Some t.
Proof.
  intros Hsong Ht Hne. unfold receive, receive_outcome.
  apply track_kept_by_listeners; [| exact Hne | exact Ht].
  intros l Hl f ->. exact (Hsong f Hl).
Qed.


(** ** Device lists *)

Lemma new_Device_eq (id : value) (track : owner) (type : devtype) (name : value)
    (st : State) :
  (new_Device id track type name st).1 = length (devices st) /\
  devices (new_Device id track type name st).2 =
    devices st ++ [mkDevice name id track type arr_empty] /\
  sent (new_Device id track type name st).2 =
    sent st ++
    [mkMessage (infoAddr type) (device_path track type id st);
     mkMessage (rangeAddr type) (device_path track type id st)] /\
  song (new_Device id track type name st).2 = song st /\
  tracks (new_Device id track type name st).2 = tracks st /\
  returns (new_Device id track type name st).2 = returns st.
Proof.
  state_fields. split; [reflexivity |]. split; [reflexivity |].
  split; [rewrite <- !app_assoc; reflexivity | repeat split].
Qed.

Lemma owner_id_upd_track (o : owner) (self : ref) (f : Track -> Track) (st : State) :
  (forall t, t_id (f t) = t_id t) ->
  owner_id o (upd_track self f st) = owner_id o st.
Proof.
  intros Hf. destruct o as [r | r |]; [| reflexivity | reflexivity].
  unfold owner_id. state_fields.
  destruct (decide (r = self)) as [-> | Hne].
  - rewrite list_lookup_alter_eq. destruct (tracks st !! self); [apply Hf | reflexivity].
  - rewrite list_lookup_alter_ne by congruence. reflexivity.
Qed.

Lemma owner_id_upd_return (o : owner) (self : ref) (f : Return -> Return) (st : State) :
  (forall r, r_id (f r) = r_id r) ->
  owner_id o (upd_return self f st) = owner_id o st.
Proof.
  intros Hf. destruct o as [r | r |]; [reflexivity | | reflexivity].
  unfold owner_id. state_fields.
  destruct (decide (r = self)) as [-> | Hne].
  - rewrite list_lookup_alter_eq. destruct (returns st !! self); [apply Hf | reflexivity].
  - rewrite list_lookup_alter_ne by congruence. reflexivity.
Qed.

Lemma device_path_frame (track : owner) (type : devtype) (id : value) (st st' : State) :
  owner_id track st' = owner_id track st ->
  device_path track type id st' = device_path track type id st.
Proof. intros Ho. unfold device_path. rewrite Ho. reflexivity. Qed.

Lemma Track_devicelist_loop_strides (self : ref) (args : list value) :
  forall st, Track_devicelist_loop self args st =
    foldl (fun st p => Track_devicelist_step self p.1 p.2 st) st (strides2 args).
Proof.
  induction args as [| a | a b l IH] using strides2_ind; intros st; try reflexivity.
  simpl. apply IH.
Qed.

Lemma Return_devicelist_loop_strides (self : ref) (args : list value) :
  forall st, Return_devicelist_loop self args st =
    foldl (fun st p => Return_devicelist_step self p.1 p.2 st) st (strides2 args).
Proof.
  induction args as [| a | a b l IH] using strides2_ind; intros st; try reflexivity.
  simpl. apply IH.
Qed.

Lemma Song_devicelist_loop_strides (args : list value) :
  forall st, Song_devicelist_loop args st =
    foldl (fun st p => Song_devicelist_step p.1 p.2 st) st (strides2 args).
Proof.
  induction args as [| a | a b l IH] using strides2_ind; intros st; try reflexivity.
  simpl. apply IH.
Qed.

Lemma Track_devicelist_fold (self : ref) (ps : list (value * value)) :
  forall st t, tracks st !! self = Some t ->
  let st' := foldl (fun st p => Track_devicelist_step self p.1 p.2 st) st ps in
  devices st' =
    devices st ++ ((fun p => mkDevice p.2 p.1 (track_owner self) track_type arr_empty) <$> ps) /\
  t_devices <$> tracks st' !! self =
    Some (t_devices t ++ seq (length (devices st)) (length ps)) /\
  t_id <$> tracks st' !! self = Some (t_id t) /\
  sent st' =
    sent st ++
    concat ((fun p => [mkMessage "/live/device" [int (t_id t); int p.1];
                       mkMessage "/live/device/range" [int (t_id t); int p.1]]) <$> ps).
Proof.
  induction ps as [|p ps IH]; intros st t Ht; cbn [foldl].
  - cbn. rewrite !app_nil_r, Ht. repeat split.
  - set (st1 := Track_devicelist_step self p.1 p.2 st).
    assert (Hd1 : devices st1 =
      devices st ++ [mkDevice p.2 p.1 (track_owner self) track_type arr_empty])
      by reflexivity.
    assert (Hs1 : sent st1 =
      sent st ++ [mkMessage "/live/device" [int (t_id t); int p.1];
                  mkMessage "/live/device/range" [int (t_id t); int p.1]]).
    { subst st1. unfold Track_devicelist_step. state_fields.
      unfold device_path, owner_id. state_fields. rewrite Ht. cbn [from_option].
      rewrite <- app_assoc. reflexivity. }
    assert (Ht1 : tracks st1 !! self =
      Some (set_t_devices (t_devices t ++ [length (devices st)]) t)).
    { subst st1. unfold Track_devicelist_step. state_fields.
      rewrite list_lookup_alter_eq, Ht. reflexivity. }
    destruct (IH st1 _ Ht1) as (Hd & Htd & Hid & Hs). cbv zeta in *.
    rewrite Hd, Htd, Hid, Hs, Hd1, Hs1, length_app. cbn [length fmap list_fmap concat].
    cbn [set_t_devices t_devices t_id]. rewrite <- !app_assoc. cbn [app seq].
    replace (length (devices st) + 1)%nat with (S (length (devices st))) by lia.
    repeat split.
Qed.

Lemma Return_devicelist_fold (self : ref) (ps : list (value * value)) :
  forall st r, returns st !! self = Some r ->
  let st' := foldl (fun st p => Return_devicelist_step self p.1 p.2 st) st ps in
  devices st' =
    devices st ++
    ((fun p => mkDevice p.2 p.1 (return_owner self) return_type arr_empty) <$> ps) /\
  r_devices <$> returns st' !! self =
    Some (r_devices r ++ seq (length (devices st)) (length ps)) /\
  r_id <$> returns st' !! self = Some (r_id r) /\
  sent st' =
    sent st ++
    concat ((fun p => [mkMessage "/live/return/device" [int (r_id r); int p.1];
                       mkMessage "/live/return/device/range" [int (r_id r); int p.1]]) <$> ps).
Proof.
  induction ps as [|p ps IH]; intros st r Hr; cbn [foldl].
  - cbn. rewrite !app_nil_r, Hr. repeat split.
  - set (st1 := Return_devicelist_step self p.1 p.2 st).
    assert (Hd1 : devices st1 =
      devices st ++ [mkDevice p.2 p.1 (return_owner self) return_type arr_empty])
      by reflexivity.
    assert (Hs1 : sent st1 =
      sent st ++ [mkMessage "/live/return/device" [int (r_id r); int p.1];
                  mkMessage "/live/return/device/range" [int (r_id r); int p.1]]).
    { subst st1. unfold Return_devicelist_step. state_fields.
      unfold device_path, owner_id. state_fields. rewrite Hr. cbn [from_option].
      rewrite <- app_assoc. reflexivity. }
    assert (Hr1 : returns st1 !! self =
      Some (set_r_devices (r_devices r ++ [length (devices st)]) r)).
    { subst st1. unfold Return_devicelist_step. state_fields.
      rewrite list_lookup_alter_eq, Hr. reflexivity. }
    destruct (IH st1 _ Hr1) as (Hd & Hrd & Hid & Hs). cbv zeta in *.
    rewrite Hd, Hrd, Hid, Hs, Hd1, Hs1, length_app. cbn [length fmap list_fmap concat].
    cbn [set_r_devices r_devices r_id]. rewrite <- !app_assoc. cbn [app seq].
    replace (length (devices st) + 1)%nat with (S (length (devices st))) by lia.
    repeat split.
Qed.

Lemma Song_devicelist_fold (ps : list (value * value)) :
  forall st,
  let st' := foldl (fun st p => Song_devicelist_step p.1 p.2 st) st ps in
  devices st' =
    devices st ++ ((fun p => mkDevice p.2 p.1 song_owner master_type arr_empty) <$> ps) /\
  s_devices (song st') = s_devices (song st) ++ seq (length (devices st)) (length ps) /\
  sent st' =
    sent st ++
    concat ((fun p => [mkMessage "/live/master/device" [int p.1];
                       mkMessage "/live/master/device/range" [int p.1]]) <$> ps).
Proof.
  induction ps as [|p ps IH]; intros st; cbn [foldl].
  - cbn. rewrite !app_nil_r. repeat split.
  - set (st1 := Song_devicelist_step p.1 p.2 st).
    assert (Hd1 : devices st1 =
      devices st ++ [mkDevice p.2 p.1 song_owner master_type arr_empty]) by reflexivity.
    assert (Hs1 : sent st1 =
      sent st ++ [mkMessage "/live/master/device" [int p.1];
                  mkMessage "/live/master/device/range" [int p.1]]).
    { subst st1. unfold Song_devicelist_step, upd_song. state_fields.
      rewrite <- app_assoc. reflexivity. }
    assert (Hsd1 : s_devices (song st1) = s_devices (song st) ++ [length (devices st)])
      by reflexivity.
    destruct (IH st1) as (Hd & Hsd & Hs). cbv zeta in *.
    rewrite Hd, Hsd, Hs, Hd1, Hs1, Hsd1, length_app. cbn [length fmap list_fmap concat].
    rewrite <- !app_assoc. cbn [app seq].
    replace (length (devices st) + 1)%nat with (S (length (devices st))) by lia.
    repeat split.
Qed.

Lemma Track_devicelist_builds (self : ref) (t : Track) (args : list value) (st : State) :
  tracks st !! self = Some t ->
  loose_eq (arg 0 args) (t_id t) = true ->
  let ps := strides2 (tail args) in
  let st' := Track_devicelistListener self args st in
  devices st' =
    devices st ++ ((fun p => mkDevice p.2 p.1 (track_owner self) track_type arr_empty) <$> ps) /\
  t_devices <$> tracks st' !! self =
    Some (t_devices t ++ seq (length (devices st)) (length ps)) /\
  sent st' =
    sent st ++
    concat ((fun p => [mkMessage "/live/device" [mkArg integer (t_id t); mkArg integer p.1];
                       mkMessage "/live/device/range"
                         [mkArg integer (t_id t); mkArg integer p.1]]) <$> ps).
Proof.
  intros Ht Hid ps st'. subst st' ps.
  unfold Track_devicelistListener, loose_neq. rewrite Ht, Hid. cbn [negb]. cbv zeta.
  rewrite Track_devicelist_loop_strides.
  destruct (Device_destroy_fold (default [] (rx_devices (receiver st))) st)
    as (_ & _ & _ & _ & _ & Htr & _ & _ & Hd & Hs & _).
  cbv zeta in *. set (stA := foldl _ st (default [] (rx_devices (receiver st)))) in *.
  destruct (Track_devicelist_fold self (strides2 (tail args))
              (upd_receiver (set_rx_devices (Some [])) stA) t) as (Hd' & Htd' & _ & Hs').
  { state_fields. rewrite Htr. exact Ht. }
  cbv zeta in *. rewrite Hd', Htd', Hs'. state_fields. rewrite Hd, Hs. repeat split.
Qed.

Lemma Return_devicelist_builds (self : ref) (r : Return) (args : list value) (st : State) :
  returns st !! self = Some r ->
  loose_eq (arg 0 args) (r_id r) = true ->
  let ps := strides2 (tail args) in
  let st' := Return_devicelistListener self args st in
  devices st' =
    devices st ++
    ((fun p => mkDevice p.2 p.1 (return_owner self) return_type arr_empty) <$> ps) /\
  r_devices <$> returns st' !! self =
    Some (r_devices r ++ seq (length (devices st)) (length ps)) /\
  sent st' =
    sent st ++
    concat ((fun p => [mkMessage "/live/return/device"
                         [mkArg integer (r_id r); mkArg integer p.1];
                       mkMessage "/live/return/device/range"
                         [mkArg integer (r_id r); mkArg integer p.1]]) <$> ps).
Proof.
  intros Hr Hid ps st'. subst st' ps.
  unfold Return_devicelistListener, loose_neq. rewrite Hr, Hid. cbn [negb]. cbv zeta.
  rewrite Return_devicelist_loop_strides.
  destruct (Return_devicelist_fold self (strides2 (tail args)) st r Hr) as (Hd & Hrd & _ & Hs).
  cbv zeta in *. rewrite Hd, Hrd, Hs. repeat split.
Qed.

(** X20: a device list for a track or a return whose id it carries, and any
    device list for the master channel, is taken pair by pair (id, name):
    each pair constructs a device of that id and name on the entity, which
    asks Live for its parameters and for their ranges, and the new devices
    are added, in order, after the devices the entity holds.  A pair the
    message leaves short gives a device whose name is [undefined]. *)
Theorem devicelist_adds_devices :
  (forall self t args st,
     tracks st !! self = Some t ->
     loose_eq (arg 0 args) (t_id t) = true ->
     let ps := strides2 (tail args) in
     let st' := Track_devicelistListener self args st in
     devices st' =
       devices st ++
       ((fun p => mkDevice p.2 p.1 (track_owner self) track_type arr_empty) <$> ps) /\
     t_devices <$> tracks st' !! self =
       Some (t_devices t ++ seq (length (devices st)) (length ps)) /\
     sent st' =
       sent st ++
       concat ((fun p => [mkMessage "/live/device" [mkArg integer (t_id t); mkArg integer p.1];
                          mkMessage "/live/device/range"
                            [mkArg integer (t_id t); mkArg integer p.1]]) <$> ps))
  /\
  (forall self r args st,
     returns st !! self = Some r ->
     loose_eq (arg 0 args) (r_id r) = true ->
     let ps := strides2 (tail args) in
     let st' := Return_devicelistListener self args st in
     devices st' =
       devices st ++
       ((fun p => mkDevice p.2 p.1 (return_owner self) return_type arr_empty) <$> ps) /\
     r_devices <$> returns st' !! self =
       Some (r_devices r ++ seq (length (devices st)) (length ps)) /\
     sent st' =
       sent st ++
       concat ((fun p => [mkMessage "/live/return/device"
                            [mkArg integer (r_id r); mkArg integer p.1];
                          mkMessage "/live/return/device/range"
                            [mkArg integer (r_id r); mkArg integer p.1]]) <$> ps))
  /\
  (forall args st,
     let ps := strides2 args in
     let st' := Song_devicelistListener args st in
     devices st' =
       devices st ++ ((fun p => mkDevice p.2 p.1 song_owner master_type arr_empty) <$> ps) /\
     s_devices (song st') = s_devices (song st) ++ seq (length (devices st)) (length ps) /\
     sent st' =
       sent st ++
       concat ((fun p => [mkMessage "/live/master/device" [mkArg integer p.1];
                          mkMessage "/live/master/device/range" [mkArg integer p.1]]) <$> ps)).
Proof.
  split; [exact Track_devicelist_builds |]. split; [exact Return_devicelist_builds |].
  intros args st ps st'. subst st' ps. unfold Song_devicelistListener.
  rewrite Song_devicelist_loop_strides. apply Song_devicelist_fold.
Qed.

(** ** The options of an instance *)

Lemma or_else_spec (x d : value) :
  truthy d = true ->
  truthy (or_else x d) = true /\
  (truthy x = true -> or_else x d = x) /\ (truthy x = false -> or_else x d = d).
Proof.
  intros Hd. unfold or_else. destruct (truthy x) eqn:Hx.
  - split; [exact Hx |]. split; [reflexivity | discriminate].
  - split; [exact Hd |]. split; [discriminate | reflexivity].
Qed.

(** X21: the host, the port, the host and the port of Live and the wait
    time of an instance are never falsy: each is the option that was given
    when that is truthy, and its default otherwise, so that a port or a wait
    time of 0 cannot be chosen.  Without options the instance listens on
    127.0.0.1:9006, talks to 127.0.0.1:9005, waits 1000 and does not
    debug. *)
Theorem LiveOSC_options_default (opts : option Options) :
  let given := default no_options opts in
  let o := LiveOSC_options opts in
  (truthy (o_host o) = true /\ truthy (o_port o) = true /\ truthy (o_liveHost o) = true /\
   truthy (o_livePort o) = true /\ truthy (o_waitTime o) = true) /\
  (truthy (o_host given) = true -> o_host o = o_host given) /\
  (truthy (o_port given) = true -> o_port o = o_port given) /\
  (truthy (o_liveHost given) = true -> o_liveHost o = o_liveHost given) /\
  (truthy (o_livePort given) = true -> o_livePort o = o_livePort given) /\
  (truthy (o_waitTime given) = true -> o_waitTime o = o_waitTime given) /\
  (truthy (o_debug given) = true -> o_debug o = o_debug given) /\
  (truthy (o_host given) = false -> o_host o = VStr "127.0.0.1") /\
  (truthy (o_port given) = false -> o_port o = VNum 9006) /\
  (truthy (o_liveHost given) = false -> o_liveHost o = VStr "127.0.0.1") /\
  (truthy (o_livePort given) = false -> o_livePort o = VNum 9005) /\
  (truthy (o_waitTime given) = false -> o_waitTime o = VNum 1000) /\
  (truthy (o_debug given) = false -> o_debug o = VBool false).
Proof.
  intros given o. subst o. unfold LiveOSC_options. fold given.
  cbn [o_host o_port o_liveHost o_livePort o_waitTime o_debug].
  destruct (or_else_spec (o_host given) (VStr "127.0.0.1") eq_refl) as (H1 & H1t & H1f).
  destruct (or_else_spec (o_port given) (VNum 9006) eq_refl) as (H2 & H2t & H2f).
  destruct (or_else_spec (o_liveHost given) (VStr "127.0.0.1") eq_refl) as (H3 & H3t & H3f).
  destruct (or_else_spec (o_livePort given) (VNum 9005) eq_refl) as (H4 & H4t & H4f).
  destruct (or_else_spec (o_waitTime given) (VNum 1000) eq_refl) as (H5 & H5t & H5f).
  split; [repeat split; assumption |].
  repeat (split; [assumption |]).
  unfold or_else.
  split; [intros ->; reflexivity |].
  repeat (split; [assumption |]).
  intros ->. reflexivity.
Qed.

(** ** The set after the first replies *)

Lemma loop_bound_num (n : nat) : loop_bound (num n) = n.
Proof.
  unfold loop_bound, num. cbn [to_number]. rewrite Qceiling_Z. apply Nat2Z.id.
Qed.

Lemma no_track_listens_for_scenes (rs : list ref) :
  filter (fun p : string * listener => p.1 = "/live/scenes") (concat (Track_listeners <$> rs))
    = [].
Proof.
  induction rs as [|r rs IH]; [reflexivity |].
  cbn [fmap list_fmap concat]. rewrite filter_app, IH. reflexivity.
Qed.

Lemma new_LiveOSC_listens :
  listeners_of "/live/tracks" new_LiveOSC = [song_listener S_tracksListener] /\
  listeners_of "/live/scenes" new_LiveOSC = [song_listener S_scenesListener] /\
  tracks new_LiveOSC = [] /\ clips new_LiveOSC = [] /\ s_tracks (song new_LiveOSC) = [].
Proof. vm_compute. repeat split. Qed.

(** X24: on a new instance, the reply of Live that counts [n] tracks
    followed by the reply that counts [k] scenes leaves the song with the
    [n] tracks of the ids 0 to [n - 1], in order, each with [k] as its
    number of scenes and with [k] clips, clip [j] of track [i] having the
    id [j] and belonging to track [i]. *)
Theorem tracks_then_scenes (n k : nat) :
  let st := receive "/live/scenes" [num k] (receive "/live/tracks" [num n] new_LiveOSC) in
  s_tracks (song st) = seq 0 n /\
  forall i, (i < n)%nat ->
    exists cs,
      tracks st !! i =
        Some (set_t_clips cs (set_t_numScenes (num k) (Track_fields (num i)))) /\
      length cs = k /\
      forall j c, cs !! j = Some c -> clips st !! c = Some (Clip_fields i (num j)).
Proof.
  destruct new_LiveOSC_listens as (Hl0 & Hl0' & Ht0 & Hc0 & Hst0).
  set (st0 := new_LiveOSC) in *.
  assert (H1 : receive "/live/tracks" [num n] st0 = Song_tracksListener [num n] st0)
    by (unfold receive, receive_outcome; rewrite Hl0; reflexivity).
  rewrite H1.
  destruct (tracks_loop n st0) as (Ht & Hst & _ & _ & Hl & _ & Hc & _).
  cbv zeta in Ht, Hst, Hl, Hc.
  assert (Hst1def : Song_tracksListener [num n] st0 =
    send "/live/scenes" []
      (foldl (fun st i =>
          let '(track, st) := new_Track (num i) st in
          upd_song (fun s => set_s_tracks (write_at i track (s_tracks s)) s) st)
        st0 (seq 0 n))).
  { unfold Song_tracksListener. cbv zeta. change (arg 0 [num n]) with (num n).
    rewrite loop_bound_num. reflexivity. }
  set (st1 := Song_tracksListener [num n] st0) in *.
  set (stn := foldl _ st0 (seq 0 n)) in *.
  assert (Ht1 : tracks st1 = (fun i => Track_fields (num i)) <$> seq 0 n).
  { rewrite Hst1def. state_fields. rewrite Ht, Ht0. reflexivity. }
  assert (Hst1 : s_tracks (song st1) = seq 0 n).
  { rewrite Hst1def. state_fields. rewrite Hst, Ht0, Hst0, drop_nil, app_nil_r. reflexivity. }
  assert (Hc1 : clips st1 = []).
  { rewrite Hst1def. state_fields. rewrite Hc, Hc0. reflexivity. }
  assert (Hl1 : listeners_of "/live/scenes" st1 = [song_listener S_scenesListener]).
  { unfold listeners_of. rewrite Hst1def. state_fields.
    rewrite Hl, filter_app, fmap_app.
    fold (listeners_of "/live/scenes" st0). rewrite Hl0', Ht0.
    rewrite (list_fmap_compose (fun i => (0 + i)%nat) Track_listeners).
    rewrite no_track_listens_for_scenes. reflexivity. }
  assert (H2 : receive "/live/scenes" [num k] st1 = Song_scenesListener [num k] st1)
    by (unfold receive, receive_outcome; rewrite Hl1; reflexivity).
  rewrite H2. cbv zeta.
  destruct (scenes_fold (num k) (s_tracks (song st1)) st1) as (Hin & _ & _ & Hsong).
  { rewrite Hst1. apply NoDup_seq. }
  { intros r Hr. rewrite Hst1 in Hr. apply elem_of_seq in Hr.
    apply lookup_lt_is_Some. rewrite Ht1, length_fmap, length_seq. lia. }
  cbv zeta in Hin, Hsong. unfold Song_scenesListener. cbv zeta.
  change (arg 0 [num k]) with (num k).
  split; [rewrite Hsong; exact Hst1 |].
  intros i Hi. destruct (Hin i) as (t & cs & Ht' & Htr & Hlen & Hcs).
  { rewrite Hst1. apply elem_of_seq. lia. }
  rewrite Ht1, list_lookup_fmap, lookup_seq_lt in Ht' by exact Hi.
  injection Ht' as <-.
  exists cs. split; [exact Htr |]. split; [rewrite Hlen; apply loop_bound_num |].
  intros j c Hj. apply (Hcs j c Hj).
Qed.

(** ** Runs from a new instance *)

(** C7: on a new instance, the replies of Live for two tracks, one return,
    four scenes, a master volume of 0.8 and a tempo of 126 leave two tracks,
    each with [numScenes] 4 and four clips, one return, and the volume and
    the tempo received. *)
Theorem round_trip :
  let st :=
    receive "/live/tempo" [VNum 126]
      (receive "/live/master/volume" [VNum 0.8]
        (receive "/live/scenes" [num 4]
          (receive "/live/returns" [num 1]
            (receive "/live/tracks" [num 2] new_LiveOSC)))) in
  length (s_tracks (song st)) = 2%nat /\
  (fun track => (fun t => (t_numScenes t, length (t_clips t))) <$> tracks st !! track)
    <$> s_tracks (song st) = [Some (num 4, 4%nat); Some (num 4, 4%nat)] /\
  length (s_returns (song st)) = 1%nat /\
  s_volume (song st) = VNum 0.8 /\
  s_tempo (song st) = VNum 126.
Proof. vm_compute. repeat split. Qed.

(** C1 fails on a return: [destroy] removes its [devicelistListener] from
    [/live/return/devlicelist], an address it was never added under, so the
    listener stays under [/live/return/devicelist].  A device list for the
    destroyed return still gives it a device, with listeners and requests of
    its own. *)
Theorem Return_destroy_keeps_devicelistListener :
  let st := receive "/live/returns" [num 1] new_LiveOSC in
  let destroyed := Return_destroy 0 st in
  let st' := receive "/live/return/devicelist" [num 0; num 0; VStr "Reverb"] destroyed in
  listeners_of "/live/return/devicelist" destroyed = [return_listener R_devicelistListener 0] /\
  r_devices <$> returns destroyed !! 0%nat = Some [] /\
  r_devices <$> returns st' !! 0%nat = Some [0%nat] /\
  listeners_of "/live/return/device/param" st' = [device_listener D_paramListener 0] /\
  drop (length (sent destroyed)) (sent st') =
    [mkMessage "/live/return/device" [int (num 0); int (num 0)];
     mkMessage "/live/return/device/range" [int (num 0); int (num 0)]].
Proof. vm_compute. repeat split. Qed.

(** C2 fails on a return: [volumeListener] (and [panListener]) assigns the
    field before it announces the change, so the event carries the new
    volume as [prev], not the volume stored before the notification. *)
Theorem Return_volume_prev_is_the_new_value :
  let st := receive "/live/returns" [num 1] new_LiveOSC in
  let st' := receive "/live/return/volume" [num 0; VNum 0.5] st in
  r_volume <$> returns st !! 0%nat = Some (num 0) /\
  drop (length (events st)) (events st') =
    [mkEvent (return_emitter 0) "volume"
       (Some [("value", VNum 0.5); ("prev", VNum 0.5)]);
     mkEvent song_emitter "return:volume"
       (Some [("id", num 0); ("value", VNum 0.5); ("prev", VNum 0.5)])].
Proof. vm_compute. repeat split. Qed.

(** C3 fails on a track: [devicelistListener] destroys and empties the
    [devices] of [this], the receiver, not those of the track.  A second
    device list leaves the track with both devices of id 0, the first
    neither destroyed nor without its listeners. *)
Theorem Track_devicelist_twice_keeps_both_devices :
  let st := receive "/live/tracks" [num 1] new_LiveOSC in
  let devicelist := [num 0; num 0; VStr "Reverb"] in
  let st' := receive "/live/devicelist" devicelist (receive "/live/devicelist" devicelist st) in
  t_devices <$> tracks st' !! 0%nat = Some [0%nat; 1%nat] /\
  (fun d => (d_id d, d_track d)) <$> devices st' =
    [(num 0, track_owner 0); (num 0, track_owner 0)] /\
  listeners_of "/live/device/param" st' =
    [device_listener D_paramListener 0; device_listener D_paramListener 1] /\
  events st' = events st /\
  rx_devices (receiver st') = Some [].
Proof. vm_compute. repeat split. Qed.

End Properties.

(** * Closed runs

    The theorems above hold for every runtime; the runs below are on the
    set [demo], under the runtime [digits_runtime]. *)

#[global] Existing Instance digits_runtime.

Lemma demo_devices :
  devices demo = [demo_reverb; demo_delay; demo_limiter].
Proof. vm_compute. reflexivity. Qed.

Lemma demo_tracks : tracks demo = [demo_track].
Proof. vm_compute. reflexivity. Qed.

Lemma Device_view_sends_own_id_witness :
  Device_view 0 demo =
    set_sent (sent demo ++
      [mkMessage "/live/track/device/view" [mkArg integer (num 0); mkArg integer (num 0)]])
      demo /\
  Device_view 1 demo =
    set_sent (sent demo ++
      [mkMessage "/live/return/device/view" [mkArg integer (num 0); mkArg integer (num 0)]])
      demo /\
  Device_view 2 demo =
    set_sent (sent demo ++ [mkMessage "/live/master/device/view" [mkArg integer (num 0)]])
      demo.
Proof.
  split; [| split].
  - apply (Device_view_sends_own_id 0 demo_reverb demo). rewrite demo_devices. reflexivity.
  - apply (Device_view_sends_own_id 1 demo_delay demo). rewrite demo_devices. reflexivity.
  - apply (Device_view_sends_own_id 2 demo_limiter demo). rewrite demo_devices. reflexivity.
Defined.

Lemma Device_set_by_name_witness :
  Device_set 0 (VStr "Gain") (num 1) demo = Thrown "No parameter with name Gain" demo /\
  exists i prm,
    elems (d_params demo_reverb) !! i = Some (Some prm) /\ p_name prm = VStr "Dry/Wet" /\
    (forall j p, (j < i)%nat -> elems (d_params demo_reverb) !! j = Some (Some p) ->
       p_name p <> VStr "Dry/Wet") /\
    Device_set 0 (VStr "Dry/Wet") (VNum 0.7) demo =
      Returned (set_sent (sent demo ++
        [mkMessage "/live/device"
           [mkArg integer (num 0); mkArg integer (num 0); mkArg integer (p_id prm);
            mkArg integer (VNum 0.7)]]) demo).
Proof.
  assert (Hd : devices demo !! 0%nat = Some demo_reverb)
    by (rewrite demo_devices; reflexivity).
  assert (Hown : d_type demo_reverb <> master_type ->
                 match d_track demo_reverb with
                 | track_owner r => t_id <$> tracks demo !! r
                 | return_owner r => r_id <$> returns demo !! r
                 | song_owner => Some VUndef
                 end = Some (num 0))
    by (intros _; cbn [d_track demo_reverb]; rewrite demo_tracks; reflexivity).
  split.
  - apply (proj1 (Device_set_by_name 0 demo_reverb "Gain" (num 1) (num 0) demo Hd Hown)).
    clear Hd Hown. intros [|[|i]] prm Hi; cbn in Hi; [| | discriminate Hi];
      injection Hi as <-; intros Hname; discriminate Hname.
  - apply (proj2 (Device_set_by_name 0 demo_reverb "Dry/Wet" (VNum 0.7) (num 0) demo
                    Hd Hown)).
    exists 1%nat, (mkParam (num 1) (VNum 0.5) (VStr "Dry/Wet") VUndef VUndef).
    split; reflexivity.
Defined.

(** C5 as it was stated fails for an entry that is not an array element: a
    parameter reported under the index -1 is an entry of the table, under
    the key [-1], and has the name, yet [set] with the name throws. *)
Lemma Device_set_misses_an_entry_under_a_key :
  let st :=
    receive "/live/device/allparam" [num 0; num 0; VNum (-1); VNum 0.3; VStr "Gain"] demo in
  (exists d prm,
     devices st !! 0%nat = Some d /\ props (d_params d) !! "-1" = Some prm /\
     p_name prm = VStr "Gain") /\
  Device_set 0 (VStr "Gain") (num 1) st = Thrown "No parameter with name Gain" st.
Proof.
  split.
  - eexists _, _. split; [vm_compute; reflexivity |].
    split; vm_compute; reflexivity.
  - vm_compute. reflexivity.
Qed.


Lemma command_only_sends_witness :
  (exists m, run (track_setVolume 0 (VNum 0.5)) demo =
     Returned (set_sent (sent demo ++ [m]) demo)) /\
  (exists m, run (device_set 0 (VStr "Dry/Wet") (VNum 0.7)) demo =
     Returned (set_sent (sent demo ++ [m]) demo)) /\
  run (clip_setPitch 0 (num 3) (num 0)) demo = Returned demo /\
  (exists self name value,
     device_set 0 (VStr "Gain") (num 1) = device_set self (VStr name) value /\
     run (device_set 0 (VStr "Gain") (num 1)) demo =
       Thrown ("No parameter with name " ++ name) demo).
Proof.
  assert (Hdevice : devices demo !! 0%nat = Some demo_reverb)
    by (rewrite demo_devices; reflexivity).
  split; [| split; [| split]].
  - apply (command_only_sends (track_setVolume 0 (VNum 0.5)) demo).
    + unfold callee_exists. rewrite demo_tracks. exists demo_track. reflexivity.
    + intros [].
    + intros [].
  - apply (command_only_sends (device_set 0 (VStr "Dry/Wet") (VNum 0.7)) demo).
    + exists demo_reverb. exact Hdevice.
    + intros [].
    + intros (d & Hd & Hnone). rewrite Hdevice in Hd. injection Hd as <-.
      exact (Hnone 1%nat (mkParam (num 1) (VNum 0.5) (VStr "Dry/Wet") VUndef VUndef)
               eq_refl eq_refl).
  - apply (command_only_sends (clip_setPitch 0 (num 3) (num 0)) demo).
    + unfold callee_exists. eexists. vm_compute. reflexivity.
    + eexists. split; vm_compute; reflexivity.
  - apply (command_only_sends (device_set 0 (VStr "Gain") (num 1)) demo).
    + exists demo_reverb. exact Hdevice.
    + exists demo_reverb. split; [exact Hdevice |].
      intros [|[|i]] prm Hi; cbn in Hi; [| | discriminate Hi];
        injection Hi as <-; intros Hname; discriminate Hname.
Defined.

(** C9 as it was stated fails on a MIDI track: [setPitch] of its clip sends
    nothing. *)
Lemma setPitch_on_a_midi_track_sends_nothing :
  truthy (track_audio 0 demo) = false /\
  Clip_setPitch 0 (num 3) (num 0) demo = demo /\
  ~ (exists m, sent (Clip_setPitch 0 (num 3) (num 0) demo) = (sent demo ++ [m])%list).
Proof.
  assert (Hsame : Clip_setPitch 0 (num 3) (num 0) demo = demo) by (vm_compute; reflexivity).
  split; [vm_compute; reflexivity |]. split; [exact Hsame |].
  rewrite Hsame. intros [m Hm]. apply (f_equal length) in Hm.
  rewrite length_app in Hm. change (length [m]) with 1%nat in Hm. lia.
Qed.



Lemma demo_listeners_NoDup : NoDup (listeners (receiver demo)).
Proof. refine (bool_decide_unpack _ _). vm_compute. reflexivity. Qed.

(** The listeners of [demo] one by one: a membership [Hin] in them is
    settled for each in turn. *)
Ltac listener_by_listener Hin :=
  let Hl := fresh in
  assert (Hl : listeners (receiver demo) =
    ltac:(let l := eval vm_compute in (listeners (receiver demo)) in exact l))
    by (vm_compute; reflexivity);
  rewrite Hl in Hin; clear Hl;
  repeat (apply elem_of_cons in Hin as [Hin | Hin];
    [first [discriminate Hin | injection Hin as -> ->; reflexivity] |]);
  apply elem_of_nil in Hin; contradiction.

Lemma Track_destroy_removes_every_listener_witness :
  track_listener T_volumeListener 0 ∉ listeners_of "/live/volume" (Track_destroy 0 demo).
Proof.
  apply (Track_destroy_removes_every_listener 0 demo demo_listeners_NoDup).
  intros addr f Hin. listener_by_listener Hin.
Defined.

Lemma Clip_destroy_removes_every_listener_witness :
  clip_listener C_clipinfoListener 1 ∉ listeners_of "/live/clip/info" (Clip_destroy 1 demo).
Proof.
  apply (Clip_destroy_removes_every_listener 1 demo demo_listeners_NoDup).
  intros addr f Hin. listener_by_listener Hin.
Defined.

Lemma Device_destroy_removes_every_listener_witness :
  device_listener D_allParamListener 2 ∉
    listeners_of "/live/master/device" (Device_destroy 2 demo).
Proof.
  apply (Device_destroy_removes_every_listener 2 demo_limiter demo);
    [rewrite demo_devices; reflexivity | exact demo_listeners_NoDup |].
  intros addr f Hin. listener_by_listener Hin.
Defined.

Lemma Track_volume_notifications_witness :
  foldl (fun st volume => call (track_listener T_volumeListener 0) [num 0; volume] st)
    demo [VNum 0.5; VNum 0.7] =
    set_events (events demo ++
        [mkEvent (track_emitter 0) "volume" (Some [("value", VNum 0.5); ("prev", num 0)]);
         mkEvent song_emitter "track:volume"
           (Some [("id", num 0); ("value", VNum 0.5); ("prev", num 0)]);
         mkEvent (track_emitter 0) "volume" (Some [("value", VNum 0.7); ("prev", VNum 0.5)]);
         mkEvent song_emitter "track:volume"
           (Some [("id", num 0); ("value", VNum 0.7); ("prev", VNum 0.5)])])
      (upd_track 0 (set_t_volume (VNum 0.7)) demo).
Proof.
  rewrite (Track_volume_notifications 0 (num 0) [VNum 0.5; VNum 0.7] demo demo_track);
    [| rewrite demo_tracks; reflexivity | reflexivity].
  vm_compute. reflexivity.
Defined.



Lemma Track_refreshClips_rebuilds_witness :
  t_clips <$> tracks (Track_refreshClips 0 demo) !! 0%nat = Some [2; 3]%nat /\
  events (Track_refreshClips 0 demo) =
    events demo ++
    [mkEvent (clip_emitter 0) "destroy" None; mkEvent (clip_emitter 1) "destroy" None].
Proof.
  assert (Hc : length (clips demo) = 2%nat) by (vm_compute; reflexivity).
  pose proof (Track_refreshClips_rebuilds 0 demo_track demo) as Hre.
  cbv zeta in Hre. rewrite Hc in Hre. apply Hre. rewrite demo_tracks. reflexivity.
Defined.

Lemma demo_clips : clips demo = [Clip_fields 0 (num 0); Clip_fields 0 (num 1)].
Proof. vm_compute. reflexivity. Qed.

Lemma demo_returns :
  returns demo = [mkReturn (VStr "") (num 0) (num 0) (num 0) (num 0) (num 0) [1%nat] arr_empty].
Proof. vm_compute. reflexivity. Qed.

Lemma demo_song_tracks : s_tracks (song demo) = [0%nat].
Proof. vm_compute. reflexivity. Qed.

Lemma Return_new_then_destroy_leaves_a_listener_witness :
  let self := (new_Return (num 1) demo).1 in
  let st' := Return_destroy self (new_Return (num 1) demo).2 in
  receiver st' =
    set_listeners (listeners (receiver demo) ++
      [("/live/return/devicelist", return_listener R_devicelistListener self)])
      (receiver demo) /\
  events st' = events demo ++ [mkEvent (return_emitter self) "destroy" None] /\
  sent st' =
    sent demo ++
    [mkMessage "/live/return/send" [int (num 1)]; mkMessage "/live/name/return" [int (num 1)]].
Proof.
  apply (Return_new_then_destroy_leaves_a_listener (num 1) demo). vm_compute. reflexivity.
Defined.


Lemma Song_field_notifications_witness :
  let st' := foldl (fun st v => call (song_listener S_tempoListener) [v] st) demo
               [VNum 126; VNum 128] in
  events st' =
    events demo ++
    [mkEvent song_emitter "tempo" (Some [("value", VNum 126); ("prev", VNum 120)]);
     mkEvent song_emitter "tempo" (Some [("value", VNum 128); ("prev", VNum 126)])] /\
  s_tempo (song st') = VNum 128.
Proof.
  assert (Htempo : s_tempo (song demo) = VNum 120) by (vm_compute; reflexivity).
  destruct (Song_field_notifications S_tempoListener "tempo" s_tempo [VNum 126; VNum 128]
              eq_refl demo) as (He & Hg & _).
  cbv zeta. rewrite He, Hg, Htempo. split; reflexivity.
Defined.

Lemma Clip_pitch_defaults_to_zero_witness :
  (fun c' => (c_coarse c', c_fine c')) <$>
    clips (Clip_pitchListener 1 [num 0; num 1; num 3] demo) !! 1%nat = Some (num 3, num 0).
Proof.
  destruct (proj1 Clip_pitch_defaults_to_zero 1%nat (Clip_fields 0 (num 1))
              [num 0; num 1; num 3] demo) as (_ & Hstored & _);
    [rewrite demo_clips; reflexivity | vm_compute; reflexivity |].
  exact Hstored.
Defined.

Lemma Clip_info_requests_witness :
  let emptied := [num 0; num 1; num 0; num 0] in
  let filled := [num 0; num 1; num 2; num 4] in
  let st' := Clip_clipinfoListener 1 filled (Clip_clipinfoListener 1 emptied demo) in
  ~ (exists m, m ∈ drop (length (sent demo)) (sent st') /\ address m = "/live/name/clip").
Proof.
  intros emptied filled st' (m & Hm & Haddr). revert Haddr.
  apply (proj1 (proj2 Clip_info_requests) 1%nat (Clip_fields 0 (num 1)) emptied filled demo);
    [rewrite demo_clips; reflexivity | vm_compute; reflexivity | vm_compute; reflexivity
    | reflexivity | exact Hm].
Defined.

Lemma name_notification_refreshes_devices_witness :
  let st' := Track_nameListener 0 [num 0; VStr "Bass"] demo in
  (fun t' => (t_name t', t_devices t')) <$> tracks st' !! 0%nat = Some (VStr "Bass", []) /\
  sent st' =
    sent demo ++
    [mkMessage "/live/scenes" [];
     mkMessage "/live/track/info" [mkArg integer (num 0)];
     mkMessage "/live/devicelist" [mkArg integer (num 0)]] /\
  forall d addr f, d ∈ t_devices demo_track -> device_listener f d ∉ listeners_of addr st'.
Proof.
  destruct (proj1 name_notification_refreshes_devices 0%nat demo_track
              [num 0; VStr "Bass"] demo) as (_ & Hstored & Hsent & Hgone);
    [rewrite demo_tracks; reflexivity | reflexivity |].
  split; [exact Hstored |]. split; [exact Hsent |].
  apply (Hgone demo_listeners_NoDup).
  intros d addr f Hd Hin. apply list_elem_of_singleton in Hd. subst d.
  exists demo_reverb. split; [rewrite demo_devices; reflexivity |].
  listener_by_listener Hin.
Defined.

Lemma Track_refreshClips_builds_witness :
  let st' := Track_refreshClips 0 demo in
  clips st' =
    clips demo ++ ((fun i => Clip_fields 0 (num i)) <$> seq 0 (loop_bound (num 2))) /\
  sent st' =
    sent demo ++
    ((fun i => mkMessage "/live/clip/info" [mkArg integer (num 0); mkArg integer (num i)])
       <$> seq 0 (loop_bound (num 2))).
Proof.
  destruct (Track_refreshClips_builds 0%nat demo_track demo) as (Hclips & Hsent & _);
    [rewrite demo_tracks; reflexivity |].
  split; [exact Hclips | exact Hsent].
Defined.

Lemma Song_scenes_rebuilds_every_track_witness :
  let st' := Song_scenesListener [num 3] demo in
  exists t cs,
    tracks demo !! 0%nat = Some t /\
    tracks st' !! 0%nat = Some (set_t_clips cs (set_t_numScenes (arg 0 [num 3]) t)) /\
    length cs = loop_bound (arg 0 [num 3]) /\
    forall i c, cs !! i = Some c ->
      (length (clips demo) <= c)%nat /\ clips st' !! c = Some (Clip_fields 0 (num i)).
Proof.
  destruct (Song_scenes_rebuilds_every_track [num 3] demo) as (Hin & _).
  - rewrite demo_song_tracks. apply NoDup_singleton.
  - rewrite demo_song_tracks, demo_tracks. intros r Hr.
    apply list_elem_of_singleton in Hr. subst r. eexists. reflexivity.
  - apply (Hin 0%nat). rewrite demo_song_tracks. left.
Defined.

Lemma Song_tracks_and_returns_witness :
  loop_bound VUndef = 0%nat /\ loop_bound (VNum (-1)) = 0%nat.
Proof.
  destruct Song_tracks_and_returns as (_ & _ & Hnone).
  split.
  - apply Hnone. left. reflexivity.
  - apply Hnone. right. exists (-1)%Q. split; [reflexivity | discriminate].
Defined.



Lemma demo_song_returns : s_returns (song demo) = [0%nat].
Proof. vm_compute. reflexivity. Qed.

Lemma demo_song_devices : s_devices (song demo) = [2%nat].
Proof. vm_compute. reflexivity. Qed.

Lemma Song_refresh_requests_witness :
  (track_listener T_volumeListener 0 ∉ listeners_of "/live/volume" (Song_refresh demo)) /\
  (return_listener R_volumeListener 0 ∉
     listeners_of "/live/return/volume" (Song_refresh demo)) /\
  (device_listener D_paramListener 2 ∉
     listeners_of "/live/master/device/param" (Song_refresh demo)) /\
  exists more,
    events (Song_refresh demo) =
      events demo ++ mkEvent song_emitter "refresh" None :: more /\
    mkEvent (track_emitter 0) "destroy" None ∈ more /\
    mkEvent (return_emitter 0) "destroy" None ∈ more /\
    mkEvent (device_emitter 2) "destroy" None ∈ more.
Proof.
  destruct (Song_refresh_requests demo)
    as (_ & _ & _ & (more & Hev & Htr & Hre & Hde) & _ & _ & Htracks & Hreturns & Hdevices).
  split; [| split; [| split]].
  - apply (Htracks demo_listeners_NoDup); [| rewrite demo_song_tracks; left].
    intros r addr f Hr Hin. rewrite demo_song_tracks in Hr.
    apply list_elem_of_singleton in Hr. subst r.
    listener_by_listener Hin.
  - apply (Hreturns demo_listeners_NoDup);
      [| rewrite demo_song_returns; left | discriminate].
    intros r addr f Hr Hin. rewrite demo_song_returns in Hr.
    apply list_elem_of_singleton in Hr. subst r.
    listener_by_listener Hin.
  - apply (Hdevices demo_listeners_NoDup); [| rewrite demo_song_devices; left].
    intros d addr f Hd Hin. rewrite demo_song_devices in Hd.
    apply list_elem_of_singleton in Hd. subst d.
    exists demo_limiter. split; [rewrite demo_devices; reflexivity |].
    listener_by_listener Hin.
  - exists more. split; [exact Hev |]. split; [| split].
    + apply Htr. rewrite demo_song_tracks. left.
    + apply Hre. rewrite demo_song_returns. left.
    + apply Hde; [rewrite demo_song_devices; left |].
      rewrite demo_devices. exists demo_limiter. reflexivity.
Defined.

Lemma message_for_others_keeps_track_witness :
  tracks (receive "/live/volume" [num 5; VNum 0.3] demo) !! 0%nat = Some demo_track.
Proof.
  apply (message_for_others_keeps_track "/live/volume" [num 5; VNum 0.3] demo 0 demo_track);
    [| rewrite demo_tracks; reflexivity | reflexivity].
  intros f Hin.
  assert (Hl : listeners_of "/live/volume" demo = [track_listener T_volumeListener 0])
    by (vm_compute; reflexivity).
  rewrite Hl in Hin. apply list_elem_of_singleton in Hin. discriminate Hin.
Defined.

Lemma devicelist_adds_devices_witness :
  let args := [num 0; num 1; VStr "Echo"; num 2] in
  let st' := Track_devicelistListener 0 args demo in
  devices st' =
    devices demo ++
    [mkDevice (VStr "Echo") (num 1) (track_owner 0) track_type arr_empty;
     mkDevice VUndef (num 2) (track_owner 0) track_type arr_empty] /\
  t_devices <$> tracks st' !! 0%nat = Some (t_devices demo_track ++ seq (length (devices demo)) 2).
Proof.
  destruct (proj1 devicelist_adds_devices 0%nat demo_track
              [num 0; num 1; VStr "Echo"; num 2] demo) as (Hdevices & Howned & _);
    [rewrite demo_tracks; reflexivity | reflexivity |].
  split; [exact Hdevices | exact Howned].
Defined.

Lemma LiveOSC_options_default_witness :
  o_port (LiveOSC_options
    (Some (mkOptions VUndef (num 0) VUndef VUndef (num 0) VUndef))) = VNum 9006 /\
  o_waitTime (LiveOSC_options
    (Some (mkOptions VUndef (num 0) VUndef VUndef (num 0) VUndef))) = VNum 1000.
Proof.
  destruct (LiveOSC_options_default
              (Some (mkOptions VUndef (num 0) VUndef VUndef (num 0) VUndef)))
    as (_ & _ & _ & _ & _ & _ & _ & _ & Hport & _ & _ & Hwait & _).
  split; [apply Hport | apply Hwait]; reflexivity.
Defined.

Lemma Clip_name_is_asked_once_witness :
  let named := [num 0; num 1; VStr "Intro"] in
  let info := [num 0; num 1; num 2; num 4] in
  let st' := Clip_clipinfoListener 1 info (Clip_clipnameListener 1 named demo) in
  ~ (exists m, m ∈ drop (length (sent demo)) (sent st') /\ address m = "/live/name/clip").
Proof.
  intros named info st' (m & Hm & Haddr). revert Haddr.
  apply (proj2 Clip_name_is_asked_once 1%nat (Clip_fields 0 (num 1)) named info demo);
    [rewrite demo_clips; reflexivity | vm_compute; reflexivity | vm_compute; reflexivity
    | reflexivity | exact Hm].
Defined.


Lemma tracks_then_scenes_witness :
  s_tracks (song (receive "/live/scenes" [num 4] (receive "/live/tracks" [num 2] new_LiveOSC)))
    = seq 0 2.
Proof. exact (proj1 (tracks_then_scenes 2 4)). Defined.

